(** * Client import pipeline of the CRM server: a shallow embedding

    The development follows [server/controllers/clientController.js]
    ([importClientsBatch], [importClients], [createClient]),
    [server/utils/csvValidator.js] ([validateClientData]) and
    [server/models/Client.js] ([addPaymentMethod]).

    Conventions.
    - A JavaScript string is a [string]; every character is read as one
      Latin-1 code unit (0..255).  Characters above U+00FF are outside the
      model.
    - A JavaScript number is a [number]: an exact decimal, an infinity or
      NaN.  Rounding to IEEE doubles is not modelled.
    - [undefined] is the absence of a key in a map, or [None].
    - The document store, the clock, the URL and Date constructors and the
      ObjectId generator are collaborators; they are passed explicitly. *)

From stdpp Require Import base option list gmap strings.
From Stdlib Require Import ZArith Ascii String DecimalString Lia.

Open Scope string_scope.
Open Scope Z_scope.

(** ** Characters and strings *)

Module Js.

Definition code (c : ascii) : N := N_of_ascii c.

Definition inRange (lo hi : N) (c : ascii) : bool :=
  ((lo <=? code c) && (code c <=? hi))%N.

Definition isChar (k : N) (c : ascii) : bool := (code c =? k)%N.

(** [\d] *)
Definition isDigit : ascii -> bool := inRange 48 57.
Definition isUpper : ascii -> bool := inRange 65 90.
Definition isLower : ascii -> bool := inRange 97 122.
(** [\w] *)
Definition isWord (c : ascii) : bool :=
  isUpper c || isLower c || isDigit c || isChar 95 c.
(** [\s], also the characters removed by [String.prototype.trim] *)
Definition isSpace (c : ascii) : bool :=
  inRange 9 13 c || isChar 32 c || isChar 160 c.

Definition chars : string -> list ascii := list_ascii_of_string.
Definition text : list ascii -> string := string_of_list_ascii.

Fixpoint dropWhile (p : ascii -> bool) (l : list ascii) : list ascii :=
  match l with
  | [] => []
  | c :: r => if p c then dropWhile p r else l
  end.

Fixpoint takeWhile (p : ascii -> bool) (l : list ascii) : list ascii :=
  match l with
  | [] => []
  | c :: r => if p c then c :: takeWhile p r else []
  end.

Definition trimStartL (l : list ascii) : list ascii := dropWhile isSpace l.
Definition trimL (l : list ascii) : list ascii :=
  rev (dropWhile isSpace (rev (dropWhile isSpace l))).

(** [s.trim()] *)
Definition trim (s : string) : string := text (trimL (chars s)).

Definition lowerChar (c : ascii) : ascii :=
  if isUpper c || inRange 192 214 c || inRange 216 222 c
  then ascii_of_N (code c + 32) else c.

(** [s.toLowerCase()] *)
Definition toLowerCase (s : string) : string := text (List.map lowerChar (chars s)).

(** [s.replace(/p/g, '')] for a one-character class [p]; the same string
    results from the [+]-quantified class. *)
Definition removeAll (p : ascii -> bool) (s : string) : string :=
  text (List.filter (fun c => negb (p c)) (chars s)).

(** [s.slice(0, n)], [s.slice(n)], [s.slice(-n)], [s.slice(i, j)] for
    non-negative [i], [j], [n] *)
Definition sliceTo (n : nat) (s : string) : string := text (firstn n (chars s)).
Definition sliceFrom (n : nat) (s : string) : string := text (skipn n (chars s)).
Definition sliceLast (n : nat) (s : string) : string :=
  text (skipn (String.length s - n) (chars s)).
Definition slice (i j : nat) (s : string) : string :=
  text (firstn (j - i) (skipn i (chars s))).

(** [s.padStart(2, '0')] *)
Definition padStart2 (s : string) : string :=
  match String.length s with
  | O => "00"
  | S O => "0" ++ s
  | _ => s
  end.

(** A JavaScript value used as a condition: a string is truthy exactly when
    it is not empty. *)
Definition truthy (s : string) : bool := negb (String.eqb s "").

(** [a || b] on strings *)
Definition orElse (a b : string) : string := if truthy a then a else b.

(** [parts.join(sep)] *)
Fixpoint join (sep : string) (parts : list string) : string :=
  match parts with
  | [] => ""
  | [p] => p
  | p :: rest => p ++ sep ++ join sep rest
  end.

End Js.

(** ** Numbers *)

Module Num.

Inductive number : Type :=
| NaN
| Inf (negative : bool)
| Fin (mant : Z) (scale : nat).   (* mant / 10^scale *)

#[global] Instance number_eq_dec : EqDecision number.
Proof. solve_decision. Defined.

Definition Int (z : Z) : number := Fin z 0.

(** The representative with the smallest scale. *)
Fixpoint normal (m : Z) (s : nat) : number :=
  match s with
  | O => Fin m 0
  | S s' => if (m mod 10 =? 0) then normal (m / 10) s' else Fin m s
  end.

Definition isNaN (x : number) : bool :=
  match x with NaN => true | _ => false end.

(** [x < 0] *)
Definition ltZero (x : number) : bool :=
  match x with
  | NaN => false
  | Inf neg => neg
  | Fin m _ => m <? 0
  end.

(** [a < b] on finite values, by cross-multiplication *)
Definition ltFin (m1 : Z) (s1 : nat) (m2 : Z) (s2 : nat) : bool :=
  m1 * 10 ^ Z.of_nat s2 <? m2 * 10 ^ Z.of_nat s1.

Definition lt (a b : number) : bool :=
  match a, b with
  | NaN, _ | _, NaN => false
  | Inf na, Inf nb => na && negb nb
  | Inf na, Fin _ _ => na
  | Fin _ _, Inf nb => negb nb
  | Fin m1 s1, Fin m2 s2 => ltFin m1 s1 m2 s2
  end.

(** [Math.max(a, b)] and [Math.min(a, b)]: NaN if either argument is NaN. *)
Definition max (a b : number) : number :=
  match a, b with
  | NaN, _ | _, NaN => NaN
  | _, _ => if lt a b then b else a
  end.

Definition min (a b : number) : number :=
  match a, b with
  | NaN, _ | _, NaN => NaN
  | _, _ => if lt b a then b else a
  end.

(** [a + b] *)
Definition add (a b : number) : number :=
  match a, b with
  | NaN, _ | _, NaN => NaN
  | Inf na, Inf nb => if Bool.eqb na nb then Inf na else NaN
  | Inf na, _ => Inf na
  | _, Inf nb => Inf nb
  | Fin m1 s1, Fin m2 s2 =>
      normal (m1 * 10 ^ Z.of_nat s2 + m2 * 10 ^ Z.of_nat s1) (s1 + s2)
  end.

Definition digitVal (c : ascii) : Z := Z.of_N (Js.code c) - 48.

(** The value of a run of decimal digits, most significant first. *)
Definition digitsVal (ds : list ascii) : Z :=
  fold_left (fun acc c => acc * 10 + digitVal c) ds 0.

Definition natText (n : N) : string := NilEmpty.string_of_uint (N.to_uint n).

(** [String(z)] for an integer [z] below 10^21 in magnitude *)
Definition intText (z : Z) : string :=
  if z <? 0 then "-" ++ natText (Z.to_N (- z)) else natText (Z.to_N z).

Definition scanSign (l : list ascii) : bool * list ascii :=
  match l with
  | c :: r => if Js.isChar 45 c then (true, r)
              else if Js.isChar 43 c then (false, r) else (false, l)
  | [] => (false, [])
  end.

(** [parseInt(s, 10)]: leading white space, an optional sign, then the longest
    run of digits; NaN when that run is empty. *)
Definition parseInt10 (s : string) : number :=
  let '(neg, l) := scanSign (Js.trimStartL (Js.chars s)) in
  match Js.takeWhile Js.isDigit l with
  | [] => NaN
  | ds => Int (if neg then - digitsVal ds else digitsVal ds)
  end.

(** An exponent part [e[+-]?\d+]; when it is malformed nothing is consumed. *)
Definition scanExp (l : list ascii) : Z * list ascii :=
  match l with
  | c :: r =>
      if Js.isChar 101 c || Js.isChar 69 c then
        let '(neg, r1) := scanSign r in
        match Js.takeWhile Js.isDigit r1 with
        | [] => (0, l)
        | ds => (if neg then - digitsVal ds else digitsVal ds,
                 Js.dropWhile Js.isDigit r1)
        end
      else (0, l)
  | [] => (0, [])
  end.

Definition startsWith (p l : list ascii) : bool :=
  bool_decide (firstn (List.length p) l = p).

(** The longest prefix that is a signed decimal literal ([StrDecimalLiteral]),
    with what follows it. *)
Definition scanDecimal (l : list ascii) : option (number * list ascii) :=
  let '(neg, l1) := scanSign l in
  if startsWith (Js.chars "Infinity") l1 then Some (Inf neg, skipn 8 l1) else
  let ip := Js.takeWhile Js.isDigit l1 in
  let r1 := Js.dropWhile Js.isDigit l1 in
  let '(fp, r2) :=
    match r1 with
    | c :: r => if Js.isChar 46 c
                then (Js.takeWhile Js.isDigit r, Js.dropWhile Js.isDigit r)
                else ([], r1)
    | [] => ([], [])
    end in
  match (ip ++ fp)%list with
  | [] => None
  | ds =>
      let '(e, r3) := scanExp r2 in
      let m := if neg then - digitsVal ds else digitsVal ds in
      let sh := e - Z.of_nat (List.length fp) in
      Some (if 0 <=? sh then Fin (m * 10 ^ sh) 0 else normal m (Z.to_nat (- sh)), r3)
  end.

(** [parseFloat(s)] *)
Definition parseFloat (s : string) : number :=
  match scanDecimal (Js.trimStartL (Js.chars s)) with
  | Some (x, _) => x
  | None => NaN
  end.

(** [Number(s)] for a string: white space is trimmed, the empty string is 0,
    a decimal literal must span the whole string.  Radix-prefixed literals
    ([0x..], [0o..], [0b..]) are not covered; every caller first deletes all
    characters other than digits, [.] and [-]. *)
Definition ofString (s : string) : number :=
  match Js.trimL (Js.chars s) with
  | [] => Int 0
  | l => match scanDecimal l with
         | Some (x, []) => x
         | _ => NaN
         end
  end.

Fixpoint zeros (n : nat) : string :=
  match n with O => "" | S k => "0" ++ zeros k end.

(** [String(x)] ([Number::toString] in radix 10) *)
Definition toString (x : number) : string :=
  match x with
  | NaN => "NaN"
  | Inf neg => if neg then "-Infinity" else "Infinity"
  | Fin m s =>
      if m =? 0 then "0" else
      let sign := if m <? 0 then "-" else "" in
      let ds0 := Js.chars (natText (Z.to_N (Z.abs m))) in
      let n := Z.of_nat (List.length ds0) - Z.of_nat s in
      let ds := rev (Js.dropWhile (Js.isChar 48) (rev ds0)) in
      let k := Z.of_nat (List.length ds) in
      sign ++
      (if (k <=? n) && (n <=? 21) then
         Js.text ds ++ zeros (Z.to_nat (n - k))
       else if (0 <? n) && (n <=? 21) then
         Js.text (firstn (Z.to_nat n) ds) ++ "." ++ Js.text (skipn (Z.to_nat n) ds)
       else if (-6 <? n) && (n <=? 0) then
         "0." ++ zeros (Z.to_nat (- n)) ++ Js.text ds
       else
         let e := n - 1 in
         let es := (if e <? 0 then "-" else "+") ++ natText (Z.to_N (Z.abs e)) in
         match ds with
         | [] => ""
         | [d] => Js.text [d] ++ "e" ++ es
         | d :: rest => Js.text [d] ++ "." ++ Js.text rest ++ "e" ++ es
         end)
  end.

End Num.
Export Num(number, NaN, Inf, Fin, Int).

(** ** Regular expressions

    The patterns of the source use only character classes, sequence,
    alternation and (bounded) repetition, and are anchored at both ends, so
    [pattern.test(s)] is membership of the whole of [s] in the language of
    the pattern.  Membership is decided with Brzozowski derivatives. *)

Module Re.

Inductive regex : Type :=
| Void                                  (* no string *)
| Eps                                   (* the empty string *)
| Class (p : ascii -> bool)             (* one character of a class *)
| Seq (r1 r2 : regex)
| Alt (r1 r2 : regex)
| Star (r : regex).

Fixpoint nullable (r : regex) : bool :=
  match r with
  | Void => false
  | Eps => true
  | Class _ => false
  | Seq a b => nullable a && nullable b
  | Alt a b => nullable a || nullable b
  | Star _ => true
  end.

Definition seq (a b : regex) : regex :=
  match a, b with
  | Void, _ | _, Void => Void
  | Eps, _ => b
  | _, Eps => a
  | _, _ => Seq a b
  end.

Definition alt (a b : regex) : regex :=
  match a, b with
  | Void, _ => b
  | _, Void => a
  | _, _ => Alt a b
  end.

Fixpoint deriv (c : ascii) (r : regex) : regex :=
  match r with
  | Void => Void
  | Eps => Void
  | Class p => if p c then Eps else Void
  | Seq a b =>
      alt (seq (deriv c a) b) (if nullable a then deriv c b else Void)
  | Alt a b => alt (deriv c a) (deriv c b)
  | Star a => seq (deriv c a) (Star a)
  end.

Definition matchesL (r : regex) (l : list ascii) : bool :=
  nullable (fold_left (fun r c => deriv c r) l r).

(** [/^r$/.test(s)] *)
Definition test (r : regex) (s : string) : bool := matchesL r (Js.chars s).

(** Pattern building blocks *)
Definition lit (c : string) : regex :=
  match c with
  | String a EmptyString => Class (Ascii.eqb a)
  | _ => Void
  end.
Definition d : regex := Class Js.isDigit.
Definition w : regex := Class Js.isWord.
Definition range (lo hi : string) : regex :=
  match lo, hi with
  | String a EmptyString, String b EmptyString =>
      Class (Js.inRange (Js.code a) (Js.code b))
  | _, _ => Void
  end.
Definition oneOf (cs : string) : regex :=
  Class (fun c => existsb (Ascii.eqb c) (Js.chars cs)).
Definition opt (r : regex) : regex := Alt Eps r.
Definition plus (r : regex) : regex := Seq r (Star r).
Fixpoint times (n : nat) (r : regex) : regex :=
  match n with O => Eps | S k => Seq r (times k r) end.
Fixpoint upto (n : nat) (r : regex) : regex :=
  match n with O => Eps | S k => opt (Seq r (upto k r)) end.
(** [r{lo,hi}] *)
Definition rep (lo hi : nat) (r : regex) : regex :=
  Seq (times lo r) (upto (hi - lo) r).
Fixpoint seqs (rs : list regex) : regex :=
  match rs with [] => Eps | r :: rest => Seq r (seqs rest) end.
Fixpoint alts (rs : list regex) : regex :=
  match rs with [] => Void | [r] => r | r :: rest => Alt r (alts rest) end.

(** The language of a pattern, to state what the strings it accepts look
    like. *)
Inductive star (P : list ascii -> Prop) : list ascii -> Prop :=
| star_nil : star P []
| star_app (l1 l2 : list ascii) : P l1 -> star P l2 -> star P (l1 ++ l2).

Fixpoint lang (r : regex) (l : list ascii) : Prop :=
  match r with
  | Void => False
  | Eps => l = []
  | Class p => exists c, l = [c] /\ p c = true
  | Seq a b => exists l1 l2, l = (l1 ++ l2)%list /\ lang a l1 /\ lang b l2
  | Alt a b => lang a l \/ lang b l
  | Star a => star (lang a) l
  end.

End Re.

(** ** Values of document fields *)

(** A scalar of an input row: JSON [null], a number or a string. *)
Inductive cell : Type :=
| CNull
| CNum (n : number)
| CStr (s : string).

(** A value held by a document: the above and [Date] objects (milliseconds
    since the epoch). *)
Inductive jsval : Type :=
| JNull
| JNum (n : number)
| JStr (s : string)
| JDate (ms : Z).

#[global] Instance cell_eq_dec : EqDecision cell.
Proof. solve_decision. Defined.

#[global] Instance jsval_eq_dec : EqDecision jsval.
Proof. solve_decision. Defined.

(** ** Tokenized payment methods ([models/Client.js]) *)

Module Payment.

(** The argument of [addPaymentMethod].  [cardNumber] and [cvv] are the two
    properties the method refuses; the objects built by the controllers do
    not have them. *)
Record PaymentMethodData : Type := {
  pm_id : string;
  pm_brand : string;
  pm_last4 : string;
  pm_expMonth : number;
  pm_expYear : number;
  pm_nameOnCard : option string;
  pm_billingZip : option string;
  pm_isDefault : bool;
  pm_cardNumber : option string;
  pm_cvv : option string
}.

(** One element of [paymentMethod.paymentMethods]. *)
Record Entry : Type := {
  id : string;
  brand : string;
  last4 : string;
  expMonth : number;
  expYear : number;
  nameOnCard : option string;
  billingZip : option string;
  isDefault : bool;
  createdAt : Z
}.

Record Block : Type := {
  stripeCustomerId : option string;
  paymentMethods : list Entry
}.

#[global] Instance Entry_eq_dec : EqDecision Entry.
Proof. solve_decision. Defined.

#[global] Instance Block_eq_dec : EqDecision Block.
Proof. solve_decision. Defined.

Definition setDefault (b : bool) (e : Entry) : Entry :=
  {| id := id e; brand := brand e; last4 := last4 e; expMonth := expMonth e;
     expYear := expYear e; nameOnCard := nameOnCard e;
     billingZip := billingZip e; isDefault := b; createdAt := createdAt e |}.

(** A property that is set and not the empty string. *)
Definition present (o : option string) : bool :=
  match o with Some s => Js.truthy s | None => false end.

(** [clientSchema.methods.addPaymentMethod], up to the call of [save]: the
    result is the block the document holds when [save] is called, or the
    message of the error thrown.  [block] is [this.paymentMethod]. *)
Definition addPaymentMethod (block : option Block) (data : PaymentMethodData)
    (now : Z) : string + Block :=
  if present (pm_cardNumber data) || present (pm_cvv data) then
    inl "Cannot store raw card data. Please use tokenized payment information."
  else
    let block :=
      match block with
      | Some b => b
      | None => {| stripeCustomerId := None; paymentMethods := [] |}
      end in
    let flip :=
      (Nat.eqb (List.length (paymentMethods block)) 0 || pm_isDefault data)%bool in
    let existing :=
      if flip then List.map (setDefault false) (paymentMethods block)
      else paymentMethods block in
    let dataIsDefault := if flip then true else pm_isDefault data in
    inr {| stripeCustomerId := stripeCustomerId block;
           paymentMethods :=
             (existing ++
              [ {| id := pm_id data; brand := pm_brand data;
                   last4 := pm_last4 data; expMonth := pm_expMonth data;
                   expYear := pm_expYear data;
                   nameOnCard := pm_nameOnCard data;
                   billingZip := pm_billingZip data;
                   isDefault := dataIsDefault || false;
                   createdAt := now |} ])%list |}.

(** [this.paymentMethod.paymentMethods] before the call, empty when the
    document has no [paymentMethod] yet *)
Definition methodsOf (block : option Block) : list Entry :=
  match block with Some b => paymentMethods b | None => [] end.

(** The number of entries flagged as default. *)
Definition defaults (l : list Entry) : nat :=
  List.length (List.filter isDefault l).

(** The list of methods is in order when it is empty or has exactly one
    default. *)
Definition oneDefault (l : list Entry) : Prop := l = [] \/ defaults l = 1%nat.

(** [paymentMethods.findIndex(pm => pm.id === paymentMethodId)] *)
Fixpoint indexOfId (paymentMethodId : string) (l : list Entry) : option nat :=
  match l with
  | [] => None
  | e :: rest =>
      if String.eqb (id e) paymentMethodId then Some 0%nat
      else option_map S (indexOfId paymentMethodId rest)
  end.

(** [paymentMethods.splice(index, 1)] *)
Definition splice1 (index : nat) (l : list Entry) : list Entry :=
  (firstn index l ++ skipn (S index) l)%list.

(** [paymentMethods[0].isDefault = true] *)
Definition promoteFirst (l : list Entry) : list Entry :=
  match l with
  | [] => []
  | first :: rest => setDefault true first :: rest
  end.

(** [clientSchema.methods.removePaymentMethod], up to the call of [save]:
    the value of [this.paymentMethod] when the method ends, or the message of
    the error thrown.  Without a [paymentMethod] the method returns at
    once. *)
Definition removePaymentMethod (block : option Block) (paymentMethodId : string)
    : string + option Block :=
  match block with
  | None => inr None
  | Some b =>
      match indexOfId paymentMethodId (paymentMethods b) with
      | None => inl "Payment method not found"
      | Some index =>
          let wasDefault :=
            match nth_error (paymentMethods b) index with
            | Some e => isDefault e
            | None => false
            end in
          let rest := splice1 index (paymentMethods b) in
          inr (Some {| stripeCustomerId := stripeCustomerId b;
                       paymentMethods :=
                         if wasDefault && negb (Nat.eqb (List.length rest) 0)
                         then promoteFirst rest else rest |})
      end
  end.

(** [forEach(pm => pm.isDefault = false)] followed by
    [paymentMethod.isDefault = true] on the entry found, which is the element
    at [index] of the same array *)
Fixpoint onlyDefault (index : nat) (l : list Entry) : list Entry :=
  match l, index with
  | [], _ => []
  | e :: rest, O => setDefault true e :: List.map (setDefault false) rest
  | e :: rest, S k => setDefault false e :: onlyDefault k rest
  end.

(** [clientSchema.methods.setDefaultPaymentMethod], up to the call of
    [save]. *)
Definition setDefaultPaymentMethod (block : option Block) (paymentMethodId : string)
    : string + Block :=
  match block with
  | None => inl "No payment methods available"
  | Some b =>
      match indexOfId paymentMethodId (paymentMethods b) with
      | None => inl "Payment method not found"
      | Some index =>
          inr {| stripeCustomerId := stripeCustomerId b;
                 paymentMethods := onlyDefault index (paymentMethods b) |}
      end
  end.

(** The virtual [hasPaymentMethod] *)
Definition hasPaymentMethod (block : option Block) : bool :=
  match block with
  | Some b => negb (Nat.eqb (List.length (paymentMethods b)) 0)
  | None => false
  end.

(** The virtual [computedDefaultPaymentMethod]; [None] stands for [null] and
    for [undefined]. *)
Definition computedDefaultPaymentMethod (block : option Block) : option Entry :=
  match block with
  | None => None
  | Some b =>
      match List.find isDefault (paymentMethods b) with
      | Some e => Some e
      | None => List.hd_error (paymentMethods b)
      end
  end.

End Payment.

(** ** Card tokenization ([clientController.js], [runOne] and [createClient]) *)

Module Tokenize.
Import Re.

(** The legacy card columns of one CSV row ([paymentRaw]). *)
Record PaymentRaw : Type := {
  ccNumber : string;
  ccExp : string;
  ccCvv : string;
  nameOnCard : string;
  billingZip : string
}.

Definition emptyRaw : PaymentRaw :=
  {| ccNumber := ""; ccExp := ""; ccCvv := ""; nameOnCard := ""; billingZip := "" |}.

(** [/^4\d{12,18}$/] *)
Definition visaRe : regex := seqs [lit "4"; rep 12 18 d].

(** [/^(5[1-5]\d{4}|2(2[2-9]\d{2}|[3-6]\d{3}|7[01]\d{2}|720\d))\d{10}$/] *)
Definition mastercardRe : regex :=
  seqs [ alts [ seqs [lit "5"; range "1" "5"; times 4 d];
                seqs [lit "2";
                      alts [ seqs [lit "2"; range "2" "9"; times 2 d];
                             seqs [range "3" "6"; times 3 d];
                             seqs [lit "7"; oneOf "01"; times 2 d];
                             seqs [lit "7"; lit "2"; lit "0"; d] ] ] ];
         times 10 d ].

(** [/^3[47]\d{13}$/] *)
Definition amexRe : regex := seqs [lit "3"; oneOf "47"; times 13 d].

(** [/^(6011\d{12}|65\d{14}|64[4-9]\d{13}|622(12[6-9]|1[3-9]\d|[2-8]\d{2}|9([01]\d|2[0-5]))\d{10})$/] *)
Definition discoverRe : regex :=
  alts [ seqs [lit "6"; lit "0"; lit "1"; lit "1"; times 12 d];
         seqs [lit "6"; lit "5"; times 14 d];
         seqs [lit "6"; lit "4"; range "4" "9"; times 13 d];
         seqs [ lit "6"; lit "2"; lit "2";
                alts [ seqs [lit "1"; lit "2"; range "6" "9"];
                       seqs [lit "1"; range "3" "9"; d];
                       seqs [range "2" "8"; times 2 d];
                       seqs [lit "9";
                             alts [ seqs [oneOf "01"; d];
                                    seqs [lit "2"; range "0" "5"] ] ] ];
                times 10 d ] ].

Definition detectBrand (pan : string) : string :=
  if test visaRe pan then "visa"
  else if test mastercardRe pan then "mastercard"
  else if test amexRe pan then "amex"
  else if test discoverRe pan then "discover"
  else "card".

(** [\D]: anything but a digit *)
Definition notDigit (c : ascii) : bool := negb (Js.isDigit c).

(** [[\/\-]] *)
Definition isSeparator (c : ascii) : bool := Js.isChar 47 c || Js.isChar 45 c.

(** [exp.match(/^(\d{1,2})[\/\-](\d{2,4})$/)]: the two groups.  A separator
    is not a digit, so the first group is the whole leading run of digits. *)
Definition matchExpiry (exp : string) : option (string * string) :=
  let l := Js.chars exp in
  let g1 := Js.takeWhile Js.isDigit l in
  match Js.dropWhile Js.isDigit l with
  | sep :: g2 =>
      if (1 <=? List.length g1)%nat && (List.length g1 <=? 2)%nat
         && isSeparator sep && forallb Js.isDigit g2
         && (2 <=? List.length g2)%nat && (List.length g2 <=? 4)%nat
      then Some (Js.text g1, Js.text g2)
      else None
  | [] => None
  end.

(** The same pattern as a regular expression, for [test]. *)
Definition expiryRe : regex := seqs [rep 1 2 d; oneOf "/-"; rep 2 4 d].

(** [/^(\d{2})\/(\d{2})$/] *)
Definition mmyyRe : regex := seqs [times 2 d; lit "/"; times 2 d].

(** [v || undefined] *)
Definition orUndefined (s : string) : option string :=
  if Js.truthy s then Some s else None.

(** [String(pr.ccNumber || '').replace(/\D+/g, '')] *)
Definition cardDigits (pr : PaymentRaw) : string := Js.removeAll notDigit (ccNumber pr).

(** What one iteration of [runOne] derives from the raw columns before it
    touches the store; [None] where the source executes [continue]. *)
Definition tokenize (pr : PaymentRaw) (now : Z) : option Payment.PaymentMethodData :=
  let digits := cardDigits pr in
  if negb (Js.truthy digits) || (String.length digits <? 13)%nat
     || (19 <? String.length digits)%nat then None
  else
    let last4 := Js.sliceLast 4 digits in
    let brand := detectBrand digits in
    let exp := Js.trim (ccExp pr) in
    match matchExpiry exp with
    | None => None
    | Some (g1, yy) =>
        let mm := Num.parseInt10 g1 in
        let yyyy := if (String.length yy =? 2)%nat
                    then Num.add (Int 2000) (Num.parseInt10 yy)
                    else Num.parseInt10 yy in
        let expMonth := Num.min (Int 12) (Num.max (Int 1) mm) in
        let expYear := yyyy in
        Some {| Payment.pm_id := "csv_" ++ brand ++ "_" ++ last4 ++ "_" ++ Num.intText now;
                Payment.pm_brand := brand;
                Payment.pm_last4 := last4;
                Payment.pm_expMonth := expMonth;
                Payment.pm_expYear := expYear;
                Payment.pm_nameOnCard := orUndefined (nameOnCard pr);
                Payment.pm_billingZip := orUndefined (billingZip pr);
                Payment.pm_isDefault := true;
                Payment.pm_cardNumber := None;
                Payment.pm_cvv := None |}
    end.

(** The year the worker stores for a year group [y] of digits: a group of
    two digits counts from 2000. *)
Definition yearOf (y : list ascii) : number :=
  if (List.length y =? 2)%nat then Int (2000 + Num.digitsVal y) else Int (Num.digitsVal y).

(** The expiry branch of [createClient]: month and year, or [None] where the
    handler answers 400.  [year] is [new Date().getFullYear()]. *)
Definition createClientExpiry (rawCcExp : string) (year : Z) : option (number * number) :=
  if Js.truthy rawCcExp && test mmyyRe rawCcExp then
    let m := Num.parseInt10 (Js.slice 0 2 rawCcExp) in
    let y := Num.parseInt10 (Js.slice 3 5 rawCcExp) in
    let currentCentury := (year / 100) * 100 in
    Some (Num.min (Int 12) (Num.max (Int 1) m), Num.add (Int currentCentury) y)
  else if Js.truthy rawCcExp then
    match matchExpiry rawCcExp with
    | Some (g1, yy) =>
        let mm := Num.parseInt10 g1 in
        let yyyy := if (String.length yy =? 2)%nat
                    then Num.add (Int 2000) (Num.parseInt10 yy)
                    else Num.parseInt10 yy in
        Some (Num.min (Int 12) (Num.max (Int 1) mm), yyyy)
    | None => None
    end
  else None.

End Tokenize.

(** ** The client collection

    What the pipeline uses of the store: point look-ups, [insertOne] and
    [updateOne] with [$set] / [$setOnInsert] and [upsert].  An operation
    takes effect as the controller issues it: casting and validation against
    the schema by the object-document mapper, and the timestamps the mapper
    adds on its own under the schema option [timestamps], are not
    modelled. *)

Module Store.

(** The identifier of a document: a string, or an ObjectId assigned by the
    store (numbered in order of creation). *)
Inductive docId : Type :=
| StrId (s : string)
| ObjId (n : nat).

#[global] Instance docId_eq_dec : EqDecision docId.
Proof. solve_decision. Defined.

Record ClientDoc : Type := {
  ident : docId;                        (* _id *)
  fields : gmap string jsval;           (* every other scalar property *)
  paymentMethod : option Payment.Block
}.

#[global] Instance ClientDoc_eq_dec : EqDecision ClientDoc.
Proof. solve_decision. Defined.

Record collection : Type := {
  docs : list ClientDoc;
  nextObjectId : nat
}.

Inductive filter : Type :=
| ById (id : string)                    (* { _id: id } *)
| ByEmail (email : string).             (* { email: email } *)

Definition matches (f : filter) (d : ClientDoc) : bool :=
  match f with
  | ById i => bool_decide (ident d = StrId i)
  | ByEmail e => bool_decide (fields d !! "email" = Some (JStr e))
  end.

(** The update document.  Both parts range over all properties, [_id]
    included; [setOnInsert = None] when the operator is absent. *)
Record update : Type := {
  set : gmap string jsval;
  setOnInsert : option (gmap string jsval)
}.

Inductive bulkOp : Type :=
| UpdateOne (f : filter) (u : update) (upsert : bool)
| InsertOne (document : gmap string jsval).

Inductive opResult : Type :=
| Upserted (id : docId)
| Matched (modified : bool)
| NotMatched
| Inserted (id : docId)
| WriteError (msg : string).

Definition findIndex (f : filter) (l : list ClientDoc) : option nat :=
  fst <$> list_find (fun d => matches f d = true) l.

Definition hasId (i : docId) (l : list ClientDoc) : bool :=
  existsb (fun d => bool_decide (ident d = i)) l.

(** The [_id] a map of properties asks for. *)
Definition requestedId (m : gmap string jsval) : option docId :=
  match m !! "_id" with
  | Some (JStr s) => Some (StrId s)
  | _ => None
  end.

Definition withoutId (m : gmap string jsval) : gmap string jsval := delete "_id" m.

Definition insertNew (c : collection) (m : gmap string jsval)
    (ok : docId -> opResult) : collection * opResult :=
  let '(i, next) :=
    match requestedId m with
    | Some i => (i, nextObjectId c)
    | None => (ObjId (nextObjectId c), S (nextObjectId c))
    end in
  if hasId i (docs c) then
    (c, WriteError "E11000 duplicate key error")
  else
    ({| docs := docs c ++ [ {| ident := i; fields := withoutId m;
                               paymentMethod := None |} ];
        nextObjectId := next |}, ok i).

Definition filterFields (f : filter) : gmap string jsval :=
  match f with
  | ById i => {[ "_id" := JStr i ]}
  | ByEmail e => {[ "email" := JStr e ]}
  end.

(** The properties of a matched document after [$set]. *)
Definition applySet (u : update) (d : ClientDoc) : gmap string jsval :=
  withoutId (set u) ∪ fields d.

(** The properties of the document an upsert inserts. *)
Definition upsertDocument (f : filter) (u : update) : gmap string jsval :=
  default ∅ (setOnInsert u) ∪ set u ∪ filterFields f.

Definition pathConflict (u : update) : bool :=
  match setOnInsert u with
  | Some soi => bool_decide (dom (set u) ∩ dom soi ≠ ∅)
  | None => false
  end.

(** One write operation. *)
Definition execOp (c : collection) (op : bulkOp) : collection * opResult :=
  match op with
  | InsertOne m => insertNew c m Inserted
  | UpdateOne f u upsert =>
      if pathConflict u then
        (c, WriteError "Updating the path would create a conflict")
      else
        match findIndex f (docs c) with
        | Some i =>
            match docs c !! i with
            | Some d =>
                match requestedId (set u) with
                | Some j =>
                    if bool_decide (j = ident d) then
                      let d' := {| ident := ident d; fields := applySet u d;
                                   paymentMethod := paymentMethod d |} in
                      ({| docs := <[ i := d' ]> (docs c);
                          nextObjectId := nextObjectId c |},
                       Matched (bool_decide (d' <> d)))
                    else (c, WriteError "the (immutable) field '_id' was found to have been altered")
                | None =>
                    let d' := {| ident := ident d; fields := applySet u d;
                                 paymentMethod := paymentMethod d |} in
                    ({| docs := <[ i := d' ]> (docs c);
                        nextObjectId := nextObjectId c |},
                     Matched (bool_decide (d' <> d)))
                end
            | None => (c, NotMatched)
            end
        | None =>
            if upsert then insertNew c (upsertDocument f u) Upserted
            else (c, NotMatched)
        end
  end.

(** [Client.findById(id)] *)
Definition findById (i : docId) (c : collection) : option ClientDoc :=
  snd <$> list_find (fun d => ident d = i) (docs c).

(** [doc.save()] after a change of [paymentMethod] *)
Definition savePayment (i : docId) (b : Payment.Block) (c : collection) : collection :=
  {| docs := List.map (fun d => if bool_decide (ident d = i)
                                then {| ident := ident d; fields := fields d;
                                        paymentMethod := Some b |}
                                else d) (docs c);
     nextObjectId := nextObjectId c |}.

(** A [BulkWriteResult]: the outcome of each operation, by index.  The
    counters are read off it. *)
Definition bulkResult : Type := list opResult.

Definition isInserted (r : opResult) : bool :=
  match r with Inserted _ => true | _ => false end.
Definition isUpserted (r : opResult) : bool :=
  match r with Upserted _ => true | _ => false end.
Definition isMatched (r : opResult) : bool :=
  match r with Matched _ => true | _ => false end.
Definition isModified (r : opResult) : bool :=
  match r with Matched true => true | _ => false end.
Definition isWriteError (r : opResult) : bool :=
  match r with WriteError _ => true | _ => false end.

Definition count (p : opResult -> bool) (rs : bulkResult) : nat :=
  List.length (List.filter p rs).

Definition insertedCount : bulkResult -> nat := count isInserted.
Definition upsertedCount : bulkResult -> nat := count isUpserted.
Definition matchedCount : bulkResult -> nat := count isMatched.
Definition modifiedCount : bulkResult -> nat := count isModified.
Definition hasWriteErrors (rs : bulkResult) : bool := existsb isWriteError rs.

(** An unordered bulk write runs every operation of the batch, whatever
    the outcome of the others; the batch is taken in the order given.  [exec]
    is the effect of one operation on a store of type [S]. *)
Fixpoint bulkWrite {S : Type} (exec : S -> bulkOp -> S * opResult)
    (st : S) (batch : list bulkOp) : S * bulkResult :=
  match batch with
  | [] => (st, [])
  | op :: rest =>
      let '(st1, r) := exec st op in
      let '(st2, rs) := bulkWrite exec st1 rest in
      (st2, r :: rs)
  end.

End Store.

(** ** JavaScript coercions of row scalars *)

Module Coerce.

(** [String(v)] *)
Definition toStr (v : cell) : string :=
  match v with
  | CNull => "null"
  | CNum n => Num.toString n
  | CStr s => s
  end.

(** [!!v] *)
Definition truthy (v : cell) : bool :=
  match v with
  | CNull => false
  | CNum NaN => false
  | CNum (Fin m _) => negb (m =? 0)
  | CNum (Inf _) => true
  | CStr s => Js.truthy s
  end.

(** [!!v] for a property that may be absent *)
Definition truthyO (v : option cell) : bool :=
  match v with Some c => truthy c | None => false end.

Definition toJs (v : cell) : jsval :=
  match v with
  | CNull => JNull
  | CNum n => JNum n
  | CStr s => JStr s
  end.

(** [/[^0-9.-]/]: the characters removed before a numeric parse *)
Definition notNumeric (c : ascii) : bool :=
  negb (Js.isDigit c || Js.isChar 46 c || Js.isChar 45 c).

(** [typeof v === 'string' ? Number(v.replace(/[^0-9.-]/g, '')) : Number(v)] *)
Definition toAmount (v : option cell) : number :=
  match v with
  | Some (CStr s) => Num.ofString (Js.removeAll notNumeric s)
  | Some (CNum n) => n
  | Some CNull => Int 0
  | None => NaN
  end.

End Coerce.

(** ** The JSON fast path ([importClientsBatch]) *)

Module Batch.
Import Store.

(** One element of [req.body.rows]: [Object.entries] of a flat object. *)
Definition row : Type := list (string * cell).

(** [/[\s_\-]/] *)
Definition isSeparatorChar (c : ascii) : bool :=
  Js.isSpace c || Js.isChar 95 c || Js.isChar 45 c.

(** [norm]: lower case, then white space, underscores and hyphens removed *)
Definition norm (k : string) : string :=
  Js.removeAll isSeparatorChar (Js.toLowerCase k).

(** [map]: the row keyed by normalized header; a later key wins. *)
Definition keyMap (r : row) : gmap string cell :=
  fold_left (fun m kv => <[ norm (fst kv) := snd kv ]> m) r ∅.

(** [getRaw(...names)] *)
Fixpoint getRaw (map : gmap string cell) (names : list string) : option cell :=
  match names with
  | [] => None
  | n :: rest =>
      match map !! norm n with
      | Some CNull | None => getRaw map rest
      | Some v =>
          if negb (String.eqb (Js.trim (Coerce.toStr v)) "") then Some v
          else getRaw map rest
      end
  end.

(** [s]: [v == null ? '' : String(v).trim()] *)
Definition s (v : option cell) : string :=
  match v with
  | None | Some CNull => ""
  | Some c => Js.trim (Coerce.toStr c)
  end.

(** [n]: the numeric reading of a value, [undefined] when it is NaN *)
Definition n (v : option cell) : option number :=
  let num := Coerce.toAmount v in
  if Num.isNaN num then None else Some num.

(** [/^\d{3}$/], [/^\d{4}$/] and [/^(\d{1,2})[\/-]?(\d{2})$/] *)
Definition threeDigits : Re.regex := Re.times 3 Re.d.
Definition fourDigits : Re.regex := Re.times 4 Re.d.

(** [raw.match(/^(\d{1,2})[\/-]?(\d{2})$/)].  The first group is greedy: with
    a separator it is the whole leading run of digits; without one the last
    two digits of the run form the second group. *)
Definition matchLooseExpiry (raw : string) : option (string * string) :=
  let l := Js.chars raw in
  let run := Js.takeWhile Js.isDigit l in
  match Js.dropWhile Js.isDigit l with
  | [] =>
      let k := List.length run in
      if (3 <=? k)%nat && (k <=? 4)%nat
      then Some (Js.text (firstn (k - 2) run), Js.text (skipn (k - 2) run))
      else None
  | sep :: g2 =>
      if (1 <=? List.length run)%nat && (List.length run <=? 2)%nat
         && Tokenize.isSeparator sep && forallb Js.isDigit g2
         && (List.length g2 =? 2)%nat
      then Some (Js.text run, Js.text g2)
      else None
  end.

(** [normalizeExpiry] *)
Definition normalizeExpiry (val : option cell) : string :=
  let raw := s val in
  if negb (Js.truthy raw) then "" else
  let digits := Js.removeAll Tokenize.notDigit raw in
  if Re.test threeDigits digits then
    let m := Js.slice 0 1 digits in
    let yy := Js.sliceFrom 1 digits in
    Js.padStart2 m ++ "/" ++ yy
  else if Re.test fourDigits digits then
    let mm := Js.slice 0 2 digits in
    let yy := Js.sliceFrom 2 digits in
    mm ++ "/" ++ yy
  else
    match matchLooseExpiry raw with
    | Some (g1, g2) => Js.padStart2 g1 ++ "/" ++ g2
    | None => raw
    end.

(** The sanitized document: its properties by name. *)
Abbreviation doc := (gmap string jsval) (only parsing).

(** [out.key] for a property holding a string *)
Definition prop (o : doc) (key : string) : string :=
  match o !! key with
  | Some (JStr v) => v
  | _ => ""
  end.

(** [n(...) ?? 0] *)
Definition orZero (x : option number) : number :=
  match x with Some v => v | None => Int 0 end.

(** The object literal of [sanitizeRow]. *)
Definition literal (r : row) : list (string * jsval) :=
  let g := getRaw (keyMap r) in
  [ ("_id", JStr (s (g ["_id"; "id"; "client_id"; "clientid"])));
    ("externalId", JStr (s (g ["externalId"; "external_id"; "external-id"])));
    ("name", JStr (s (g ["name"; "clientname"; "customername"])));
    ("description", JStr (s (g ["description"; "desc"])));
    ("owner", JStr (s (g ["owner"])));
    ("ownedBy", JStr (s (g ["ownedBy"; "owned_by"])));
    ("contactStatus", JStr (s (g ["contactStatus"; "contact_status"; "status"])));
    ("contactType", JStr (s (g ["contactType"; "contact_type"; "type"])));
    ("companyType", JStr (s (g ["companyType"; "company_type"])));
    ("phone", JStr (s (g ["phone"; "telephone"; "mobile"; "phoneNumber"; "phone_number"])));
    ("email", JStr (Js.toLowerCase (s (g ["email"; "e-mail"]))));
    ("address", JStr (s (g ["address"; "street"; "address1"])));
    ("city", JStr (s (g ["city"; "town"])));
    ("state", JStr (s (g ["state"; "province"; "region"])));
    ("postalCode", JStr (s (g ["postalCode"; "postal_code"; "zip"; "zipcode"; "zip_code"])));
    ("website", JStr (s (g ["website"; "url"])));
    ("facebookPage", JStr (s (g ["facebookPage"; "facebook"; "fb"])));
    ("industry", JStr (s (g ["industry"])));
    ("forecastedAmount",
       JNum (orZero (n (g ["forecastedAmount"; "forecasted_amount"; "forecast"; "amount"]))));
    ("interactionCount", JNum (orZero (n (g ["interactionCount"; "interaction_count"]))));
    ("createdAtText", JStr (s (g ["createdAtText"; "createdAt"; "created_at"])));
    ("profileImage", JStr (s (g ["profileImage"; "avatar"; "image"])));
    ("lastNote", JStr (s (g ["lastNote"; "note"; "notes"])));
    ("fullName", JStr (s (g ["fullName"; "full_name"; "fullname"])));
    ("firstName", JStr (s (g ["firstName"; "first_name"; "firstname"; "givenname"])));
    ("lastName", JStr (s (g ["lastName"; "last_name"; "lastname"; "surname"; "familyname"])));
    ("company",
       JStr (s (g ["company"; "companyName"; "company_name"; "business";
                   "organization"; "org"; "companyname"])));
    ("folderLink", JStr (s (g ["folderLink"; "folder"; "drive"; "gdrive"])));
    ("defaultShippingTerms", JStr (s (g ["defaultShippingTerms"])));
    ("defaultPaymentMethod", JStr (s (g ["defaultPaymentMethod"])));
    ("nameCC", JStr (s (g ["nameCC"; "name_on_card"])));
    ("ccNumberText", JStr (s (g ["ccNumberText"; "cardNumber"; "ccNumber"])));
    ("expirationDateText",
       JStr (normalizeExpiry
               (g ["expirationDateText"; "expirationDate"; "expiration_date";
                   "expDate"; "exp_date"; "ccExp"; "expiry"; "expiration";
                   "mm/yy"; "mm_yy"])));
    ("securityCodeText", JStr (s (g ["securityCodeText"; "ccCvv"; "cvv"; "cvc"])));
    ("zipCodeText", JStr (s (g ["zipCodeText"; "billingZip"; "billing_zip"]))) ].

(** [[out.firstName, out.lastName].filter(Boolean).join(' ').trim()] *)
Definition firstLast (o : doc) : string :=
  Js.trim (Js.join " " (List.filter Js.truthy [prop o "firstName"; prop o "lastName"])).

(** The name derived when [out.name] is empty. *)
Definition derivedName (o : doc) : string :=
  Js.orElse (prop o "fullName")
    (Js.orElse (prop o "company")
       (Js.orElse (firstLast o)
          (Js.orElse (prop o "email")
             (Js.orElse (prop o "phone") "")))).

(** The names of the properties of the literal, in order. *)
Definition literalKeys : list string :=
  [ "_id"; "externalId"; "name"; "description"; "owner"; "ownedBy";
    "contactStatus"; "contactType"; "companyType"; "phone"; "email"; "address";
    "city"; "state"; "postalCode"; "website"; "facebookPage"; "industry";
    "forecastedAmount"; "interactionCount"; "createdAtText"; "profileImage";
    "lastNote"; "fullName"; "firstName"; "lastName"; "company"; "folderLink";
    "defaultShippingTerms"; "defaultPaymentMethod"; "nameCC"; "ccNumberText";
    "expirationDateText"; "securityCodeText"; "zipCodeText" ].

(** The text a row gives for one of the header spellings [names]. *)
Definition column (r : row) (names : list string) : string :=
  s (getRaw (keyMap r) names).

(** [out] as the object literal leaves it, before the name is derived. *)
Definition sanitized (r : row) : doc := list_to_map (literal r).

(** [sanitizeRow]; [userId] is [req.userId]. *)
Definition sanitizeRow (userId : string) (r : row) : doc :=
  let out : doc := sanitized r in
  let out := if negb (Js.truthy (prop out "name"))
             then <[ "name" := JStr (derivedName out) ]> out else out in
  let out := if negb (Js.truthy (prop out "name"))
             then <[ "name" := JStr "Unnamed Client" ]> out else out in
  if negb (Js.truthy (prop out "ownedBy")) && negb (Js.truthy (prop out "owner"))
  then <[ "ownedBy" := JStr userId ]> out else out.

(** The outcome of the loop body for one row: skipped, or one operation.
    [gen] is the string of the ObjectId created when the row has neither an
    id nor an email. *)
Definition rowOp (userId : string) (skipValidation : bool) (gen : string)
    (r : row) : option bulkOp :=
  let doc := sanitizeRow userId r in
  if negb (Js.truthy (prop doc "name")) && skipValidation then None
  else
    if Js.truthy (prop doc "_id") then
      Some (UpdateOne (ById (prop doc "_id"))
              {| set := doc; setOnInsert := None |} true)
    else if Js.truthy (prop doc "email") then
      Some (UpdateOne (ByEmail (prop doc "email"))
              {| set := doc; setOnInsert := None |} true)
    else
      let doc := <[ "_id" := JStr gen ]> doc in
      Some (UpdateOne (ById gen)
              {| set := doc; setOnInsert := Some {[ "_id" := JStr gen ]} |} true).

(** The state of the loop over the rows. *)
Record built : Type := {
  ops : list bulkOp;
  rowsProcessed : nat;
  skipped : nat
}.

(** [gen i] is the identifier generated while row [i] (from 0) is handled. *)
Fixpoint buildFrom (userId : string) (skipValidation : bool) (gen : nat -> string)
    (i : nat) (rows : list row) (b : built) : built :=
  match rows with
  | [] => b
  | r :: rest =>
      buildFrom userId skipValidation gen (S i) rest
        match rowOp userId skipValidation (gen i) r with
        | Some op => {| ops := ops b ++ [op]; rowsProcessed := S (rowsProcessed b);
                        skipped := skipped b |}
        | None => {| ops := ops b; rowsProcessed := rowsProcessed b;
                     skipped := S (skipped b) |}
        end
  end.

Definition build (userId : string) (skipValidation : bool) (gen : nat -> string)
    (rows : list row) : built :=
  buildFrom userId skipValidation gen 0 rows
    {| ops := []; rowsProcessed := 0; skipped := 0 |}.

(** [req.body.batchSize || '2000'], then [parseInt(_, 10) || 2000], clamped *)
Definition chunkSize (batchSize : option cell) : number :=
  let v := if Coerce.truthyO batchSize
           then Coerce.toStr (default CNull batchSize) else "2000" in
  let parsed := Num.parseInt10 v in
  let parsed := if Coerce.truthy (CNum parsed) then parsed else Int 2000 in
  Num.max (Int 500) (Num.min parsed (Int 5000)).

(** The chunk size as a count of operations. *)
Definition chunkLength (batchSize : option cell) : nat :=
  match chunkSize batchSize with
  | Fin m O => Z.to_nat m
  | _ => 0
  end.

End Batch.

(** ** Chunked execution and the response of [importClientsBatch] *)

Module BatchRun.
Import Store Batch.

Record summary : Type := {
  totalProcessed : nat;
  successful : nat;
  created : nat;
  updated : nat;
  failed : nat;
  skippedRows : nat
}.

Inductive response : Type :=
| BadRequest                            (* 400: no rows *)
| Completed (sm : summary)              (* 200 *)
| ServerError.                          (* 500: a bulk write threw *)

Section WithStore.

Context {S : Type} (exec : S -> bulkOp -> S * opResult).

(** The running totals [modifiedCount] and [upsertedCount]. *)
Record totals : Type := {
  modifiedTotal : nat;
  upsertedTotal : nat
}.

Definition addCounts (t : totals) (result : bulkResult) : totals :=
  {| modifiedTotal := modifiedTotal t + modifiedCount result;
     upsertedTotal := upsertedTotal t + upsertedCount result |}.

(** The same operations submitted as one batch: the reference against which
    the chunked loop is compared. *)
Definition oneBatch (st : S) (t : totals) (ops : list bulkOp) : S * option totals :=
  let '(st1, result) := bulkWrite exec st ops in
  (st1, if hasWriteErrors result then None else Some (addCounts t result)).

(** [execChunk]: [None] when [Client.bulkWrite] throws, which it does, after
    running the whole chunk, if some operation failed. *)
Definition execChunk (st : S) (t : totals) (chunk : list bulkOp)
    : S * option totals :=
  match chunk with
  | [] => (st, Some t)
  | _ =>
      let '(st1, result) := bulkWrite exec st chunk in
      if hasWriteErrors result then (st1, None)
      else (st1, Some (addCounts t result))
  end.

(** [for (let i = 0; i < ops.length; i += chunkSize)].  The outer [option] is
    [None] only when [fuel] iterations did not reach the end of [ops]. *)
Fixpoint chunkLoop (fuel : nat) (size : nat) (ops : list bulkOp) (i : nat)
    (st : S) (t : totals) : option (S * option totals) :=
  if (i <? List.length ops)%nat then
    match fuel with
    | O => None
    | Datatypes.S fuel' =>
        let chunk := firstn size (skipn i ops) in      (* ops.slice(i, i + size) *)
        match execChunk st t chunk with
        | (st1, Some t1) => chunkLoop fuel' size ops (i + size) st1 t1
        | (st1, None) => Some (st1, None)
        end
    end
  else Some (st, Some t).

(** The handler, from the parsed body to the response and the store it
    leaves.  [rows = None] stands for a body without a [rows] array. *)
Definition importClientsBatch (userId : string) (gen : nat -> string)
    (rows : option (list row)) (skipValidation : bool)
    (batchSize : option cell) (st : S) : option (S * response) :=
  match rows with
  | None | Some [] => Some (st, BadRequest)
  | Some rows =>
      let size := chunkLength batchSize in
      let b := build userId skipValidation gen rows in
      match chunkLoop (List.length (ops b)) size (ops b) 0 st
              {| modifiedTotal := 0; upsertedTotal := 0 |} with
      | None => None
      | Some (st1, None) => Some (st1, ServerError)
      | Some (st1, Some t) =>
          Some (st1, Completed
                  {| totalProcessed := rowsProcessed b;
                     successful := upsertedTotal t + modifiedTotal t;
                     created := upsertedTotal t;
                     updated := modifiedTotal t;
                     failed := 0;
                     skippedRows := skipped b |})
      end
  end.

End WithStore.

End BatchRun.

(** ** Row validation ([utils/csvValidator.js]) *)

Module Validator.
Import Re.

(** What the validator asks of its surroundings. *)
Record Env : Type := {
  (** [new URL(s)] does not throw *)
  urlParses : string -> bool;
  (** [new Date(s).getTime()], [None] for an invalid date *)
  dateParse : string -> option Z;
  (** [new Date(year, monthIndex, day).getTime()] *)
  dateLocal : Z -> Z -> Z -> Z;
  (** [User.findById(email)] found a user; [None] when the look-up throws *)
  findUser : string -> option bool;
  (** [Client.findOne({ name, email })] found a client; [None] when it throws *)
  findClient : string -> string -> option bool
}.

(** [/^\w+([.-]?\w+)*@\w+([.-]?\w+)*(\.\w{2,3})+$/] *)
Definition emailRe : regex :=
  seqs [ plus w; Star (Seq (opt (oneOf ".-")) (plus w)); lit "@";
         plus w; Star (Seq (opt (oneOf ".-")) (plus w));
         plus (Seq (lit ".") (rep 2 3 w)) ].

Definition isValidEmail (email : string) : bool := test emailRe email.

(** [[-\s\.]] *)
Definition phoneSeparator (c : ascii) : bool :=
  Js.isChar 45 c || Js.isSpace c || Js.isChar 46 c.

(** [/^[\+]?[(]?[0-9]{3}[)]?[-\s\.]?[0-9]{3}[-\s\.]?[0-9]{4,6}$/] *)
Definition phoneRe : regex :=
  seqs [ opt (lit "+"); opt (lit "("); times 3 d; opt (lit ")");
         opt (Class phoneSeparator); times 3 d; opt (Class phoneSeparator);
         rep 4 6 d ].

Definition isValidPhone (phone : string) : bool :=
  if negb (Js.truthy phone) then true else test phoneRe phone.

(** The characters an accepted e-mail address has beside the at sign:
    [\w], the dot and the hyphen. *)
Definition addressChar (c : ascii) : bool :=
  Js.isWord c || Js.isChar 46 c || Js.isChar 45 c.

(** The characters of an accepted phone number: digits, the plus sign, the
    parentheses and the separators. *)
Definition phoneChar (c : ascii) : bool :=
  Js.isDigit c || Js.isChar 43 c || Js.isChar 40 c || Js.isChar 41 c
  || phoneSeparator c.

(** What a part of a phone number adds to it: characters of a phone number,
    so many digits among so many characters. *)
Definition phonePart (l : list ascii) (digits chars : nat) : Prop :=
  forallb phoneChar l = true
  /\ List.length (List.filter Js.isDigit l) = digits
  /\ List.length l = chars.

Definition isValidURL (env : Env) (url : string) : bool :=
  if negb (Js.truthy url) then true else urlParses env url.

(** [/^(0[1-9]|1[0-2])\/(0[1-9]|[12][0-9]|3[01])\/\d{4}$/] *)
Definition monthRe : regex :=
  alts [seqs [lit "0"; range "1" "9"]; seqs [lit "1"; range "0" "2"]].
Definition dayRe : regex :=
  alts [ seqs [lit "0"; range "1" "9"]; seqs [oneOf "12"; range "0" "9"];
         seqs [lit "3"; oneOf "01"] ].
Definition usFormat : regex := seqs [monthRe; lit "/"; dayRe; lit "/"; times 4 d].
(** [/^(0[1-9]|[12][0-9]|3[01])\/(0[1-9]|1[0-2])\/\d{4}$/] *)
Definition euFormat : regex := seqs [dayRe; lit "/"; monthRe; lit "/"; times 4 d].

(** The three numbers of [dateStr.split('/').map(Number)] for a string of
    one of the two formats above. *)
Definition part (i j : nat) (dateStr : string) : Z :=
  Num.digitsVal (Js.chars (Js.slice i j dateStr)).

(** [new Date(v).getTime()] for a row scalar; [None] for an invalid date. *)
Definition dateOf (env : Env) (v : cell) : option Z :=
  match v with
  | CStr str => dateParse env str
  | CNull => Some 0
  | CNum (Fin m sc) =>
      let t := Z.quot m (10 ^ Z.of_nat sc) in
      if Z.abs t <=? 8640000000000000 then Some t else None
  | CNum _ => None
  end.

(** [parseDate].  Only a string can have one of the two slash formats. *)
Definition parseDate (env : Env) (v : option cell) : option Z :=
  match v with
  | None => None
  | Some c =>
      if negb (Coerce.truthy c) then None else
      match dateOf env c with
      | Some t => Some t
      | None =>
          let str := Coerce.toStr c in
          if test usFormat str then
            Some (dateLocal env (part 6 10 str) (part 0 2 str - 1) (part 3 5 str))
          else if test euFormat str then
            Some (dateLocal env (part 6 10 str) (part 3 5 str - 1) (part 0 2 str))
          else None
      end
  end.

(** [isValidDate] *)
Definition isValidDate (env : Env) (v : option cell) : bool :=
  match v with
  | None => true
  | Some c =>
      if negb (Coerce.truthy c) then true else
      match dateOf env c with
      | Some _ => true
      | None =>
          let str := Coerce.toStr c in
          if test usFormat str then true
          else if test euFormat str then true
          else false
      end
  end.

(** The three accumulators of [validateClientData]. *)
Record state : Type := {
  data : gmap string jsval;
  errors : list string;
  warnings : list string
}.

Definition warn (w : string) (st : state) : state :=
  {| data := data st; errors := errors st; warnings := warnings st ++ [w] |}.

Definition put (k : string) (v : jsval) (st : state) : state :=
  {| data := <[ k := v ]> (data st); errors := errors st; warnings := warnings st |}.

(** A step either throws ([inl], the message) or continues. *)
Definition step : Type := state -> string + state.

Definition andThen (f g : step) : step :=
  fun st => match f st with inl e => inl e | inr st1 => g st1 end.

Definition pure (f : state -> state) : step := fun st => inr (f st).

(** A method of [String.prototype] called on a row scalar: a [TypeError]
    unless the scalar is a string. *)
Definition onString (v : cell) (k : string -> step) : step :=
  match v with
  | CStr str => k str
  | _ => fun _ => inl "TypeError: not a function"
  end.

(** [x && String(x).trim()] as the operand of [||]: the trimmed text when
    [x] is truthy and that text is not empty *)
Definition trimmedIfAny (v : option cell) : string :=
  match v with
  | Some c => if Coerce.truthy c then Js.trim (Coerce.toStr c) else ""
  | None => ""
  end.

Definition clientData : Type := gmap string cell.

Definition validStatuses : list string :=
  [ "Sampling"; "New Prospect"; "Uncategorized"; "Closed lost";
    "Initial Contact"; "Closed won"; "Committed"; "Consideration" ].

(** The double quote character *)
Definition quote : string := String (ascii_of_N 34) EmptyString.

Definition statusWarning (original : string) : string :=
  "Unknown contact status " ++ quote ++ original ++ quote
    ++ ". Defaulted to 'Uncategorized'.".

(** The name synthesized for a row without a usable name: the full name,
    else the e-mail address, else the external identifier, else a placeholder
    that carries the row number. *)
Definition fallbackName (cd : clientData) (rowNumber : Z) : string :=
  Js.orElse (trimmedIfAny (cd !! "fullName"))
    (Js.orElse (trimmedIfAny (cd !! "email"))
       (Js.orElse (trimmedIfAny (cd !! "externalId"))
          ("Unnamed Client " ++ Num.intText rowNumber))).

(** [!clientData.name || String(clientData.name).trim().length < 2] *)
Definition nameMissing (cd : clientData) : bool :=
  negb (Coerce.truthyO (cd !! "name"))
  || (String.length (Js.trim (Coerce.toStr (default CNull (cd !! "name")))) <? 2)%nat.

(** Name: permissive, a fall-back is synthesized. *)
Definition checkName (cd : clientData) (rowNumber : Z) : step :=
  let name := cd !! "name" in
  if nameMissing cd
  then
    let fallback := fallbackName cd rowNumber in
    pure (fun st =>
      warn "Name was missing or too short; a fallback name was assigned"
        (put "name" (JStr (Js.sliceTo 200 fallback)) st))
  else
    match default CNull name with
    | CStr str =>
        if (200 <? String.length str)%nat then
          pure (fun st =>
            warn "Name exceeded 200 characters and was truncated"
              (put "name" (JStr (Js.sliceTo 200 (Js.trim str))) st))
        else pure (put "name" (JStr (Js.trim str)))
    | _ => fun _ => inl "TypeError: not a function"
    end.

Definition checkEmail (cd : clientData) : step :=
  match cd !! "email" with
  | Some email =>
      if Coerce.truthy email then
        if negb (isValidEmail (Coerce.toStr email)) then
          pure (warn "Invalid email format")
        else onString email (fun str => pure (put "email" (JStr (Js.toLowerCase str))))
      else pure id
  | None => pure id
  end.

Definition findStatus (original : string) : option string :=
  List.find (fun st => String.eqb (Js.toLowerCase st) (Js.toLowerCase original))
    validStatuses.

Definition checkStatus (cd : clientData) : step :=
  if Coerce.truthyO (cd !! "contactStatus") then
    let original := Coerce.toStr (default CNull (cd !! "contactStatus")) in
    match findStatus original with
    | None =>
        pure (fun st => put "contactStatus" (JStr "Uncategorized")
                          (warn (statusWarning original) st))
    | Some status => pure (put "contactStatus" (JStr status))
    end
  else pure (put "contactStatus" (JStr "Uncategorized")).

(** The pattern shared by phone, website and Facebook page. *)
Definition checkText (cd : clientData) (key : string) (valid : string -> bool)
    (message : string) : step :=
  match cd !! key with
  | Some v =>
      if Coerce.truthy v then
        if negb (valid (Coerce.toStr v)) then pure (warn message)
        else onString v (fun str => pure (put key (JStr (Js.trim str))))
      else pure id
  | None => pure id
  end.

(** [v !== undefined && v !== ''] *)
Definition provided (v : option cell) : bool :=
  match v with
  | None => false
  | Some (CStr str) => Js.truthy str
  | Some _ => true
  end.

Definition checkForecast (cd : clientData) : step :=
  if provided (cd !! "forecastedAmount") then
    let amount := Num.parseFloat (Coerce.toStr (default CNull (cd !! "forecastedAmount"))) in
    if Num.isNaN amount then
      pure (warn "Forecasted amount could not be parsed as a number")
    else if Num.ltZero amount then
      pure (fun st => put "forecastedAmount" (JNum amount)
                        (warn "Forecasted amount is negative; keeping as-is" st))
    else pure (put "forecastedAmount" (JNum amount))
  else pure id.

(** A [Date] or [null] as a stored value *)
Definition dateValue (t : option Z) : jsval :=
  match t with Some ms => JDate ms | None => JNull end.

Definition checkDate (env : Env) (cd : clientData) (key message : string) : step :=
  if Coerce.truthyO (cd !! key) then
    if negb (isValidDate env (cd !! key)) then pure (warn message)
    else pure (put key (dateValue (parseDate env (cd !! key))))
  else pure id.

Definition checkInteraction (cd : clientData) : step :=
  if provided (cd !! "interactionCount") then
    let count := Num.parseInt10 (Coerce.toStr (default CNull (cd !! "interactionCount"))) in
    if Num.isNaN count || Num.ltZero count then
      pure (warn "Interaction count is not a non-negative integer; value ignored")
    else pure (put "interactionCount" (JNum count))
  else pure id.

Definition checkId (cd : clientData) : step :=
  match cd !! "_id" with
  | None | Some CNull => pure id
  | Some v =>
      let idVal := Js.trim (Coerce.toStr v) in
      if (String.length idVal =? 0)%nat then
        pure (warn "Provided Client_id was empty after trimming; will let Mongo assign if missing")
      else pure (put "_id" (JStr idVal))
  end.

Definition checkOwner (env : Env) (cd : clientData) : step :=
  let chosen := if Coerce.truthyO (cd !! "owner") then cd !! "owner" else cd !! "ownedBy" in
  if Coerce.truthyO chosen then
    let ownerEmail := Js.trim (Coerce.toStr (default CNull chosen)) in
    if negb (isValidEmail ownerEmail) then
      pure (fun st => put "ownedBy" (JStr (Js.toLowerCase ownerEmail))
                        (warn "Invalid owner email format; assigning value as provided" st))
    else
      pure (fun st =>
        put "ownedBy" (JStr (Js.toLowerCase ownerEmail))
          match findUser env (Js.toLowerCase ownerEmail) with
          | Some true => st
          | Some false =>
              warn ("Owner with email " ++ ownerEmail ++ " not found; assigning anyway") st
          | None => warn "Could not verify owner existence" st
          end)
  else pure id.

Definition optionalFields : list string :=
  [ "description"; "contactType"; "companyType"; "address";
    "city"; "state"; "postalCode"; "industry"; "fullName";
    "lastNote"; "defaultShippingTerms"; "defaultPaymentMethod";
    "externalId";
    "owner"; "folderLink"; "profileImage"; "createdAtText";
    "nameCC"; "ccNumberText"; "expirationDateText"; "securityCodeText"; "zipCodeText" ].

Definition copyField (cd : clientData) (field : string) : step :=
  match cd !! field with
  | Some v =>
      if Coerce.truthy v
      then onString v (fun str => pure (put field (JStr (Js.trim str))))
      else pure id
  | None => pure id
  end.

Fixpoint copyFields (cd : clientData) (fs : list string) : step :=
  match fs with
  | [] => pure id
  | f :: rest => andThen (copyField cd f) (copyFields cd rest)
  end.

(** [!!validatedData.key] *)
Definition truthyJ (v : option jsval) : bool :=
  match v with
  | Some (JStr str) => Js.truthy str
  | Some (JNum x) => Coerce.truthy (CNum x)
  | Some (JDate _) => true
  | Some JNull | None => false
  end.

Definition textOf (v : option jsval) : string :=
  match v with Some (JStr str) => str | _ => "" end.

Definition checkDuplicate (env : Env) : step :=
  pure (fun st =>
    if truthyJ (data st !! "name") && truthyJ (data st !! "email") then
      let name := textOf (data st !! "name") in
      let email := textOf (data st !! "email") in
      match findClient env name email with
      | Some true =>
          warn ("Client with name " ++ quote ++ name ++ quote ++ " and email "
                  ++ quote ++ email ++ quote ++ " may already exist") st
      | _ => st
      end
    else st).

Record result : Type := {
  rowNumber : Z;
  isValid : bool;
  validated : gmap string jsval;        (* data *)
  resultErrors : list string;
  resultWarnings : list string
}.

Definition steps (env : Env) (cd : clientData) (rowNumber : Z) : list step :=
  [ checkName cd rowNumber;
    checkEmail cd;
    checkStatus cd;
    checkText cd "phone" isValidPhone "Invalid phone number format";
    checkText cd "website" (isValidURL env) "Invalid website URL format";
    checkText cd "facebookPage" (isValidURL env) "Invalid Facebook page URL format";
    checkForecast cd;
    checkDate env cd "projectedCloseDate" "Invalid projected close date format; value ignored";
    checkDate env cd "createdAt" "Invalid createdAt date format; value ignored";
    checkInteraction cd;
    checkId cd;
    checkOwner env cd;
    copyFields cd optionalFields;
    checkDuplicate env ].

Definition run (ss : list step) : step :=
  fold_right andThen (pure id) ss.

(** [validateClientData(clientData, rowNumber)]: the result, or the message
    of the exception that rejects the promise. *)
Definition validateClientData (env : Env) (cd : clientData) (rowNumber : Z)
    : string + result :=
  match run (steps env cd rowNumber) {| data := ∅; errors := []; warnings := [] |} with
  | inl e => inl e
  | inr st =>
      inr {| rowNumber := rowNumber;
             isValid := (List.length (errors st) =? 0)%nat;
             validated := data st;
             resultErrors := errors st;
             resultWarnings := warnings st |}
  end.

(** The warnings about an unknown contact status, recognised by the words
    every such warning starts with. *)
Definition isStatusWarning (w : string) : bool :=
  String.prefix "Unknown contact status" w.

Definition statusWarnings (ws : list string) : list string :=
  List.filter isStatusWarning ws.

(** A step that, when it completes, leaves [errors] alone, adds no warning
    about the contact status, and writes no validated property outside
    [keys]. *)
Definition quiet (keys : list string) (s : step) : Prop :=
  forall st st', s st = inr st' ->
    errors st' = errors st
    /\ statusWarnings (warnings st') = statusWarnings (warnings st)
    /\ (forall k, ~ In k keys -> data st' !! k = data st !! k).

(** The name the validator assigns when it completes. *)
Definition validatedName (cd : clientData) (rowNumber : Z) : string :=
  if nameMissing cd then Js.sliceTo 200 (fallbackName cd rowNumber)
  else
    match cd !! "name" with
    | Some (CStr str) =>
        if (200 <? String.length str)%nat then Js.sliceTo 200 (Js.trim str)
        else Js.trim str
    | _ => ""
    end.

(** The weaker property: [errors] is left alone and no validated property
    outside [keys] is written. *)
Definition frames (keys : list string) (s : step) : Prop :=
  forall st st', s st = inr st' ->
    errors st' = errors st
    /\ (forall k, ~ In k keys -> data st' !! k = data st !! k).

(** The properties written by the steps that follow the contact status. *)
Definition laterKeys : list string :=
  [ "phone"; "website"; "facebookPage"; "forecastedAmount"; "projectedCloseDate";
    "createdAt"; "interactionCount"; "_id"; "ownedBy" ] ++ optionalFields.

(** A step that never throws. *)
Definition total (s : step) : Prop := forall st, exists st', s st = inr st'.

(** Drafts whose properties are strings, but for the two numeric ones: what
    the CSV mapping produces. *)
Definition textual (cd : clientData) : Prop :=
  map_Forall (fun k c => k = "forecastedAmount" \/ k = "interactionCount"
                         \/ exists str, c = CStr str) cd.

End Validator.

(** ** The CSV path ([importClients]) *)

Module Csv.
Import Store.

(** One parsed line: [Object.entries(data)], header and trimmed cell. *)
Definition csvRow : Type := list (string * string).

Record parsedRow : Type := {
  rowNumber : Z;
  cells : csvRow
}.

Definition columnMap : list (string * string) :=
  [ ("Client_id", "_id"); ("ClientId", "_id"); ("Name", "name");
    ("Description", "description"); ("Owned By", "ownedBy");
    ("Owner", "owner"); ("OwnedBy", "ownedBy");
    ("Contact Status", "contactStatus"); ("ContactStatus", "contactStatus");
    ("Contact Type", "contactType"); ("ContactType", "contactType");
    ("Company Type", "companyType"); ("CompanyType", "companyType");
    ("Phone", "phone"); ("Email", "email"); ("Address", "address");
    ("City", "city"); ("State", "state");
    ("Postal Code", "postalCode"); ("PostalCode", "postalCode");
    ("Website", "website");
    ("Facebook Page", "facebookPage"); ("FacebookPage", "facebookPage");
    ("Industry", "industry");
    ("Forecasted Amount", "forecastedAmount");
    ("Forecasted Amount ", "forecastedAmount");
    ("ForecastedAmount", "forecastedAmount");
    ("Interaction Count", "interactionCount");
    ("InteractionCount", "interactionCount");
    ("Created At", "createdAt"); ("CreatedAt", "createdAt");
    ("Profile Image", "profileImage"); ("ProfileImage", "profileImage");
    ("Last Note", "lastNote"); ("LastNote", "lastNote");
    ("Projected Close Date", "projectedCloseDate");
    ("Full Name", "fullName"); ("FullName", "fullName");
    ("FolderLink", "folderLink");
    ("Default Shipping Terms", "defaultShippingTerms");
    ("DefaultShippingTerms", "defaultShippingTerms");
    ("Default Payment Method", "defaultPaymentMethod");
    ("DefaultPaymentMethod", "defaultPaymentMethod");
    ("NameCC", "nameCC"); ("CCNumber", "ccNumberText");
    ("ExpirationDate", "expirationDateText");
    ("SecurityCode", "securityCodeText"); ("ZipCode", "zipCodeText") ].

Definition space : ascii := ascii_of_N 32.

(** [.replace(/\s+/g, ' ')]: every run of white space becomes one space. *)
Fixpoint collapse (inRun : bool) (l : list ascii) : list ascii :=
  match l with
  | [] => []
  | c :: r =>
      if Js.isSpace c
      then if inRun then collapse true r else space :: collapse true r
      else c :: collapse false r
  end.

(** [normalizeHeader] *)
Definition normalizeHeader (h : string) : string :=
  let l := List.map (fun c => if Js.isChar 160 c then space else c) (Js.chars h) in
  let l := List.map (fun c => if Js.isChar 95 c then space else c) l in
  Js.text (collapse false (Js.chars (Js.toLowerCase (Js.text (Js.trimL l))))).

Definition normalizedMap : gmap string string :=
  fold_left (fun m kv => <[ normalizeHeader (fst kv) := snd kv ]> m) columnMap ∅.

Definition sensitiveFields : list string :=
  [ "Name on Card"; "CC Number"; "Expiration Date"; "Security Code"; "Zip Code" ].

Definition sensitiveNormalized : list string :=
  [ "name on card"; "cc number"; "expiration date"; "security code"; "zip code" ].

Definition inList (x : string) (l : list string) : bool := existsb (String.eqb x) l.

(** [/[^a-zA-Z]/] *)
Definition notLetter (c : ascii) : bool := negb (Js.isUpper c || Js.isLower c).

Definition initialMapped : gmap string cell :=
  list_to_map
    [ ("_id", CStr ""); ("externalId", CStr ""); ("name", CStr "");
      ("description", CStr ""); ("owner", CStr ""); ("ownedBy", CStr "");
      ("contactStatus", CStr ""); ("contactType", CStr "");
      ("companyType", CStr ""); ("phone", CStr ""); ("email", CStr "");
      ("address", CStr ""); ("city", CStr ""); ("state", CStr "");
      ("postalCode", CStr ""); ("website", CStr ""); ("facebookPage", CStr "");
      ("industry", CStr ""); ("forecastedAmount", CNum (Int 0));
      ("interactionCount", CNum (Int 0)); ("createdAtText", CStr "");
      ("profileImage", CStr ""); ("lastNote", CStr ""); ("fullName", CStr "");
      ("folderLink", CStr ""); ("defaultShippingTerms", CStr "");
      ("defaultPaymentMethod", CStr ""); ("nameCC", CStr "");
      ("ccNumberText", CStr ""); ("expirationDateText", CStr "");
      ("securityCodeText", CStr ""); ("zipCodeText", CStr "") ].

(** The two objects filled while the columns of a row are visited.  The
    source later stores [paymentRaw] in [mapped.__paymentRaw]; the validator
    does not read that property, so the two are kept apart here. *)
Record mapping : Type := {
  mapped : gmap string cell;
  paymentRaw : Tokenize.PaymentRaw
}.

Definition setMapped (k : string) (v : cell) (m : mapping) : mapping :=
  {| mapped := <[ k := v ]> (mapped m); paymentRaw := paymentRaw m |}.

Definition routeSensitive (nHeader headerKey valueStr : string)
    (pr : Tokenize.PaymentRaw) : Tokenize.PaymentRaw :=
  let eq := String.eqb in
  if eq nHeader "name on card" || eq headerKey "namecc" then
    {| Tokenize.ccNumber := Tokenize.ccNumber pr; Tokenize.ccExp := Tokenize.ccExp pr;
       Tokenize.ccCvv := Tokenize.ccCvv pr; Tokenize.nameOnCard := valueStr;
       Tokenize.billingZip := Tokenize.billingZip pr |}
  else if eq nHeader "cc number" || eq headerKey "ccnumber" then
    {| Tokenize.ccNumber := valueStr; Tokenize.ccExp := Tokenize.ccExp pr;
       Tokenize.ccCvv := Tokenize.ccCvv pr; Tokenize.nameOnCard := Tokenize.nameOnCard pr;
       Tokenize.billingZip := Tokenize.billingZip pr |}
  else if eq nHeader "expiration date" || eq headerKey "expirationdate" then
    {| Tokenize.ccNumber := Tokenize.ccNumber pr; Tokenize.ccExp := valueStr;
       Tokenize.ccCvv := Tokenize.ccCvv pr; Tokenize.nameOnCard := Tokenize.nameOnCard pr;
       Tokenize.billingZip := Tokenize.billingZip pr |}
  else if eq nHeader "security code" || eq headerKey "securitycode" then
    {| Tokenize.ccNumber := Tokenize.ccNumber pr; Tokenize.ccExp := Tokenize.ccExp pr;
       Tokenize.ccCvv := valueStr; Tokenize.nameOnCard := Tokenize.nameOnCard pr;
       Tokenize.billingZip := Tokenize.billingZip pr |}
  else if eq nHeader "zip code" || eq headerKey "zipcode" then
    {| Tokenize.ccNumber := Tokenize.ccNumber pr; Tokenize.ccExp := Tokenize.ccExp pr;
       Tokenize.ccCvv := Tokenize.ccCvv pr; Tokenize.nameOnCard := Tokenize.nameOnCard pr;
       Tokenize.billingZip := valueStr |}
  else pr.

Definition isSensitive (header : string) : bool :=
  inList header sensitiveFields
  || inList (normalizeHeader header) sensitiveNormalized
  || inList (Js.toLowerCase (Js.removeAll notLetter header)) [].

Definition plainTextTargets : list string :=
  [ "nameCC"; "ccNumberText"; "expirationDateText"; "securityCodeText"; "zipCodeText" ].

(** The body of the loop over the columns of one row. *)
Definition mapColumn (m : mapping) (kv : string * string) : mapping :=
  let '(key, rawVal) := kv in
  let header := Js.trim key in
  let nHeader := normalizeHeader header in
  let valueStr := Js.trim rawVal in
  let headerKey := Js.toLowerCase (Js.removeAll notLetter header) in
  if isSensitive header then
    {| mapped := mapped m;
       paymentRaw := routeSensitive nHeader headerKey valueStr (paymentRaw m) |}
  else
    let target :=
      match normalizedMap !! nHeader with
      | Some t => Js.orElse t header
      | None => header
      end in
    let value := if inList target plainTextTargets then valueStr else rawVal in
    let m := if String.eqb target "createdAt"
             then setMapped "createdAtText" (CStr valueStr) m else m in
    if String.eqb nHeader (normalizeHeader "Client_id") then
      if negb (String.eqb (Js.trim value) "") then
        setMapped "externalId" (CStr (Js.trim value))
          (setMapped "_id" (CStr (Js.trim value)) m)
      else m
    else if bool_decide (normalizedMap !! nHeader = Some "forecastedAmount") then
      let num := Num.ofString (Js.removeAll Coerce.notNumeric value) in
      setMapped "forecastedAmount" (CNum (if Num.isNaN num then Int 0 else num)) m
    else setMapped target (CStr value) m.

(** [Object.values(paymentRaw).some(v => (v || '').toString().trim() !== '')] *)
Definition anyPayment (pr : Tokenize.PaymentRaw) : bool :=
  existsb (fun v => negb (String.eqb (Js.trim v) ""))
    [ Tokenize.ccNumber pr; Tokenize.ccExp pr; Tokenize.ccCvv pr;
      Tokenize.nameOnCard pr; Tokenize.billingZip pr ].

Record mappedRow : Type := {
  mrNumber : Z;
  mrData : gmap string cell;
  mrPayment : option Tokenize.PaymentRaw   (* __paymentRaw *)
}.

(** The row after the mapping and the default owner. *)
Definition mapRow (userId : string) (r : parsedRow) : mappedRow :=
  let m := fold_left mapColumn (cells r)
             {| mapped := initialMapped; paymentRaw := Tokenize.emptyRaw |} in
  let d := mapped m in
  let d := if negb (Coerce.truthyO (d !! "ownedBy")) && negb (Coerce.truthyO (d !! "owner"))
           then <[ "ownedBy" := CStr userId ]> d else d in
  {| mrNumber := rowNumber r;
     mrData := d;
     mrPayment := if anyPayment (paymentRaw m) then Some (paymentRaw m) else None |}.

(** The cell of a line under a header, empty when the line has no such
    column. *)
Definition cellOf (r : parsedRow) (header : string) : string :=
  match List.find (fun kv => String.eqb (fst kv) header) (cells r) with
  | Some kv => snd kv
  | None => ""
  end.

(** [batchValidateClients]: every result, or the first exception. *)
Fixpoint validateAll (env : Validator.Env) (index : nat) (rows : list mappedRow)
    : string + list Validator.result :=
  match rows with
  | [] => inr []
  | r :: rest =>
      let number := if mrNumber r =? 0 then Z.of_nat index + 1 else mrNumber r in
      match Validator.validateClientData env (mrData r) number with
      | inl e => inl e
      | inr res =>
          match validateAll env (S index) rest with
          | inl e => inl e
          | inr ress => inr (res :: ress)
          end
      end
  end.

Definition EXCLUDE_KEYS : list string :=
  [ "_id"; "paymentMethod"; "statusHistory"; "createdAt"; "updatedAt"; "__v"; "__paymentRaw" ].

(** What is remembered of each operation ([opMeta]). *)
Record meta : Type := {
  isUpdate : bool;                      (* type: 'update' or 'insert' *)
  metaFilter : option filter;
  metaRow : Z;
  metaEmail : string;
  metaPayment : option Tokenize.PaymentRaw
}.

(** The date of the insert-only clause: [new Date(data.createdAt)] when that
    property is truthy and the date is valid, else the current time. *)
Definition createdOnInsert (env : Validator.Env) (data : gmap string jsval)
    (now : Z) : Z :=
  match data !! "createdAt" with
  | Some (JDate t) => t
  | Some (JStr str) =>
      if Js.truthy str then default now (Validator.dateOf env (CStr str)) else now
  | Some (JNum x) =>
      if Coerce.truthy (CNum x) then default now (Validator.dateOf env (CNum x)) else now
  | Some JNull | None => now
  end.

(** [data]: the validated properties with [updatedAt] set to the clock. *)
Definition stamped (valid : Validator.result) (now : Z) : gmap string jsval :=
  <[ "updatedAt" := JDate now ]> (delete "__paymentRaw" (Validator.validated valid)).

(** [setPayload]: the properties of [data] outside [EXCLUDE_KEYS]. *)
Definition setPayload (data : gmap string jsval) : gmap string jsval :=
  base.filter (fun kv : string * jsval => negb (inList (fst kv) EXCLUDE_KEYS) = true) data.

(** The operation built for one valid row.  [now] is the clock, read once
    for the whole request. *)
Definition rowOp (env : Validator.Env) (mappedRows : list mappedRow) (now : Z)
    (valid : Validator.result) : bulkOp * meta :=
  let src := List.find (fun r => mrNumber r =? Validator.rowNumber valid) mappedRows in
  let paymentRaw := match src with Some r => mrPayment r | None => None end in
  let data := stamped valid now in
  let setPayload := setPayload data in
  let hasId := Validator.truthyJ (data !! "_id") in
  let hasEmail := Validator.truthyJ (data !! "email") in
  if hasId || hasEmail then
    let f := if hasId then ById (Validator.textOf (data !! "_id"))
             else ByEmail (Validator.textOf (data !! "email")) in
    (UpdateOne f
       {| set := setPayload;
          setOnInsert := Some {[ "createdAt" := JDate (createdOnInsert env data now) ]} |}
       true,
     {| isUpdate := true; metaFilter := Some f; metaRow := Validator.rowNumber valid;
        metaEmail := Validator.textOf (data !! "email"); metaPayment := paymentRaw |})
  else
    (InsertOne (<[ "updatedAt" := JDate now ]>
                  (<[ "createdAt" := JDate (createdOnInsert env data now) ]> setPayload)),
     {| isUpdate := false; metaFilter := None; metaRow := Validator.rowNumber valid;
        metaEmail := Validator.textOf (setPayload !! "email"); metaPayment := paymentRaw |}).

(** The tasks of the payment stage. *)
Record task : Type := {
  taskPayment : Tokenize.PaymentRaw;
  taskClient : option docId;
  taskEmail : string
}.

Definition anySet (pr : Tokenize.PaymentRaw) : bool :=
  Js.truthy (Tokenize.ccNumber pr) || Js.truthy (Tokenize.ccExp pr)
  || Js.truthy (Tokenize.ccCvv pr) || Js.truthy (Tokenize.nameOnCard pr)
  || Js.truthy (Tokenize.billingZip pr).

(** [!!id] *)
Definition idSet (i : docId) : bool :=
  match i with StrId str => Js.truthy str | ObjId _ => true end.

Definition filterId (f : option filter) : option docId :=
  match f with Some (ById i) => Some (StrId i) | _ => None end.

Definition filterEmail (f : option filter) : string :=
  match f with Some (ByEmail e) => e | _ => "" end.

(** The body of the [forEach] over [opMeta] that collects the tasks;
    [result] is the outcome of the operation of the same index. *)
Definition taskFor (m : meta) (result : option opResult) : option task :=
  match metaPayment m with
  | None => None
  | Some pr =>
      if negb (anySet pr) then None else
      let clientId :=
        match isUpdate m, result with
        | false, Some (Inserted i) => if idSet i then Some i else None
        | _, _ => None
        end in
      let clientId :=
        match isUpdate m, filterId (metaFilter m) with
        | true, Some i => if idSet i then Some i else clientId
        | _, _ => clientId
        end in
      Some {| taskPayment := pr; taskClient := clientId;
              taskEmail := Js.orElse (filterEmail (metaFilter m)) (metaEmail m) |}
  end.

Fixpoint tasksFrom (idx : nat) (metas : list meta) (results : bulkResult) : list task :=
  match metas with
  | [] => []
  | m :: rest =>
      match taskFor m (results !! idx) with
      | Some t => t :: tasksFrom (S idx) rest results
      | None => tasksFrom (S idx) rest results
      end
  end.

(** The e-mail addresses to resolve: update rows keyed by e-mail. *)
Definition emailsToResolve (metas : list meta) : list string :=
  omap (fun m => match metaPayment m with
                 | Some pr =>
                     if anySet pr && isUpdate m
                        && negb (bool_decide (is_Some (filterId (metaFilter m))))
                        && Js.truthy (filterEmail (metaFilter m))
                     then Some (filterEmail (metaFilter m)) else None
                 | None => None
                 end) metas.

(** [docs.reduce((acc, d) => { acc[d.email] = d._id; return acc; }, {})] over
    the documents whose e-mail is one of [emails] *)
Definition resolveEmails (emails : list string) (c : collection) : gmap string docId :=
  fold_left
    (fun acc d =>
       match fields d !! "email" with
       | Some (JStr e) => if inList e emails then <[ e := ident d ]> acc else acc
       | _ => acc
       end)
    (docs c) ∅.

(** One turn of the loop of [runOne]: the store afterwards, and whether
    [paymentAddedCount] was incremented.  The sixteen workers take their
    tasks off one queue; here the tasks are taken in queue order, one after
    the other. *)
Definition runTask (now : Z) (emailMap : gmap string docId) (c : collection)
    (t : task) : collection * bool :=
  match Tokenize.tokenize (taskPayment t) now with
  | None => (c, false)
  | Some tokenized =>
      let cid :=
        match taskClient t with
        | Some i => Some i
        | None => if Js.truthy (taskEmail t) then emailMap !! taskEmail t else None
        end in
      match cid with
      | None => (c, false)
      | Some i =>
          if negb (idSet i) then (c, false) else
          match findById i c with
          | None => (c, false)
          | Some clientDoc =>
              match Payment.addPaymentMethod (paymentMethod clientDoc) tokenized now with
              | inl _ => (c, false)
              | inr block => (savePayment i block c, true)
              end
          end
      end
  end.

Definition runTasks (now : Z) (emailMap : gmap string docId) (c : collection)
    (queue : list task) : collection * nat :=
  fold_left (fun acc t =>
               let '(c1, added) := runTask now emailMap (fst acc) t in
               (c1, if added then S (snd acc) else snd acc))
    queue (c, 0%nat).

Record summary : Type := {
  totalProcessed : nat;
  successful : nat;
  failed : nat;
  skipped : nat;
  created : nat;
  updated : nat;
  paymentAttempted : nat;
  paymentAdded : nat
}.

Inductive response : Type :=
| InvalidData (invalidRows : list Validator.result)      (* 400 *)
| Completed (sm : summary) (skippedRows rowsWithWarnings : list Validator.result)
| ServerError.                                           (* 500 *)

(** The validator sees the client collection as it is before the writes. *)
Definition withClients (env : Validator.Env) (c : collection) : Validator.Env :=
  {| Validator.urlParses := Validator.urlParses env;
     Validator.dateParse := Validator.dateParse env;
     Validator.dateLocal := Validator.dateLocal env;
     Validator.findUser := Validator.findUser env;
     Validator.findClient := fun name email =>
       Some (existsb (fun d => bool_decide (fields d !! "name" = Some (JStr name))
                               && bool_decide (fields d !! "email" = Some (JStr email)))
               (docs c)) |}.

(** The handler from the parsed file on.  The activity log is left out. *)
Definition importClients (env : Validator.Env) (userId : string) (now : Z)
    (skipInvalid : bool) (parsedData : list parsedRow) (c : collection)
    : collection * response :=
  let mappedRows := List.map (mapRow userId) parsedData in
  match validateAll (withClients env c) 0 mappedRows with
  | inl _ => (c, ServerError)
  | inr results =>
      let validRows := List.filter Validator.isValid results in
      let invalidRows := List.filter (fun r => negb (Validator.isValid r)) results in
      let rowsWithWarnings :=
        List.filter (fun r => (0 <? List.length (Validator.resultWarnings r))%nat) results in
      if negb skipInvalid && (0 <? List.length invalidRows)%nat then
        (c, InvalidData invalidRows)
      else
        let built := List.map (rowOp env mappedRows now) validRows in
        let '(c1, bulkRes) := bulkWrite execOp c (List.map fst built) in
        if hasWriteErrors bulkRes then (c1, ServerError) else
        let metas := List.map snd built in
        let queue := tasksFrom 0 metas bulkRes in
        let emailMap := resolveEmails (emailsToResolve metas) c1 in
        let '(c2, added) := runTasks now emailMap c1 queue in
        (c2, Completed
               {| totalProcessed := List.length results;
                  successful := insertedCount bulkRes + upsertedCount bulkRes
                                + matchedCount bulkRes;
                  failed := 0;
                  skipped := if skipInvalid then List.length invalidRows else 0;
                  created := upsertedCount bulkRes + insertedCount bulkRes;
                  updated := matchedCount bulkRes;
                  paymentAttempted := List.length queue;
                  paymentAdded := added |}
               (if skipInvalid then invalidRows else [])
               rowsWithWarnings)
  end.

End Csv.

(** ** Suggested column mappings ([detectColumnMappings],
    [getAvailableClientFields]) *)

Module Suggest.

Definition commonMappings : list (string * list string) :=
  [ ("name", ["name"; "company"; "company name"; "client name"; "business name"]);
    ("email", ["email"; "email address"; "e-mail"; "contact email"]);
    ("phone", ["phone"; "phone number"; "telephone"; "tel"; "mobile"]);
    ("contactStatus", ["status"; "contact status"; "lead status"; "stage"]);
    ("industry", ["industry"; "sector"; "business type"]);
    ("city", ["city"; "location"; "town"]);
    ("state", ["state"; "province"; "region"]);
    ("website", ["website"; "url"; "web"; "site"]);
    ("ownedBy", ["owner"; "owned by"; "assigned to"; "sales rep"]);
    ("forecastedAmount", ["amount"; "value"; "forecast"; "revenue"; "deal size"]) ].

Fixpoint startsWith (sub l : list ascii) : bool :=
  match sub, l with
  | [], _ => true
  | _ :: _, [] => false
  | a :: sub', b :: l' => Ascii.eqb a b && startsWith sub' l'
  end.

Fixpoint includesL (sub l : list ascii) : bool :=
  startsWith sub l
  || match l with
     | [] => false
     | _ :: rest => includesL sub rest
     end.

(** [s.includes(sub)] *)
Definition includes (s sub : string) : bool := includesL (Js.chars sub) (Js.chars s).

(** The field suggested for one header: the first field of the table one of
    whose variations occurs in the header, lower-cased and trimmed. *)
Definition suggest (header : string) : option string :=
  let lowerHeader := Js.trim (Js.toLowerCase header) in
  fst <$> List.find (fun entry => existsb (includes lowerHeader) (snd entry))
            commonMappings.

(** [detectColumnMappings]: the object [mappings], keyed by header. *)
Definition detectColumnMappings (headers : list string) : gmap string string :=
  fold_left (fun mappings header =>
               match suggest header with
               | Some field => <[ header := field ]> mappings
               | None => mappings
               end) headers ∅.

Record clientField : Type := {
  field : string;
  label : string;
  required : bool
}.

Definition getAvailableClientFields : list clientField :=
  [ {| field := "name"; label := "Name"; required := true |};
    {| field := "email"; label := "Email"; required := false |};
    {| field := "phone"; label := "Phone"; required := false |};
    {| field := "contactStatus"; label := "Contact Status"; required := false |};
    {| field := "contactType"; label := "Contact Type"; required := false |};
    {| field := "companyType"; label := "Company Type"; required := false |};
    {| field := "industry"; label := "Industry"; required := false |};
    {| field := "address"; label := "Address"; required := false |};
    {| field := "city"; label := "City"; required := false |};
    {| field := "state"; label := "State"; required := false |};
    {| field := "postalCode"; label := "Postal Code"; required := false |};
    {| field := "website"; label := "Website"; required := false |};
    {| field := "facebookPage"; label := "Facebook Page"; required := false |};
    {| field := "ownedBy"; label := "Owner Email"; required := false |};
    {| field := "forecastedAmount"; label := "Forecasted Amount"; required := false |};
    {| field := "projectedCloseDate"; label := "Projected Close Date"; required := false |};
    {| field := "fullName"; label := "Full Name"; required := false |};
    {| field := "description"; label := "Description"; required := false |};
    {| field := "lastNote"; label := "Last Note"; required := false |} ].

End Suggest.

(** ** The utilities of the CSV parser ([utils/csvParser.js])

    The byte order mark that [detectDelimiter] and [extractHeaders] strip
    from the start of the text is a character above U+00FF, outside the
    strings modelled here. *)

Module Parser.

Definition LF : ascii := ascii_of_N 10.
Definition CR : ascii := ascii_of_N 13.
Definition TAB : ascii := ascii_of_N 9.
Definition QUOTE : ascii := ascii_of_N 34.

(** [text.split(/\r?\n/)]: a carriage return directly before a line feed is
    part of the separator.  [current] holds the line being read, last
    character first. *)
Fixpoint splitLines (current : list ascii) (l : list ascii) : list (list ascii) :=
  match l with
  | [] => [rev current]
  | c :: rest =>
      if Ascii.eqb c LF then
        rev match current with
            | x :: before => if Ascii.eqb x CR then before else current
            | [] => []
            end
        :: splitLines [] rest
      else splitLines (c :: current) rest
  end.

Definition delimiters : list ascii := [ ","%char; ";"%char; TAB; "|"%char ].

(** [line.match(new RegExp('\\' + d, 'g'))]: the occurrences of [d] *)
Definition countIn (d : ascii) (line : list ascii) : nat :=
  List.length (List.filter (Ascii.eqb d) line).

(** [counts] after the loop over the lines *)
Definition counts (lines : list (list ascii)) : list (ascii * nat) :=
  List.map (fun d => (d, list_sum (List.map (countIn d) lines))) delimiters.

(** [counts.sort((a, b) => b.c - a.c)]: a stable sort by decreasing count,
    here by insertion. *)
Fixpoint insertByCount (x : ascii * nat) (l : list (ascii * nat)) : list (ascii * nat) :=
  match l with
  | [] => [x]
  | y :: rest => if (snd y <=? snd x)%nat then x :: l else y :: insertByCount x rest
  end.

Definition sortByCount (l : list (ascii * nat)) : list (ascii * nat) :=
  fold_right insertByCount [] l.

(** [detectDelimiter]; the result is a string of one character. *)
Definition detectDelimiter (csvString : string) : ascii :=
  let lines := firstn 5 (splitLines [] (Js.chars csvString)) in
  match sortByCount (counts lines) with
  | best :: _ => if (0 <? snd best)%nat then fst best else ","%char
  | [] => ","%char
  end.

(** [.replace(/^"|"$/g, '')] *)
Definition stripQuotes (l : list ascii) : list ascii :=
  let l := match l with
           | c :: rest => if Ascii.eqb c QUOTE then rest else l
           | [] => []
           end in
  match rev l with
  | c :: before => if Ascii.eqb c QUOTE then rev before else l
  | [] => []
  end.

(** [.replace(/\r$/, '')] *)
Definition dropCR (l : list ascii) : list ascii :=
  match rev l with
  | c :: before => if Ascii.eqb c CR then rev before else l
  | [] => []
  end.

(** The state of the loop over the first line. *)
Record scan : Type := {
  headers : list string;
  current : list ascii;
  inQuotes : bool
}.

Definition scanChar (delimiter : ascii) (st : scan) (char : ascii) : scan :=
  if Ascii.eqb char QUOTE then
    {| headers := headers st; current := current st; inQuotes := negb (inQuotes st) |}
  else if Ascii.eqb char delimiter && negb (inQuotes st) then
    {| headers := headers st ++ [Js.text (stripQuotes (Js.trimL (current st)))];
       current := []; inQuotes := inQuotes st |}
  else
    {| headers := headers st; current := current st ++ [char];
       inQuotes := inQuotes st |}.

(** [extractHeaders] *)
Definition extractHeaders (data : string) : list string :=
  let delimiter := detectDelimiter data in
  let firstLine := List.hd [] (splitLines [] (Js.chars data)) in
  let st := fold_left (scanChar delimiter) firstLine
              {| headers := []; current := []; inQuotes := false |} in
  if (0 <? List.length (current st))%nat
  then headers st ++ [Js.text (stripQuotes (Js.trimL (dropCR (current st))))]
  else headers st.

(** The characters of headers joined by commas. *)
Fixpoint joined (hs : list string) : list ascii :=
  match hs with
  | [] => []
  | [h] => Js.chars h
  | h :: rest => (Js.chars h ++ ","%char :: joined rest)%list
  end.

(** The characters a header must not have to be read back from a line of
    headers: the candidate delimiters, the double quote and the line ends. *)
Definition special (c : ascii) : bool :=
  existsb (Ascii.eqb c) delimiters || Ascii.eqb c QUOTE || Ascii.eqb c CR
  || Ascii.eqb c LF.

End Parser.

(** ** The words of the specification *)

Module Spec.

(** The first of the candidates that is not empty. *)
Fixpoint firstNonEmpty (candidates : list string) (otherwise : string) : string :=
  match candidates with
  | [] => otherwise
  | c :: rest => if Js.truthy c then c else firstNonEmpty rest otherwise
  end.

(** Section 4.1: when the name column is blank the name is, in this order,
    fullName, the company or organization alias, firstName + " " + lastName
    trimmed, email, phone, and last the literal placeholder. *)
Definition nameBySpec (fullName company firstName lastName email phone : string)
    : string :=
  firstNonEmpty
    [ fullName; company; Js.trim (firstName ++ " " ++ lastName); email; phone ]
    "Unnamed Client".

End Spec.

(** ** Sample data for the worked cases *)

Module Sample.

Definition visa4242 : Payment.Entry :=
  {| Payment.id := "pm_1"; Payment.brand := "visa"; Payment.last4 := "4242";
     Payment.expMonth := Int 9; Payment.expYear := Int 2026;
     Payment.nameOnCard := None; Payment.billingZip := None;
     Payment.isDefault := true; Payment.createdAt := 0 |}.

Definition oneCard : option Payment.Block :=
  Some {| Payment.stripeCustomerId := None; Payment.paymentMethods := [visa4242] |}.

(** A second card, with or without the request to make it the default. *)
Definition amex0005 (asDefault : bool) : Payment.PaymentMethodData :=
  {| Payment.pm_id := "pm_2"; Payment.pm_brand := "amex";
     Payment.pm_last4 := "0005"; Payment.pm_expMonth := Int 1;
     Payment.pm_expYear := Int 2030; Payment.pm_nameOnCard := None;
     Payment.pm_billingZip := None; Payment.pm_isDefault := asDefault;
     Payment.pm_cardNumber := None; Payment.pm_cvv := None |}.

(** Surroundings in which every URL parses, one text is a date, every owner
    exists and no client is a duplicate. *)
Definition env : Validator.Env :=
  {| Validator.urlParses := fun _ => true;
     Validator.dateParse :=
       fun str => if String.eqb str "2020-01-01" then Some 1577836800000 else None;
     Validator.dateLocal := fun _ _ _ => 0;
     Validator.findUser := fun _ => Some true;
     Validator.findClient := fun _ _ => Some false |}.

(** A CSV line with a name and an unknown contact status. *)
Definition interested : Csv.parsedRow :=
  {| Csv.rowNumber := 1;
     Csv.cells := [ ("Name", "Acme LLC"); ("Contact Status", "Interested") ] |}.

(** A CSV line whose contact status cell is blank. *)
Definition blankStatus : Csv.parsedRow :=
  {| Csv.rowNumber := 2;
     Csv.cells := [ ("Name", "Acme LLC"); ("Contact Status", "") ] |}.

(** The importing user. *)
Definition user : string := "owner@example.com".

(** What the validator returns for a mapped line; the empty result stands
    for an exception. *)
Definition validation (row : Csv.parsedRow) : Validator.result :=
  match Validator.validateClientData env (Csv.mrData (Csv.mapRow user row))
          (Csv.rowNumber row) with
  | inr r => r
  | inl _ => {| Validator.rowNumber := 0; Validator.isValid := false;
                Validator.validated := ∅; Validator.resultErrors := [];
                Validator.resultWarnings := [] |}
  end.

Definition interestedResult : Validator.result :=
  Eval vm_compute in validation interested.

Definition blankStatusResult : Validator.result :=
  Eval vm_compute in validation blankStatus.

(** A CSV line without a name, with a company and an e-mail address. *)
Definition acme : Csv.parsedRow :=
  {| Csv.rowNumber := 3;
     Csv.cells := [ ("Name", ""); ("Company", "Acme"); ("Email", "a@b.co") ] |}.

Definition acmeResult : Validator.result := Eval vm_compute in validation acme.

(** A CSV line with nothing to name the client by. *)
Definition nameless : Csv.parsedRow :=
  {| Csv.rowNumber := 4; Csv.cells := [ ("City", "Leeds") ] |}.

Definition namelessResult : Validator.result := Eval vm_compute in validation nameless.

Definition emptyStore : Store.collection :=
  {| Store.docs := []; Store.nextObjectId := 0 |}.

(** The identifiers generated for the rows of a JSON batch. *)
Definition gen (i : nat) : string := "generated-" ++ Num.natText (N.of_nat i).

(** A CSV line that names an existing client and carries a creation date. *)
Definition known : Csv.parsedRow :=
  {| Csv.rowNumber := 5;
     Csv.cells := [ ("Client_id", "c1"); ("Name", "Acme LLC");
                    ("Created At", "2020-01-01") ] |}.

Definition knownResult : Validator.result := Eval vm_compute in validation known.

(** A store that holds client c1, created and last updated at time 1000. *)
Definition oldStore : Store.collection :=
  {| Store.docs :=
       [ {| Store.ident := Store.StrId "c1";
            Store.fields :=
              list_to_map [ ("name", JStr "Old name"); ("createdAt", JDate 1000);
                            ("updatedAt", JDate 1000) ];
            Store.paymentMethod := None |} ];
     Store.nextObjectId := 0 |}.

(** The first document of a store, as the list of its properties. *)
Definition firstDoc (c : Store.collection) : option (Store.docId * list (string * jsval)) :=
  match Store.docs c with
  | d :: _ => Some (Store.ident d, map_to_list (Store.fields d))
  | [] => None
  end.


(** A JSON row with card columns. *)
Definition jsonCard : Batch.row :=
  [ ("name", CStr "Ann Lee"); ("email", CStr "ann@example.com");
    ("ccNumber", CStr "4242424242424242"); ("ccExp", CStr "09/26");
    ("cvv", CStr "123") ].


(** A CSV line with the spaced card headers. *)
Definition csvSpacedCard : Csv.parsedRow :=
  {| Csv.rowNumber := 7;
     Csv.cells := [ ("Name", "Ann Lee"); ("Email", "ann@example.com");
                    ("CC Number", "4242424242424242"); ("Expiration Date", "09/26");
                    ("Security Code", "123") ] |}.

(** A JSON row with a first and a last name only. *)
Definition annLee : Batch.row :=
  [ ("First Name", CStr "Ann"); ("last_name", CStr "Lee") ].


End Sample.

(** * Properties of the pipeline *)

Section StringFacts.

Lemma text_chars (s : string) : Js.text (Js.chars s) = s.
Proof. apply string_of_list_ascii_of_string. Qed.

Lemma chars_text (l : list ascii) : Js.chars (Js.text l) = l.
Proof. apply list_ascii_of_string_of_list_ascii. Qed.

Lemma length_chars (s : string) : List.length (Js.chars s) = String.length s.
Proof. induction s as [|c s IH]; simpl; [reflexivity | now rewrite IH]. Qed.

Lemma length_text (l : list ascii) : String.length (Js.text l) = List.length l.
Proof. now rewrite <- length_chars, chars_text. Qed.


Lemma truthy_length (s : string) : Js.truthy s = negb (String.length s =? 0)%nat.
Proof. destruct s; reflexivity. Qed.

Lemma takeWhile_stop (p : ascii -> bool) (l1 l2 : list ascii) (c : ascii) :
  forallb p l1 = true -> p c = false ->
  Js.takeWhile p (l1 ++ c :: l2) = l1 /\ Js.dropWhile p (l1 ++ c :: l2) = c :: l2.
Proof.
  intros Hall Hc. induction l1 as [|a l1 IH]; simpl in *.
  - now rewrite Hc.
  - apply andb_prop in Hall as [Ha Hl]. rewrite Ha.
    destruct (IH Hl) as [-> ->]. easy.
Qed.

Lemma takeWhile_all (p : ascii -> bool) (l : list ascii) :
  forallb p l = true -> Js.takeWhile p l = l /\ Js.dropWhile p l = [].
Proof.
  induction l as [|a l IH]; simpl; [easy|].
  intros H. apply andb_prop in H as [Ha Hl]. rewrite Ha.
  destruct (IH Hl) as [-> ->]. easy.
Qed.

Lemma isChar_code (k : N) (c : ascii) : Js.isChar k c = true -> Js.code c = k.
Proof. unfold Js.isChar. apply N.eqb_eq. Qed.

Lemma digit_range (c : ascii) :
  Js.isDigit c = true -> (48 <= Js.code c <= 57)%N.
Proof.
  unfold Js.isDigit, Js.inRange. intros H.
  apply andb_prop in H as [H1 H2].
  apply N.leb_le in H1. apply N.leb_le in H2. lia.
Qed.

Lemma separator_not_digit (c : ascii) :
  Tokenize.isSeparator c = true -> Js.isDigit c = false.
Proof.
  unfold Tokenize.isSeparator. intros H.
  destruct (Js.isDigit c) eqn:Hd; [|reflexivity].
  apply digit_range in Hd.
  apply orb_prop in H as [H|H]; apply isChar_code in H; lia.
Qed.

Lemma digit_not_space (c : ascii) : Js.isDigit c = true -> Js.isSpace c = false.
Proof.
  intros Hd. apply digit_range in Hd.
  unfold Js.isSpace, Js.inRange, Js.isChar.
  repeat (apply orb_false_intro); try (apply N.eqb_neq; lia).
  apply andb_false_intro2. apply N.leb_gt. lia.
Qed.

Lemma digit_not_sign (c : ascii) :
  Js.isDigit c = true -> Js.isChar 45 c = false /\ Js.isChar 43 c = false.
Proof.
  intros Hd. apply digit_range in Hd. unfold Js.isChar.
  split; apply N.eqb_neq; lia.
Qed.

(** [parseInt] of a run of digits followed by nothing or by a non-digit. *)
Lemma parseInt10_digits (ds rest : list ascii) :
  ds <> [] -> forallb Js.isDigit ds = true ->
  match rest with [] => True | c :: _ => Js.isDigit c = false end ->
  Num.parseInt10 (Js.text (ds ++ rest)) = Int (Num.digitsVal ds).
Proof.
  intros Hne Hall Hrest. unfold Num.parseInt10. rewrite chars_text.
  assert (Htw : Js.takeWhile Js.isDigit (ds ++ rest) = ds).
  { destruct rest as [|c rest].
    - rewrite app_nil_r. now apply takeWhile_all.
    - now apply takeWhile_stop. }
  destruct ds as [|a ds]; [congruence|].
  pose proof Hall as Hall'. simpl in Hall'.
  apply andb_prop in Hall' as [Ha Hds].
  assert (Hts : Js.trimStartL ((a :: ds) ++ rest)%list = ((a :: ds) ++ rest)%list).
  { unfold Js.trimStartL. simpl. now rewrite (digit_not_space a Ha). }
  rewrite Hts.
  assert (Hss : Num.scanSign ((a :: ds) ++ rest)%list = (false, ((a :: ds) ++ rest)%list)).
  { unfold Num.scanSign. simpl. now destruct (digit_not_sign a Ha) as [-> ->]. }
  rewrite Hss, Htw. reflexivity.
Qed.

Lemma lt_Int (a b : Z) : Num.lt (Int a) (Int b) = (a <? b).
Proof. unfold Num.lt, Int, Num.ltFin. simpl. now rewrite !Z.mul_1_r. Qed.

Lemma clamp_Int (v : Z) :
  Num.min (Int 12) (Num.max (Int 1) (Int v)) = Int (Z.min 12 (Z.max 1 v)).
Proof.
  unfold Num.max. change (Int 1) with (Fin 1 0). change (Int v) with (Fin v 0).
  change (Num.lt (Fin 1 0) (Fin v 0)) with (Num.lt (Int 1) (Int v)).
  rewrite lt_Int. destruct (Z.ltb_spec 1 v).
  - unfold Num.min. change (Num.lt (Fin v 0) (Int 12)) with (Num.lt (Int v) (Int 12)).
    rewrite lt_Int. destruct (Z.ltb_spec v 12); unfold Int; f_equal; lia.
  - unfold Num.min. change (Num.lt (Fin 1 0) (Int 12)) with (Num.lt (Int 1) (Int 12)).
    rewrite lt_Int. simpl. unfold Int; f_equal; lia.
Qed.

Lemma add_Int (a b : Z) : Num.add (Int a) (Int b) = Int (a + b).
Proof. unfold Num.add, Int. simpl. now rewrite !Z.mul_1_r. Qed.

End StringFacts.

(** * Card tokenization *)

Section TokenizeFacts.
Import Tokenize.

Lemma matchExpiry_complete (m y : list ascii) (sep : ascii) :
  forallb Js.isDigit m = true -> (1 <= List.length m <= 2)%nat ->
  isSeparator sep = true ->
  forallb Js.isDigit y = true -> (2 <= List.length y <= 4)%nat ->
  matchExpiry (Js.text (m ++ sep :: y)) = Some (Js.text m, Js.text y).
Proof.
  intros Hm Hlm Hsep Hy Hly. unfold matchExpiry. rewrite chars_text.
  destruct (takeWhile_stop Js.isDigit m y sep Hm (separator_not_digit sep Hsep))
    as [-> ->].
  rewrite Hsep, Hy.
  replace (1 <=? List.length m)%nat with true by (symmetry; apply Nat.leb_le; lia).
  replace (List.length m <=? 2)%nat with true by (symmetry; apply Nat.leb_le; lia).
  replace (2 <=? List.length y)%nat with true by (symmetry; apply Nat.leb_le; lia).
  replace (List.length y <=? 4)%nat with true by (symmetry; apply Nat.leb_le; lia).
  reflexivity.
Qed.



Lemma length_ok (s : string) :
  (13 <= String.length s <= 19)%nat ->
  negb (Js.truthy s) || (String.length s <? 13)%nat || (19 <? String.length s)%nat = false.
Proof.
  intros H. rewrite truthy_length.
  destruct (Nat.eqb_spec (String.length s) 0); [lia|].
  destruct (Nat.ltb_spec (String.length s) 13); [lia|].
  destruct (Nat.ltb_spec 19 (String.length s)); [lia|]. reflexivity.
Qed.



(** The tokenized entry for a card number of 13 to 19 digits and an expiry
    that, once trimmed, is one or two digits, a separator and two to four
    digits. *)
Lemma tokenize_some (pr : PaymentRaw) (now : Z) (m y : list ascii) (sep : ascii) :
  (13 <= String.length (Tokenize.cardDigits pr) <= 19)%nat ->
  Js.trim (ccExp pr) = Js.text (m ++ sep :: y) ->
  forallb Js.isDigit m = true -> (1 <= List.length m <= 2)%nat ->
  isSeparator sep = true ->
  forallb Js.isDigit y = true -> (2 <= List.length y <= 4)%nat ->
  tokenize pr now =
  Some {| Payment.pm_id := "csv_" ++ detectBrand (Tokenize.cardDigits pr) ++ "_"
                             ++ Js.sliceLast 4 (Tokenize.cardDigits pr) ++ "_" ++ Num.intText now;
          Payment.pm_brand := detectBrand (Tokenize.cardDigits pr);
          Payment.pm_last4 := Js.sliceLast 4 (Tokenize.cardDigits pr);
          Payment.pm_expMonth := Int (Z.min 12 (Z.max 1 (Num.digitsVal m)));
          Payment.pm_expYear := Tokenize.yearOf y;
          Payment.pm_nameOnCard := orUndefined (nameOnCard pr);
          Payment.pm_billingZip := orUndefined (billingZip pr);
          Payment.pm_isDefault := true;
          Payment.pm_cardNumber := None;
          Payment.pm_cvv := None |}.
Proof.
  intros Hlen Hexp Hm Hlm Hsep Hy Hly.
  unfold tokenize.  rewrite (length_ok _ Hlen), Hexp.
  rewrite (matchExpiry_complete m y sep Hm Hlm Hsep Hy Hly).
  assert (Hpm : Num.parseInt10 (Js.text m) = Int (Num.digitsVal m)).
  { rewrite <- (app_nil_r m) at 1. apply parseInt10_digits; [|assumption|exact I].
    destruct m; [simpl in Hlm; lia | discriminate]. }
  assert (Hpy : Num.parseInt10 (Js.text y) = Int (Num.digitsVal y)).
  { rewrite <- (app_nil_r y) at 1. apply parseInt10_digits; [|assumption|exact I].
    destruct y; [simpl in Hly; lia | discriminate]. }
  rewrite Hpm, Hpy, clamp_Int, add_Int, length_text.
  unfold Tokenize.yearOf. destruct (List.length y =? 2)%nat; reflexivity.
Qed.

End TokenizeFacts.



Section ExpiryMonth.
Import Tokenize.

Lemma createClientExpiry_month (rawCcExp : string) (year : Z)
    (m y : list ascii) (sep : ascii) :
  rawCcExp = Js.text (m ++ sep :: y) ->
  forallb Js.isDigit m = true -> (1 <= List.length m <= 2)%nat ->
  isSeparator sep = true ->
  forallb Js.isDigit y = true -> (2 <= List.length y <= 4)%nat ->
  exists yr,
    createClientExpiry rawCcExp year
    = Some (Int (Z.min 12 (Z.max 1 (Num.digitsVal m))), yr).
Proof.
  intros -> Hm Hlm Hsep Hy Hly. unfold createClientExpiry.
  assert (Htruthy : Js.truthy (Js.text (m ++ sep :: y)) = true).
  { rewrite truthy_length, length_text, length_app. simpl.
    destruct (Nat.eqb_spec (List.length m + S (List.length y)) 0); [lia|reflexivity]. }
  rewrite Htruthy. simpl andb.
  destruct (Re.test mmyyRe (Js.text (m ++ sep :: y))).
  - eexists. f_equal. f_equal. rewrite <- clamp_Int. f_equal. f_equal.
    unfold Js.slice. rewrite chars_text. simpl skipn.
    pose proof (separator_not_digit sep Hsep) as Hns.
    destruct m as [|a [|b [|c m]]]; simpl in Hlm; try lia.
    + simpl. apply (parseInt10_digits [a] [sep]); [discriminate|assumption|exact Hns].
    + simpl. apply (parseInt10_digits [a; b] []); [discriminate|assumption|exact I].
  - rewrite (matchExpiry_complete m y sep Hm Hlm Hsep Hy Hly).
    eexists. f_equal. f_equal. rewrite <- clamp_Int. f_equal. f_equal.
    rewrite <- (app_nil_r m) at 1. apply parseInt10_digits; [|assumption|exact I].
    destruct m; [simpl in Hlm; lia | discriminate].
Qed.

End ExpiryMonth.

(** C10.  For an expiry of one or two month digits, a separator ([/] or [-])
    and a year of two to four digits, the month stored is
    min(12, max(1, month)): the row is not rejected for a month out of
    range.  This holds in the import worker, where the expiry is trimmed
    first, and in [createClient].  In particular 13/26 gives 12 and 0/26
    gives 1. *)
Theorem expiry_month_is_clamped :
  (forall pr now m sep y,
      (13 <= String.length (Tokenize.cardDigits pr) <= 19)%nat ->
      Js.trim (Tokenize.ccExp pr) = Js.text (m ++ sep :: y) ->
      forallb Js.isDigit m = true -> (1 <= List.length m <= 2)%nat ->
      Tokenize.isSeparator sep = true ->
      forallb Js.isDigit y = true -> (2 <= List.length y <= 4)%nat ->
      exists t, Tokenize.tokenize pr now = Some t
                /\ Payment.pm_expMonth t = Int (Z.min 12 (Z.max 1 (Num.digitsVal m))))
  /\ (forall rawCcExp year m sep y,
      rawCcExp = Js.text (m ++ sep :: y) ->
      forallb Js.isDigit m = true -> (1 <= List.length m <= 2)%nat ->
      Tokenize.isSeparator sep = true ->
      forallb Js.isDigit y = true -> (2 <= List.length y <= 4)%nat ->
      exists yr, Tokenize.createClientExpiry rawCcExp year
                 = Some (Int (Z.min 12 (Z.max 1 (Num.digitsVal m))), yr))
  /\ (forall number cvv name zip now,
      (13 <= String.length (Js.removeAll Tokenize.notDigit number) <= 19)%nat ->
      (exists t, Tokenize.tokenize
                   {| Tokenize.ccNumber := number; Tokenize.ccExp := "13/26";
                      Tokenize.ccCvv := cvv; Tokenize.nameOnCard := name;
                      Tokenize.billingZip := zip |} now = Some t
                 /\ Payment.pm_expMonth t = Int 12)
      /\ (exists t, Tokenize.tokenize
                      {| Tokenize.ccNumber := number; Tokenize.ccExp := "0/26";
                         Tokenize.ccCvv := cvv; Tokenize.nameOnCard := name;
                         Tokenize.billingZip := zip |} now = Some t
                    /\ Payment.pm_expMonth t = Int 1)).
Proof.
  split.
  { intros pr now m sep y Hlen Hexp Hm Hlm Hsep Hy Hly. eexists. split.
    - apply (tokenize_some pr now m y sep); assumption.
    - reflexivity. }
  split; [intros; now apply (createClientExpiry_month _ _ m y sep)|].
  intros number cvv name zip now Hlen. split.
  - eexists. split.
    + apply (tokenize_some _ now (Js.chars "13") (Js.chars "26") "/"%char);
        try reflexivity; try assumption; simpl; lia.
    + reflexivity.
  - eexists. split.
    + apply (tokenize_some _ now (Js.chars "0") (Js.chars "26") "/"%char);
        try reflexivity; try assumption; simpl; lia.
    + reflexivity.
Qed.

(** The theorem at the expiry 13-2031 of a 16-digit card and at 0/26 in
    [createClient]. *)
Lemma expiry_month_is_clamped_witness :
  (exists t,
      Tokenize.tokenize
        {| Tokenize.ccNumber := "5555555555554444"; Tokenize.ccExp := "13-2031";
           Tokenize.ccCvv := ""; Tokenize.nameOnCard := ""; Tokenize.billingZip := "" |}
        0 = Some t
      /\ Payment.pm_expMonth t = Int (Z.min 12 (Z.max 1 13)))
  /\ (exists yr, Tokenize.createClientExpiry "0/26" 2026
                 = Some (Int (Z.min 12 (Z.max 1 0)), yr)).
Proof.
  destruct expiry_month_is_clamped as (Hworker & Hcreate & _). split.
  - apply (Hworker _ 0 (Js.chars "13") "-"%char (Js.chars "2031"));
      try reflexivity; simpl; lia.
  - apply (Hcreate "0/26" 2026 (Js.chars "0") "/"%char (Js.chars "26"));
      try reflexivity; simpl; lia.
Defined.

(** * Payment methods of a client *)

Section PaymentFacts.
Import Payment.

Lemma defaults_app (a b : list Entry) : defaults (a ++ b) = (defaults a + defaults b)%nat.
Proof. unfold defaults. now rewrite List.filter_app, length_app. Qed.

Lemma defaults_cleared (l : list Entry) : defaults (List.map (setDefault false) l) = 0%nat.
Proof. induction l as [|e l IH]; [reflexivity | exact IH]. Qed.

Lemma cleared_all (l : list Entry) :
  Forall (fun e => isDefault e = false) (List.map (setDefault false) l).
Proof. induction l as [|e l IH]; constructor; [reflexivity | exact IH]. Qed.

Lemma addPaymentMethod_inv (block : option Block) (data : PaymentMethodData)
    (now : Z) (b' : Block) :
  addPaymentMethod block data now = inr b' ->
  let flip := (Nat.eqb (List.length (methodsOf block)) 0 || pm_isDefault data)%bool in
  paymentMethods b' =
    ((if flip then List.map (setDefault false) (methodsOf block) else methodsOf block)
     ++ [ {| id := pm_id data; brand := pm_brand data; last4 := pm_last4 data;
             expMonth := pm_expMonth data; expYear := pm_expYear data;
             nameOnCard := pm_nameOnCard data; billingZip := pm_billingZip data;
             isDefault := (if flip then true else pm_isDefault data) || false;
             createdAt := now |} ])%list.
Proof.
  unfold addPaymentMethod.
  destruct (present (pm_cardNumber data) || present (pm_cvv data)); [discriminate|].
  intros H. injection H as <-. destruct block as [b|]; reflexivity.
Qed.

(** The worker never passes raw card data, and always asks for the default. *)
Lemma tokenize_is_default (pr : Tokenize.PaymentRaw) (now : Z) (t : PaymentMethodData) :
  Tokenize.tokenize pr now = Some t ->
  pm_isDefault t = true /\ pm_cardNumber t = None /\ pm_cvv t = None.
Proof.
  unfold Tokenize.tokenize. intros H.
  destruct (_ || _ || _); [discriminate|].
  destruct (Tokenize.matchExpiry _) as [[g1 yy]|]; [|discriminate].
  injection H as <-. auto.
Qed.

(** The card security code has no part in the tokenized entry. *)
Lemma tokenize_ignores_cvv (n e c1 c2 name zip : string) (now : Z) :
  Tokenize.tokenize
    {| Tokenize.ccNumber := n; Tokenize.ccExp := e; Tokenize.ccCvv := c1;
       Tokenize.nameOnCard := name; Tokenize.billingZip := zip |} now
  = Tokenize.tokenize
      {| Tokenize.ccNumber := n; Tokenize.ccExp := e; Tokenize.ccCvv := c2;
         Tokenize.nameOnCard := name; Tokenize.billingZip := zip |} now.
Proof. reflexivity. Qed.

End PaymentFacts.

(** C7, as stated, fails: a method attached without the default flag to a
    client that already has one is not made the default, and the existing
    default is kept. *)
Lemma addPaymentMethod_not_always_default :
  ~ (forall block data now b',
        Payment.addPaymentMethod block data now = inr b' ->
        exists e, Payment.paymentMethods b'
                  = (List.map (Payment.setDefault false) (Payment.methodsOf block) ++ [e])%list
                  /\ Payment.isDefault e = true).
Proof.
  intros H.
  destruct (H Sample.oneCard (Sample.amex0005 false) 1 _ eq_refl) as (e & Heq & Hdef).
  simpl in Heq. injection Heq as _ <-. discriminate Hdef.
Qed.

(** C7, amended.  When [addPaymentMethod] completes and the method carries
    the default flag (as every caller in the controllers passes it) or the
    client had no method, the new entry is the only default: it is appended
    as default after the existing entries, all flipped to non-default.
    Without the flag, on a client that has methods, the existing entries are
    kept as they are and the new one is appended as non-default, so the
    number of defaults does not change. *)
Theorem addPaymentMethod_default_flag :
  forall block data now b',
    Payment.addPaymentMethod block data now = inr b' ->
    (Payment.pm_isDefault data = true \/ Payment.methodsOf block = [] ->
       exists e,
         Payment.paymentMethods b'
         = (List.map (Payment.setDefault false) (Payment.methodsOf block) ++ [e])%list
         /\ Payment.id e = Payment.pm_id data
         /\ Payment.isDefault e = true
         /\ Forall (fun x => Payment.isDefault x = false)
              (List.map (Payment.setDefault false) (Payment.methodsOf block))
         /\ Payment.defaults (Payment.paymentMethods b') = 1%nat)
    /\ (Payment.pm_isDefault data = false -> Payment.methodsOf block <> [] ->
       exists e,
         Payment.paymentMethods b' = (Payment.methodsOf block ++ [e])%list
         /\ Payment.id e = Payment.pm_id data
         /\ Payment.isDefault e = false
         /\ Payment.defaults (Payment.paymentMethods b')
            = Payment.defaults (Payment.methodsOf block)).
Proof.
  intros block data now b' H. apply addPaymentMethod_inv in H. simpl in H.
  split.
  - intros Hflag.
    assert (Hflip : (Nat.eqb (List.length (Payment.methodsOf block)) 0
                     || Payment.pm_isDefault data)%bool = true).
    { destruct Hflag as [->| ->]; [apply orb_true_r | reflexivity]. }
    rewrite Hflip in H. eexists. split; [exact H|].
    repeat split; [apply cleared_all|].
    rewrite H, defaults_app, defaults_cleared. reflexivity.
  - intros Hno Hne.
    assert (Hflip : (Nat.eqb (List.length (Payment.methodsOf block)) 0
                     || Payment.pm_isDefault data)%bool = false).
    { rewrite Hno. destruct (Payment.methodsOf block); [congruence | reflexivity]. }
    rewrite Hflip in H. eexists. split; [exact H|].
    simpl. rewrite Hno. repeat split.
    rewrite H, defaults_app. unfold Payment.defaults at 2. simpl. rewrite Hno. simpl. lia.
Qed.

(** The amended statement on a client with one default method, for a second
    method attached with the flag. *)
Lemma addPaymentMethod_default_flag_witness :
  exists b',
    Payment.addPaymentMethod Sample.oneCard (Sample.amex0005 true) 1 = inr b'
    /\ Payment.defaults (Payment.paymentMethods b') = 1%nat.
Proof.
  eexists. split; [reflexivity|].
  destruct (addPaymentMethod_default_flag Sample.oneCard (Sample.amex0005 true) 1 _ eq_refl)
    as [Hflag _].
  destruct (Hflag (or_introl eq_refl)) as (e & _ & _ & _ & _ & Hone).
  exact Hone.
Defined.

(** * Chunked bulk writes *)

Section ChunkFacts.
Import Store BatchRun.

Context {S : Type} (exec : S -> bulkOp -> S * opResult).

Lemma bulkWrite_app (st : S) (a b : list bulkOp) :
  bulkWrite exec st (a ++ b) =
  (fst (bulkWrite exec (fst (bulkWrite exec st a)) b),
   (snd (bulkWrite exec st a) ++ snd (bulkWrite exec (fst (bulkWrite exec st a)) b))%list).
Proof.
  revert st. induction a as [|op a IH]; intros st; simpl.
  - now destruct (bulkWrite exec st b).
  - destruct (exec st op) as [st1 r]. rewrite IH.
    destruct (bulkWrite exec st1 a) as [st2 rs]. reflexivity.
Qed.

Lemma count_app (p : opResult -> bool) (a b : bulkResult) :
  count p (a ++ b)%list = (count p a + count p b)%nat.
Proof. unfold count. now rewrite List.filter_app, length_app. Qed.

Lemma hasWriteErrors_app (a b : bulkResult) :
  hasWriteErrors (a ++ b)%list = hasWriteErrors a || hasWriteErrors b.
Proof. apply existsb_app. Qed.

Lemma addCounts_app (t : totals) (a b : bulkResult) :
  addCounts (addCounts t a) b = addCounts t (a ++ b)%list.
Proof.
  unfold addCounts, modifiedCount, upsertedCount. simpl.
  rewrite !count_app. f_equal; lia.
Qed.

Lemma addCounts_nil (t : totals) : addCounts t [] = t.
Proof. destruct t. unfold addCounts. simpl. f_equal; apply Nat.add_0_r. Qed.

(** One batch split in two: the first part, then the rest from the store the
    first part leaves. *)
Lemma oneBatch_app (st : S) (t : totals) (a b : list bulkOp) :
  oneBatch exec st t (a ++ b) =
  match oneBatch exec st t a with
  | (st1, Some t1) => oneBatch exec st1 t1 b
  | (st1, None) => (fst (bulkWrite exec st1 b), None)
  end.
Proof.
  unfold oneBatch. rewrite bulkWrite_app.
  destruct (bulkWrite exec st a) as [st1 r1]. simpl.
  destruct (bulkWrite exec st1 b) as [st2 r2]. simpl.
  rewrite hasWriteErrors_app.
  destruct (hasWriteErrors r1); simpl; [reflexivity|].
  now rewrite addCounts_app.
Qed.

Lemma execChunk_oneBatch (st : S) (t : totals) (chunk : list bulkOp) :
  execChunk exec st t chunk = oneBatch exec st t chunk.
Proof.
  unfold execChunk, oneBatch. destruct chunk as [|op chunk].
  - simpl. now rewrite addCounts_nil.
  - destruct (bulkWrite exec st (op :: chunk)) as [st1 rs].
    now destruct (hasWriteErrors rs).
Qed.

(** With chunks of at least one operation and fuel for one iteration per
    operation left, the loop ends, and it reports what one batch of the
    remaining operations reports; when no write fails it also leaves the same
    store. *)
Lemma chunkLoop_oneBatch (size : nat) (ops : list bulkOp) :
  (1 <= size)%nat ->
  forall (fuel i : nat) (st : S) (t : totals),
    (List.length ops - i <= fuel)%nat ->
    exists st',
      chunkLoop exec fuel size ops i st t
      = Some (st', snd (oneBatch exec st t (skipn i ops)))
      /\ (snd (oneBatch exec st t (skipn i ops)) <> None ->
          st' = fst (oneBatch exec st t (skipn i ops))).
Proof.
  intros Hsize fuel. induction fuel as [|fuel IH]; intros i st t Hfuel.
  - assert (Hi : (List.length ops <= i)%nat) by lia.
    simpl. destruct (Nat.ltb_spec i (List.length ops)); [lia|].
    rewrite skipn_all2 by exact Hi. exists st. unfold oneBatch. simpl.
    rewrite addCounts_nil. split; [reflexivity|auto].
  - simpl. destruct (Nat.ltb_spec i (List.length ops)) as [Hlt|Hge].
    + rewrite execChunk_oneBatch.
      replace (oneBatch exec st t (skipn i ops))
        with (oneBatch exec st t (firstn size (skipn i ops) ++ skipn size (skipn i ops))%list)
        by (now rewrite firstn_skipn).
      rewrite oneBatch_app.
      destruct (oneBatch exec st t (firstn size (skipn i ops))) as [st1 [t1|]] eqn:Hchunk.
      * rewrite skipn_skipn, (Nat.add_comm size i).
        apply IH. lia.
      * exists st1. simpl. split; [reflexivity | congruence].
    + rewrite skipn_all2 by exact Hge. exists st. unfold oneBatch. simpl.
      rewrite addCounts_nil. split; [reflexivity|auto].
Qed.

End ChunkFacts.

Section ChunkSize.
Import Batch.

Lemma parseInt10_shape (s : string) :
  Num.parseInt10 s = NaN \/ exists z, Num.parseInt10 s = Int z.
Proof.
  unfold Num.parseInt10. destruct (Num.scanSign _) as [neg l].
  destruct (Js.takeWhile Js.isDigit l); [now left | right; eauto].
Qed.

Lemma min_Int (a b : Z) : Num.min (Int a) (Int b) = Int (Z.min a b).
Proof.
  unfold Num.min, Num.lt, Num.ltFin, Int. simpl. rewrite !Z.mul_1_r.
  destruct (Z.ltb_spec b a); f_equal; lia.
Qed.

Lemma max_Int (a b : Z) : Num.max (Int a) (Int b) = Int (Z.max a b).
Proof.
  unfold Num.max, Num.lt, Num.ltFin, Int. simpl. rewrite !Z.mul_1_r.
  destruct (Z.ltb_spec a b); f_equal; lia.
Qed.

(** The chunk size is an integer between 500 and 5000, whatever the request
    says. *)
Lemma chunkSize_clamped (batchSize : option cell) :
  exists z, chunkSize batchSize = Int z /\ 500 <= z <= 5000.
Proof.
  unfold chunkSize.
  set (v := if Coerce.truthyO batchSize then _ else _).
  assert (Hp : exists p, (if Coerce.truthy (CNum (Num.parseInt10 v))
                          then Num.parseInt10 v else Int 2000) = Int p).
  { destruct (parseInt10_shape v) as [-> | [z ->]]; simpl; [eauto|].
    destruct (negb (z =? 0)); eauto. }
  destruct Hp as [p ->]. rewrite min_Int, max_Int.
  eexists. split; [reflexivity | lia].
Qed.

Lemma chunkLength_clamped (batchSize : option cell) :
  (500 <= chunkLength batchSize <= 5000)%nat.
Proof.
  unfold chunkLength. destruct (chunkSize_clamped batchSize) as (z & -> & Hz).
  unfold Int. lia.
Qed.

End ChunkSize.

(** C9.  The response of the JSON batch import, and so its created and
    updated totals, does not depend on the batch size: for any store, any
    rows and any two batch sizes the handler ends and answers the same; and
    where the answer is a summary the store left behind is the same too.
    Batch sizes 2000 and 500 give chunks of 2000 and of 500 operations. *)
Theorem batch_totals_independent_of_chunk_size :
  (forall (S : Type) (exec : S -> Store.bulkOp -> S * Store.opResult)
          (userId : string) (gen : nat -> string) (rows : option (list Batch.row))
          (skipValidation : bool) (st : S) (size1 size2 : option cell),
      exists st1 st2 answer,
        BatchRun.importClientsBatch exec userId gen rows skipValidation size1 st
        = Some (st1, answer)
        /\ BatchRun.importClientsBatch exec userId gen rows skipValidation size2 st
           = Some (st2, answer)
        /\ (forall sm, answer = BatchRun.Completed sm -> st1 = st2))
  /\ Batch.chunkLength (Some (CNum (Int 2000))) = 2000%nat
  /\ Batch.chunkLength (Some (CNum (Int 500))) = 500%nat
  /\ Batch.chunkLength (Some (CStr "2000")) = 2000%nat
  /\ Batch.chunkLength (Some (CStr "500")) = 500%nat.
Proof.
  split; [|repeat split; reflexivity].
  intros S exec userId gen rows skipValidation st size1 size2.
  unfold BatchRun.importClientsBatch.
  destruct rows as [[|r rows]|]; try (exists st, st, BatchRun.BadRequest; now auto).
  set (b := Batch.build userId skipValidation gen (r :: rows)).
  destruct (chunkLoop_oneBatch exec (Batch.chunkLength size1) (Batch.ops b)
              ltac:(pose proof (chunkLength_clamped size1); lia)
              (List.length (Batch.ops b)) 0 st
              {| BatchRun.modifiedTotal := 0; BatchRun.upsertedTotal := 0 |}
              ltac:(lia)) as (st1 & -> & Hst1).
  destruct (chunkLoop_oneBatch exec (Batch.chunkLength size2) (Batch.ops b)
              ltac:(pose proof (chunkLength_clamped size2); lia)
              (List.length (Batch.ops b)) 0 st
              {| BatchRun.modifiedTotal := 0; BatchRun.upsertedTotal := 0 |}
              ltac:(lia)) as (st2 & -> & Hst2).
  change (skipn 0 (Batch.ops b)) with (Batch.ops b) in *.
  destruct (snd (BatchRun.oneBatch exec st
                   {| BatchRun.modifiedTotal := 0; BatchRun.upsertedTotal := 0 |}
                   (Batch.ops b))) as [t|] eqn:Hout.
  - exists st1, st2. eexists. split; [reflexivity|]. split; [reflexivity|].
    intros _ _. rewrite Hst1, Hst2 by discriminate. reflexivity.
  - exists st1, st2, BatchRun.ServerError. split; [reflexivity|].
    split; [reflexivity | discriminate].
Qed.

(** The batch of one row with card columns is answered with a summary. *)
Lemma jsonCard_is_completed :
  snd <$> BatchRun.importClientsBatch Store.execOp Sample.user Sample.gen
            (Some [Sample.jsonCard]) true (Some (CNum (Int 2000))) Sample.emptyStore
  = Some (BatchRun.Completed
            {| BatchRun.totalProcessed := 1; BatchRun.successful := 1;
               BatchRun.created := 1; BatchRun.updated := 0;
               BatchRun.failed := 0; BatchRun.skippedRows := 0 |}).
Proof. vm_compute. reflexivity. Qed.

(** The statement on one row and the batch sizes 2000 and 500: one answer
    and one store. *)
Lemma batch_totals_independent_of_chunk_size_witness :
  exists st answer,
    BatchRun.importClientsBatch Store.execOp Sample.user Sample.gen
      (Some [Sample.jsonCard]) true (Some (CNum (Int 2000))) Sample.emptyStore
    = Some (st, answer)
    /\ BatchRun.importClientsBatch Store.execOp Sample.user Sample.gen
         (Some [Sample.jsonCard]) true (Some (CNum (Int 500))) Sample.emptyStore
       = Some (st, answer).
Proof.
  destruct batch_totals_independent_of_chunk_size as [H _].
  destruct (H Store.collection Store.execOp Sample.user Sample.gen
              (Some [Sample.jsonCard]) true Sample.emptyStore
              (Some (CNum (Int 2000))) (Some (CNum (Int 500))))
    as (st1 & st2 & answer & H1 & H2 & Hsame).
  exists st1, answer. split; [exact H1|].
  pose proof jsonCard_is_completed as Hc. rewrite H1 in Hc.
  cbn [fmap option_fmap option_map snd] in Hc. injection Hc as Hc.
  rewrite (Hsame _ Hc). exact H2.
Defined.

(** * The validator *)

Section ValidatorFacts.
Import Validator.

Lemma quiet_pure_id (keys : list string) : quiet keys (pure id).
Proof. intros st st' H. injection H as <-. auto. Qed.

Lemma quiet_andThen (keys : list string) (f g : step) :
  quiet keys f -> quiet keys g -> quiet keys (andThen f g).
Proof.
  intros Hf Hg st st' H. unfold andThen in H.
  destruct (f st) as [e|st1] eqn:Hfst; [discriminate|].
  destruct (Hf _ _ Hfst) as (He1 & Hw1 & Hd1).
  destruct (Hg _ _ H) as (He2 & Hw2 & Hd2).
  repeat split; [congruence | congruence |].
  intros k Hk. rewrite Hd2, Hd1 by assumption. reflexivity.
Qed.

Lemma quiet_weaken (keys keys' : list string) (s : step) :
  (forall k, In k keys -> In k keys') -> quiet keys s -> quiet keys' s.
Proof.
  intros Hsub Hq st st' H. destruct (Hq _ _ H) as (He & Hw & Hd).
  repeat split; auto.
Qed.

Lemma statusWarnings_snoc (ws : list string) (w : string) :
  statusWarnings (ws ++ [w])
  = (statusWarnings ws ++ (if isStatusWarning w then [w] else []))%list.
Proof.
  unfold statusWarnings. rewrite List.filter_app. simpl.
  now destruct (isStatusWarning w).
Qed.

(** The shapes every step reduces to. *)
Lemma quiet_warn (keys : list string) (w : string) :
  isStatusWarning w = false -> quiet keys (pure (warn w)).
Proof.
  intros Hw st st' H. injection H as <-. simpl.
  rewrite statusWarnings_snoc, Hw. split; [reflexivity|]. split; [apply app_nil_r|auto].
Qed.

Lemma quiet_put (keys : list string) (k : string) (v : jsval) :
  In k keys -> quiet keys (pure (put k v)).
Proof.
  intros Hk st st' H. injection H as <-. simpl. repeat split; auto.
  intros k' Hk'. apply lookup_insert_ne. congruence.
Qed.

Lemma quiet_warn_put (keys : list string) (w k : string) (v : jsval) :
  isStatusWarning w = false -> In k keys ->
  quiet keys (pure (fun st => warn w (put k v st))).
Proof.
  intros Hw Hk st st' H. injection H as <-. simpl.
  rewrite statusWarnings_snoc, Hw. split; [reflexivity|]. split; [apply app_nil_r|].
  intros k' Hk'. apply lookup_insert_ne. congruence.
Qed.

Lemma quiet_put_warn (keys : list string) (w k : string) (v : jsval) :
  isStatusWarning w = false -> In k keys ->
  quiet keys (pure (fun st => put k v (warn w st))).
Proof.
  intros Hw Hk st st' H. injection H as <-. simpl.
  rewrite statusWarnings_snoc, Hw. split; [reflexivity|]. split; [apply app_nil_r|].
  intros k' Hk'. apply lookup_insert_ne. congruence.
Qed.

Lemma quiet_throw (keys : list string) (e : string) : quiet keys (fun _ => inl e).
Proof. intros st st' H. discriminate. Qed.

Lemma quiet_onString (keys : list string) (v : cell) (k : string -> step) :
  (forall str, quiet keys (k str)) -> quiet keys (onString v k).
Proof. intros H. destruct v; simpl; auto using quiet_throw. Qed.

Lemma quiet_checkName (cd : clientData) (rowNumber : Z) :
  quiet ["name"] (checkName cd rowNumber).
Proof.
  unfold checkName.
  destruct (nameMissing cd).
  - apply quiet_warn_put; [reflexivity | simpl; auto].
  - destruct (default CNull (cd !! "name")); try apply quiet_throw.
    destruct (200 <? String.length s)%nat.
    + apply quiet_warn_put; [reflexivity | simpl; auto].
    + apply quiet_put. simpl; auto.
Qed.

Lemma quiet_checkEmail (cd : clientData) : quiet ["email"] (checkEmail cd).
Proof.
  unfold checkEmail. destruct (cd !! "email") as [email|]; [|apply quiet_pure_id].
  destruct (Coerce.truthy email); [|apply quiet_pure_id].
  destruct (negb _); [now apply quiet_warn|].
  apply quiet_onString. intros str. apply quiet_put. simpl; auto.
Qed.

Lemma quiet_checkText (cd : clientData) (key : string) (valid : string -> bool)
    (message : string) :
  isStatusWarning message = false -> quiet [key] (checkText cd key valid message).
Proof.
  intros Hm. unfold checkText. destruct (cd !! key) as [v|]; [|apply quiet_pure_id].
  destruct (Coerce.truthy v); [|apply quiet_pure_id].
  destruct (negb _); [now apply quiet_warn|].
  apply quiet_onString. intros str. apply quiet_put. simpl; auto.
Qed.

Lemma quiet_checkForecast (cd : clientData) :
  quiet ["forecastedAmount"] (checkForecast cd).
Proof.
  unfold checkForecast. destruct (provided _); [|apply quiet_pure_id].
  destruct (Num.isNaN _); [now apply quiet_warn|].
  destruct (Num.ltZero _).
  - apply quiet_put_warn; [reflexivity | simpl; auto].
  - apply quiet_put. simpl; auto.
Qed.

Lemma quiet_checkDate (env : Env) (cd : clientData) (key message : string) :
  isStatusWarning message = false -> quiet [key] (checkDate env cd key message).
Proof.
  intros Hm. unfold checkDate. destruct (Coerce.truthyO _); [|apply quiet_pure_id].
  destruct (negb _); [now apply quiet_warn|].
  apply quiet_put. simpl; auto.
Qed.

Lemma quiet_checkInteraction (cd : clientData) :
  quiet ["interactionCount"] (checkInteraction cd).
Proof.
  unfold checkInteraction. destruct (provided _); [|apply quiet_pure_id].
  destruct (_ || _); [now apply quiet_warn|].
  apply quiet_put. simpl; auto.
Qed.

Lemma quiet_checkId (cd : clientData) : quiet ["_id"] (checkId cd).
Proof.
  unfold checkId. destruct (cd !! "_id") as [[| |]|]; try apply quiet_pure_id.
  - destruct (_ =? _)%nat; [now apply quiet_warn|]. apply quiet_put. simpl; auto.
  - destruct (_ =? _)%nat; [now apply quiet_warn|]. apply quiet_put. simpl; auto.
Qed.

Lemma quiet_checkOwner (env : Env) (cd : clientData) :
  quiet ["ownedBy"] (checkOwner env cd).
Proof.
  unfold checkOwner. destruct (Coerce.truthyO _); [|apply quiet_pure_id].
  destruct (negb _).
  - apply quiet_put_warn; [reflexivity | simpl; auto].
  - destruct (findUser env _) as [[|]|].
    + apply quiet_put. simpl; auto.
    + apply quiet_put_warn; [reflexivity | simpl; auto].
    + apply quiet_put_warn; [reflexivity | simpl; auto].
Qed.

Lemma quiet_copyField (cd : clientData) (field : string) :
  quiet [field] (copyField cd field).
Proof.
  unfold copyField. destruct (cd !! field) as [v|]; [|apply quiet_pure_id].
  destruct (Coerce.truthy v); [|apply quiet_pure_id].
  apply quiet_onString. intros str. apply quiet_put. simpl; auto.
Qed.

Lemma quiet_copyFields (cd : clientData) (fs : list string) :
  quiet fs (copyFields cd fs).
Proof.
  induction fs as [|f fs IH]; simpl; [apply quiet_pure_id|].
  apply quiet_andThen.
  - apply (quiet_weaken [f]); [|apply quiet_copyField]. simpl. intuition.
  - apply (quiet_weaken fs); [|exact IH]. simpl. intuition.
Qed.

Lemma quiet_checkDuplicate (env : Env) : quiet [] (checkDuplicate env).
Proof.
  intros st st' H. unfold checkDuplicate, pure in H. injection H as <-.
  destruct (_ && _); [|auto].
  destruct (findClient env _ _) as [[|]|]; auto.
  simpl. rewrite statusWarnings_snoc. simpl. split; [reflexivity|]. split; [apply app_nil_r|auto].
Qed.


Lemma quiet_frames (keys : list string) (s : step) : quiet keys s -> frames keys s.
Proof. intros H st st' Hs. destruct (H _ _ Hs) as (He & _ & Hd). auto. Qed.

Lemma frames_andThen (keys : list string) (f g : step) :
  frames keys f -> frames keys g -> frames keys (andThen f g).
Proof.
  intros Hf Hg st st' H. unfold andThen in H.
  destruct (f st) as [e|st1] eqn:Hfst; [discriminate|].
  destruct (Hf _ _ Hfst) as (He1 & Hd1). destruct (Hg _ _ H) as (He2 & Hd2).
  split; [congruence|]. intros k Hk. rewrite Hd2, Hd1 by assumption. reflexivity.
Qed.

Lemma frames_weaken (keys keys' : list string) (s : step) :
  (forall k, In k keys -> In k keys') -> frames keys s -> frames keys' s.
Proof.
  intros Hsub Hq st st' H. destruct (Hq _ _ H) as (He & Hd). split; auto.
Qed.

(** What the check of the contact status does. *)
Lemma checkStatus_effect (cd : clientData) (st st' : state) :
  checkStatus cd st = inr st' ->
  errors st' = errors st
  /\ (forall k, k <> "contactStatus" -> data st' !! k = data st !! k)
  /\ match cd !! "contactStatus" with
     | Some c =>
         if Coerce.truthy c then
           match findStatus (Coerce.toStr c) with
           | None => data st' !! "contactStatus" = Some (JStr "Uncategorized")
                     /\ warnings st' = (warnings st ++ [statusWarning (Coerce.toStr c)])%list
           | Some status => data st' !! "contactStatus" = Some (JStr status)
                            /\ warnings st' = warnings st
           end
         else data st' !! "contactStatus" = Some (JStr "Uncategorized")
              /\ warnings st' = warnings st
     | None => data st' !! "contactStatus" = Some (JStr "Uncategorized")
               /\ warnings st' = warnings st
     end.
Proof.
  unfold checkStatus. destruct (cd !! "contactStatus") as [c|]; simpl.
  - destruct (Coerce.truthy c).
    + destruct (findStatus (Coerce.toStr c)); intros H; injection H as <-; simpl;
        (split; [reflexivity|]); (split; [intros k Hk; now apply lookup_insert_ne|]);
        (split; [apply lookup_insert_eq | reflexivity]).
    + intros H; injection H as <-; simpl.
      split; [reflexivity|]. split; [intros k Hk; now apply lookup_insert_ne|].
      split; [apply lookup_insert_eq | reflexivity].
  - intros H; injection H as <-; simpl.
    split; [reflexivity|]. split; [intros k Hk; now apply lookup_insert_ne|].
    split; [apply lookup_insert_eq | reflexivity].
Qed.

Lemma frames_checkStatus (cd : clientData) : frames ["contactStatus"] (checkStatus cd).
Proof.
  intros st st' H. destruct (checkStatus_effect cd st st' H) as (He & Hd & _).
  split; [exact He|]. intros k Hk. apply Hd. simpl in Hk. intuition.
Qed.

Ltac later keys lemma :=
  apply quiet_andThen;
  [ apply (quiet_weaken keys); [unfold Validator.laterKeys; simpl; intuition | lemma] | ].

(** The steps that follow the contact status, as one step. *)
Lemma quiet_later (env : Env) (cd : clientData) :
  quiet laterKeys
    (run [ checkText cd "phone" isValidPhone "Invalid phone number format";
           checkText cd "website" (isValidURL env) "Invalid website URL format";
           checkText cd "facebookPage" (isValidURL env) "Invalid Facebook page URL format";
           checkForecast cd;
           checkDate env cd "projectedCloseDate"
             "Invalid projected close date format; value ignored";
           checkDate env cd "createdAt" "Invalid createdAt date format; value ignored";
           checkInteraction cd;
           checkId cd;
           checkOwner env cd;
           copyFields cd optionalFields;
           checkDuplicate env ]).
Proof.
  unfold run. cbn [fold_right].
  later ["phone"] ltac:(now apply quiet_checkText).
  later ["website"] ltac:(now apply quiet_checkText).
  later ["facebookPage"] ltac:(now apply quiet_checkText).
  later ["forecastedAmount"] ltac:(apply quiet_checkForecast).
  later ["projectedCloseDate"] ltac:(now apply quiet_checkDate).
  later ["createdAt"] ltac:(now apply quiet_checkDate).
  later ["interactionCount"] ltac:(apply quiet_checkInteraction).
  later ["_id"] ltac:(apply quiet_checkId).
  later ["ownedBy"] ltac:(apply quiet_checkOwner).
  later optionalFields ltac:(apply quiet_copyFields).
  later (@nil string) ltac:(apply quiet_checkDuplicate).
  apply quiet_pure_id.
Qed.

Lemma laterKeys_spare : ~ In "contactStatus" laterKeys /\ ~ In "name" laterKeys.
Proof. unfold laterKeys; simpl; split; intuition discriminate. Qed.

(** The run of the validator, cut at the contact status. *)
Lemma validate_stages (env : Env) (cd : clientData) (rowNumber : Z) (r : result) :
  validateClientData env cd rowNumber = inr r ->
  exists st1 st2 st3 st4,
    checkName cd rowNumber {| data := ∅; errors := []; warnings := [] |} = inr st1
    /\ checkEmail cd st1 = inr st2
    /\ checkStatus cd st2 = inr st3
    /\ errors st4 = errors st3
    /\ statusWarnings (warnings st4) = statusWarnings (warnings st3)
    /\ (forall k, ~ In k laterKeys -> data st4 !! k = data st3 !! k)
    /\ r = {| rowNumber := rowNumber;
              isValid := (List.length (errors st4) =? 0)%nat;
              validated := data st4;
              resultErrors := errors st4;
              resultWarnings := warnings st4 |}.
Proof.
  unfold validateClientData, steps, run. cbn [fold_right].
  unfold andThen at 1.
  destruct (checkName cd rowNumber _) as [e|st1] eqn:H1; [discriminate|].
  unfold andThen at 1.
  destruct (checkEmail cd st1) as [e|st2] eqn:H2; [discriminate|].
  unfold andThen at 1.
  destruct (checkStatus cd st2) as [e|st3] eqn:H3; [discriminate|].
  match goal with |- context [match ?s st3 with _ => _ end] =>
    destruct (s st3) as [e|st4] eqn:H4; [discriminate|] end.
  intros H. injection H as <-.
  destruct (quiet_later env cd st3 st4 H4) as (He & Hw & Hd).
  exists st1, st2, st3, st4. repeat split; assumption.
Qed.

End ValidatorFacts.

Section ValidatorResults.
Import Validator.

Lemma validate_errors_empty (env : Env) (cd : clientData) (rowNumber : Z) (r : result) :
  validateClientData env cd rowNumber = inr r ->
  resultErrors r = [] /\ isValid r = true.
Proof.
  intros H. destruct (validate_stages env cd rowNumber r H)
    as (st1 & st2 & st3 & st4 & H1 & H2 & H3 & He4 & _ & _ & ->).
  destruct (quiet_checkName cd rowNumber _ _ H1) as (He1 & _).
  destruct (quiet_checkEmail cd _ _ H2) as (He2 & _).
  destruct (checkStatus_effect cd _ _ H3) as (He3 & _).
  simpl in *. rewrite He4, He3, He2, He1. split; reflexivity.
Qed.

Lemma truthy_nonempty (s : string) : Js.truthy s = true <-> s <> "".
Proof.
  destruct s as [|c s]; simpl; split; intros H; try discriminate; try reflexivity.
  now destruct H.
Qed.

Lemma orElse_truthy (a b : string) :
  Js.truthy b = true -> Js.truthy (Js.orElse a b) = true.
Proof. intros Hb. unfold Js.orElse. now destruct (Js.truthy a) eqn:Ha. Qed.

Lemma sliceTo_truthy (n : nat) (s : string) :
  Js.truthy s = true -> Js.truthy (Js.sliceTo (S n) s) = true.
Proof. destruct s; [discriminate | reflexivity]. Qed.

Lemma longer_truthy (s : string) : (String.length s <? 2)%nat = false -> Js.truthy s = true.
Proof. destruct s; [discriminate | reflexivity]. Qed.

Lemma fallbackName_truthy (cd : clientData) (rowNumber : Z) :
  Js.truthy (fallbackName cd rowNumber) = true.
Proof. unfold fallbackName. repeat apply orElse_truthy. reflexivity. Qed.

Lemma checkName_effect (cd : clientData) (rowNumber : Z) (st st' : state) :
  checkName cd rowNumber st = inr st' ->
  data st' !! "name" = Some (JStr (validatedName cd rowNumber))
  /\ validatedName cd rowNumber <> "".
Proof.
  unfold checkName, validatedName. destruct (nameMissing cd) eqn:Hmiss.
  - intros H. injection H as <-. simpl. split; [apply lookup_insert_eq|].
    apply truthy_nonempty, (sliceTo_truthy 199), fallbackName_truthy.
  - unfold nameMissing in Hmiss. apply orb_false_elim in Hmiss as [_ Hlen].
    destruct (cd !! "name") as [[| |str]|]; simpl in *; try discriminate.
    destruct (200 <? String.length str)%nat; intros H; injection H as <-; simpl;
      (split; [apply lookup_insert_eq|]); apply truthy_nonempty.
    + apply (sliceTo_truthy 199), longer_truthy, Hlen.
    + apply longer_truthy, Hlen.
Qed.

(** The name of a row the validator accepts. *)
Lemma validate_name (env : Env) (cd : clientData) (rowNumber : Z) (r : result) :
  validateClientData env cd rowNumber = inr r ->
  validated r !! "name" = Some (JStr (validatedName cd rowNumber))
  /\ validatedName cd rowNumber <> "".
Proof.
  intros H. destruct (validate_stages env cd rowNumber r H)
    as (st1 & st2 & st3 & st4 & H1 & H2 & H3 & _ & _ & Hd4 & ->).
  destruct (checkName_effect cd rowNumber _ _ H1) as (Hn1 & Hne).
  destruct (quiet_checkEmail cd _ _ H2) as (_ & _ & Hd2).
  destruct (checkStatus_effect cd _ _ H3) as (_ & Hd3 & _).
  split; [|exact Hne]. simpl.
  rewrite Hd4 by apply laterKeys_spare.
  rewrite Hd3 by discriminate.
  rewrite Hd2 by (simpl; intuition discriminate).
  exact Hn1.
Qed.

Lemma isStatusWarning_statusWarning (original : string) :
  isStatusWarning (statusWarning original) = true.
Proof. reflexivity. Qed.

(** The contact status of a row the validator accepts. *)
Lemma validate_status (env : Env) (cd : clientData) (rowNumber : Z) (r : result) :
  validateClientData env cd rowNumber = inr r ->
  match cd !! "contactStatus" with
  | Some c =>
      if Coerce.truthy c then
        match findStatus (Coerce.toStr c) with
        | None => validated r !! "contactStatus" = Some (JStr "Uncategorized")
                  /\ statusWarnings (resultWarnings r) = [statusWarning (Coerce.toStr c)]
        | Some status => validated r !! "contactStatus" = Some (JStr status)
                         /\ statusWarnings (resultWarnings r) = []
        end
      else validated r !! "contactStatus" = Some (JStr "Uncategorized")
           /\ statusWarnings (resultWarnings r) = []
  | None => validated r !! "contactStatus" = Some (JStr "Uncategorized")
            /\ statusWarnings (resultWarnings r) = []
  end.
Proof.
  intros H. destruct (validate_stages env cd rowNumber r H)
    as (st1 & st2 & st3 & st4 & H1 & H2 & H3 & _ & Hw4 & Hd4 & ->).
  destruct (quiet_checkName cd rowNumber _ _ H1) as (_ & Hw1 & _).
  destruct (quiet_checkEmail cd _ _ H2) as (_ & Hw2 & _).
  destruct (checkStatus_effect cd _ _ H3) as (_ & _ & Hs).
  assert (Hw0 : statusWarnings (warnings st2) = []) by (rewrite Hw2, Hw1; reflexivity).
  simpl. rewrite Hw4, Hd4 by apply laterKeys_spare.
  destruct (cd !! "contactStatus") as [c|].
  - destruct (Coerce.truthy c).
    + destruct (findStatus (Coerce.toStr c)); destruct Hs as [Hd Hw]; rewrite Hw.
      * auto.
      * split; [exact Hd|]. rewrite statusWarnings_snoc, Hw0.
        now rewrite isStatusWarning_statusWarning.
    + destruct Hs as [Hd Hw]. rewrite Hw. auto.
  - destruct Hs as [Hd Hw]. rewrite Hw. auto.
Qed.

(** A value is outside the enumeration, whatever the case of its letters,
    exactly when the look-up of the validator finds nothing. *)
Lemma findStatus_none (original : string) :
  findStatus original = None <->
  (forall status, In status validStatuses ->
     Js.toLowerCase status <> Js.toLowerCase original).
Proof.
  unfold findStatus. split.
  - intros H status Hin Heq.
    pose proof (find_none _ _ H status Hin) as Hf. simpl in Hf.
    rewrite Heq, String.eqb_refl in Hf. discriminate.
  - intros H. destruct (List.find _ validStatuses) as [status|] eqn:Hf; [|reflexivity].
    apply find_some in Hf as [Hin Heq]. apply String.eqb_eq in Heq.
    now destruct (H status Hin).
Qed.

End ValidatorResults.

Section ValidatorTotal.
Import Validator.

Lemma total_pure (f : state -> state) : total (pure f).
Proof. intros st. now exists (f st). Qed.

Lemma total_andThen (f g : step) : total f -> total g -> total (andThen f g).
Proof.
  intros Hf Hg st. unfold andThen. destruct (Hf st) as [st1 ->]. apply Hg.
Qed.

Lemma textual_lookup (cd : clientData) (k : string) (c : cell) :
  textual cd -> cd !! k = Some c ->
  k <> "forecastedAmount" -> k <> "interactionCount" ->
  exists str, c = CStr str.
Proof.
  intros Ht Hk H1 H2. destruct (Ht k c Hk) as [?|[?|?]]; [congruence | congruence | assumption].
Qed.

Lemma total_checkName (cd : clientData) (rowNumber : Z) :
  textual cd -> total (checkName cd rowNumber).
Proof.
  intros Ht. unfold checkName. destruct (nameMissing cd) eqn:Hmiss; [apply total_pure|].
  destruct (cd !! "name") as [c|] eqn:Hn.
  - destruct (textual_lookup cd "name" c Ht Hn) as [str ->]; try discriminate.
    simpl. destruct (200 <? String.length str)%nat; apply total_pure.
  - unfold nameMissing in Hmiss. rewrite Hn in Hmiss. discriminate.
Qed.

Lemma total_checkEmail (cd : clientData) : textual cd -> total (checkEmail cd).
Proof.
  intros Ht. unfold checkEmail. destruct (cd !! "email") as [c|] eqn:Hn; [|apply total_pure].
  destruct (textual_lookup cd "email" c Ht Hn) as [str ->]; try discriminate.
  destruct (Coerce.truthy _); [|apply total_pure].
  destruct (negb _); apply total_pure.
Qed.

Lemma total_checkStatus (cd : clientData) : total (checkStatus cd).
Proof.
  unfold checkStatus. destruct (Coerce.truthyO _); [|apply total_pure].
  destruct (findStatus _); apply total_pure.
Qed.

Lemma total_checkText (cd : clientData) (key : string) (valid : string -> bool)
    (message : string) :
  textual cd -> key <> "forecastedAmount" -> key <> "interactionCount" ->
  total (checkText cd key valid message).
Proof.
  intros Ht H1 H2. unfold checkText.
  destruct (cd !! key) as [c|] eqn:Hn; [|apply total_pure].
  destruct (textual_lookup cd key c Ht Hn H1 H2) as [str ->].
  destruct (Coerce.truthy _); [|apply total_pure].
  destruct (negb _); apply total_pure.
Qed.

Lemma total_checkForecast (cd : clientData) : total (checkForecast cd).
Proof.
  unfold checkForecast. destruct (provided _); [|apply total_pure].
  destruct (Num.isNaN _); [apply total_pure|]. destruct (Num.ltZero _); apply total_pure.
Qed.

Lemma total_checkDate (env : Env) (cd : clientData) (key message : string) :
  total (checkDate env cd key message).
Proof.
  unfold checkDate. destruct (Coerce.truthyO _); [|apply total_pure].
  destruct (negb _); apply total_pure.
Qed.

Lemma total_checkInteraction (cd : clientData) : total (checkInteraction cd).
Proof.
  unfold checkInteraction. destruct (provided _); [|apply total_pure].
  destruct (_ || _); apply total_pure.
Qed.

Lemma total_checkId (cd : clientData) : total (checkId cd).
Proof.
  unfold checkId. destruct (cd !! "_id") as [[| |]|]; try apply total_pure;
    destruct (_ =? _)%nat; apply total_pure.
Qed.

Lemma total_checkOwner (env : Env) (cd : clientData) : total (checkOwner env cd).
Proof.
  unfold checkOwner. destruct (Coerce.truthyO _); [|apply total_pure].
  destruct (negb _); apply total_pure.
Qed.

Lemma total_copyFields (cd : clientData) (fs : list string) :
  textual cd ->
  Forall (fun f => f <> "forecastedAmount" /\ f <> "interactionCount") fs ->
  total (copyFields cd fs).
Proof.
  intros Ht Hfs. induction Hfs as [|f fs [H1 H2] _ IH]; simpl; [apply total_pure|].
  apply total_andThen; [|exact IH]. unfold copyField.
  destruct (cd !! f) as [c|] eqn:Hn; [|apply total_pure].
  destruct (textual_lookup cd f c Ht Hn H1 H2) as [str ->].
  destruct (Coerce.truthy _); apply total_pure.
Qed.

Lemma optionalFields_textual :
  Forall (fun f => f <> "forecastedAmount" /\ f <> "interactionCount") optionalFields.
Proof. unfold optionalFields. repeat constructor; discriminate. Qed.

(** On a draft whose properties are strings the validator does not throw. *)
Lemma validate_total (env : Env) (cd : clientData) (rowNumber : Z) :
  textual cd -> exists r, validateClientData env cd rowNumber = inr r.
Proof.
  intros Ht. unfold validateClientData.
  assert (Htot : total (run (steps env cd rowNumber))).
  { unfold steps, run. cbn [fold_right].
    repeat (apply total_andThen;
            [ first [ now apply total_checkName | now apply total_checkEmail
                    | apply total_checkStatus
                    | now apply total_checkText | apply total_checkForecast
                    | apply total_checkDate | apply total_checkInteraction
                    | apply total_checkId | apply total_checkOwner
                    | exact (total_copyFields cd optionalFields Ht optionalFields_textual)
                    | apply total_pure ] | ]).
    apply total_pure. }
  destruct (Htot {| data := ∅; errors := []; warnings := [] |}) as [st ->]. eauto.
Qed.

End ValidatorTotal.

Section MappingFacts.
Import Csv.

Lemma textual_insert_text (d : gmap string cell) (k str : string) :
  Validator.textual d -> Validator.textual (<[ k := CStr str ]> d).
Proof. intros H. apply map_Forall_insert_2; [eauto | exact H]. Qed.

Lemma textual_insert_amount (d : gmap string cell) (x : number) :
  Validator.textual d -> Validator.textual (<[ "forecastedAmount" := CNum x ]> d).
Proof. intros H. apply map_Forall_insert_2; [auto | exact H]. Qed.

Lemma initialMapped_textual : Validator.textual initialMapped.
Proof.
  unfold initialMapped. cbn [list_to_map foldr uncurry fst snd].
  repeat (first [ apply textual_insert_text
                | apply map_Forall_insert_2; [auto|] ]).
  apply map_Forall_empty.
Qed.

Lemma setMapped_text (k str : string) (m : mapping) :
  Validator.textual (mapped m) -> Validator.textual (mapped (setMapped k (CStr str) m)).
Proof. intros H. unfold setMapped. cbn [mapped]. now apply textual_insert_text. Qed.

Lemma mapColumn_textual (m : mapping) (kv : string * string) :
  Validator.textual (mapped m) -> Validator.textual (mapped (mapColumn m kv)).
Proof.
  intros H. unfold mapColumn. destruct kv as [key rawVal].
  destruct (isSensitive (Js.trim key)); [exact H|].
  generalize (normalizedMap !! normalizeHeader (Js.trim key)). intros looked.
  generalize (match looked with
              | Some t => Js.orElse t (Js.trim key)
              | None => Js.trim key
              end). intros target.
  generalize (if inList target plainTextTargets then Js.trim rawVal else rawVal).
  intros value.
  assert (H' : Validator.textual
                 (mapped (if String.eqb target "createdAt"
                          then setMapped "createdAtText" (CStr (Js.trim rawVal)) m
                          else m))).
  { destruct (String.eqb target "createdAt"); [now apply setMapped_text | exact H]. }
  generalize dependent (if String.eqb target "createdAt"
                        then setMapped "createdAtText" (CStr (Js.trim rawVal)) m
                        else m). intros m1 H1.
  destruct (String.eqb (normalizeHeader (Js.trim key)) (normalizeHeader "Client_id")).
  - destruct (negb (String.eqb (Js.trim value) "")); [|exact H1].
    now repeat apply setMapped_text.
  - destruct (bool_decide (looked = Some "forecastedAmount")).
    + unfold setMapped. cbn [mapped]. now apply textual_insert_amount.
    + now apply setMapped_text.
Qed.

Lemma mapRow_textual (userId : string) (r : parsedRow) :
  Validator.textual (mrData (mapRow userId r)).
Proof.
  unfold mapRow. cbn [mrData].
  assert (H : forall cs m, Validator.textual (mapped m) ->
                Validator.textual (mapped (fold_left mapColumn cs m))).
  { intros cs. induction cs as [|kv cs IH]; intros m Hm; [exact Hm|].
    cbn [fold_left]. apply IH, mapColumn_textual, Hm. }
  specialize (H (cells r) {| mapped := initialMapped; paymentRaw := Tokenize.emptyRaw |}
                initialMapped_textual).
  destruct (_ && _); [now apply textual_insert_text | exact H].
Qed.

(** Every mapped row passes the validator: none throws and none is invalid. *)
Lemma validateAll_total (env : Validator.Env) (userId : string)
    (rows : list parsedRow) (index : nat) :
  exists results,
    validateAll env index (List.map (mapRow userId) rows) = inr results
    /\ List.length results = List.length rows
    /\ List.filter (fun r => negb (Validator.isValid r)) results = []
    /\ List.filter Validator.isValid results = results.
Proof.
  revert index. induction rows as [|r rows IH]; intros index.
  - exists []. auto.
  - cbn [List.map validateAll].
    set (number := if mrNumber (mapRow userId r) =? 0 then _ else _).
    destruct (validate_total env (mrData (mapRow userId r)) number
                (mapRow_textual userId r)) as [res Hres].
    rewrite Hres. destruct (IH (S index)) as (ress & -> & Hlen & Hinv & Hval).
    exists (res :: ress). cbn [List.length List.filter].
    destruct (validate_errors_empty env _ _ _ Hres) as [_ ->]. cbn [negb].
    rewrite Hinv, Hval, Hlen. auto.
Qed.

End MappingFacts.

(** C6.  The validator of client rows never reports an error: whenever it
    returns, [errors] is empty and [isValid] is true.  On the rows the CSV
    mapping produces it always returns, so the batch validation yields one
    valid result per row and no invalid row. *)
Theorem validator_never_rejects :
  (forall env cd rowNumber r,
      Validator.validateClientData env cd rowNumber = inr r ->
      Validator.resultErrors r = [] /\ Validator.isValid r = true)
  /\ (forall env userId row rowNumber,
      exists r,
        Validator.validateClientData env (Csv.mrData (Csv.mapRow userId row)) rowNumber
        = inr r
        /\ Validator.resultErrors r = [] /\ Validator.isValid r = true)
  /\ (forall env userId rows,
      exists results,
        Csv.validateAll env 0 (List.map (Csv.mapRow userId) rows) = inr results
        /\ List.length results = List.length rows
        /\ List.filter (fun r => negb (Validator.isValid r)) results = []).
Proof.
  split; [exact validate_errors_empty|]. split.
  - intros env userId row rowNumber.
    destruct (validate_total env _ rowNumber (mapRow_textual userId row)) as [r Hr].
    exists r. split; [exact Hr | exact (validate_errors_empty _ _ _ _ Hr)].
  - intros env userId rows.
    destruct (validateAll_total env userId rows 0) as (results & H1 & H2 & H3 & _).
    eauto.
Qed.

Lemma interested_validates :
  Validator.validateClientData Sample.env
    (Csv.mrData (Csv.mapRow Sample.user Sample.interested)) 1
  = inr Sample.interestedResult.
Proof. vm_compute. reflexivity. Qed.

Lemma blankStatus_validates :
  Validator.validateClientData Sample.env
    (Csv.mrData (Csv.mapRow Sample.user Sample.blankStatus)) 2
  = inr Sample.blankStatusResult.
Proof. vm_compute. reflexivity. Qed.

(** The theorem on a line with an unknown contact status. *)
Lemma validator_never_rejects_witness :
  Validator.validateClientData Sample.env
    (Csv.mrData (Csv.mapRow Sample.user Sample.interested)) 1
  = inr Sample.interestedResult
  /\ Validator.resultErrors Sample.interestedResult = []
  /\ Validator.isValid Sample.interestedResult = true.
Proof.
  split; [exact interested_validates|].
  destruct validator_never_rejects as [H _].
  exact (H _ _ _ _ interested_validates).
Defined.

(** C5, as stated, fails on a blank contact status: the value is not one of
    the enumeration, the status defaults to Uncategorized, and yet no warning
    about it is emitted. *)
Lemma blank_status_is_not_warned :
  ~ (forall env cd rowNumber r v,
        Validator.validateClientData env cd rowNumber = inr r ->
        cd !! "contactStatus" = Some (CStr v) ->
        (forall status, In status Validator.validStatuses ->
           Js.toLowerCase status <> Js.toLowerCase v) ->
        Validator.validated r !! "contactStatus" = Some (JStr "Uncategorized")
        /\ Validator.statusWarnings (Validator.resultWarnings r)
           = [Validator.statusWarning v]).
Proof.
  intros H.
  destruct (H _ _ _ _ "" blankStatus_validates) as [_ Hw].
  - vm_compute. reflexivity.
  - intros status Hin. simpl in Hin.
    repeat (destruct Hin as [<-|Hin]; [vm_compute; discriminate|]). destruct Hin.
  - vm_compute in Hw. discriminate.
Qed.

(** C5, amended.  When the validator returns for a draft whose contact
    status is set (truthy) and matches no entry of the enumeration, whatever
    the case of the letters, the validated status is Uncategorized, exactly
    one warning about the contact status is emitted and it quotes the
    original value, and there is no error.  When the contact status is absent
    or empty the validated status is Uncategorized too, with no warning about
    it and no error. *)
Theorem unknown_status_defaults_with_warning :
  forall env cd rowNumber r,
    Validator.validateClientData env cd rowNumber = inr r ->
    (forall c,
        cd !! "contactStatus" = Some c -> Coerce.truthy c = true ->
        (forall status, In status Validator.validStatuses ->
           Js.toLowerCase status <> Js.toLowerCase (Coerce.toStr c)) ->
        Validator.validated r !! "contactStatus" = Some (JStr "Uncategorized")
        /\ Validator.statusWarnings (Validator.resultWarnings r)
           = [Validator.statusWarning (Coerce.toStr c)]
        /\ Validator.resultErrors r = [] /\ Validator.isValid r = true)
    /\ (Coerce.truthyO (cd !! "contactStatus") = false ->
        Validator.validated r !! "contactStatus" = Some (JStr "Uncategorized")
        /\ Validator.statusWarnings (Validator.resultWarnings r) = []
        /\ Validator.resultErrors r = [] /\ Validator.isValid r = true).
Proof.
  intros env cd rowNumber r H.
  pose proof (validate_status env cd rowNumber r H) as Hs.
  pose proof (validate_errors_empty env cd rowNumber r H) as He.
  split.
  - intros c Hc Ht Hnone. rewrite Hc, Ht in Hs.
    apply findStatus_none in Hnone. rewrite Hnone in Hs. tauto.
  - intros Hf. destruct (cd !! "contactStatus") as [c|]; simpl in Hf.
    + rewrite Hf in Hs. tauto.
    + tauto.
Qed.

(** The amended statement on the line whose contact status is Interested. *)
Lemma unknown_status_defaults_with_warning_witness :
  Validator.validateClientData Sample.env
    (Csv.mrData (Csv.mapRow Sample.user Sample.interested)) 1
  = inr Sample.interestedResult
  /\ Validator.validated Sample.interestedResult !! "contactStatus"
     = Some (JStr "Uncategorized")
  /\ Validator.statusWarnings (Validator.resultWarnings Sample.interestedResult)
     = [Validator.statusWarning "Interested"].
Proof.
  split; [exact interested_validates|].
  pose proof (unknown_status_defaults_with_warning _ _ _ _ interested_validates)
    as [Hunknown _].
  assert (Hall : forall status, In status Validator.validStatuses ->
                   Js.toLowerCase status <> Js.toLowerCase "Interested").
  { intros status Hin. simpl in Hin.
    repeat (destruct Hin as [<-|Hin]; [vm_compute; discriminate|]). destruct Hin. }
  assert (Hcell : Csv.mrData (Csv.mapRow Sample.user Sample.interested) !! "contactStatus"
                  = Some (CStr "Interested")) by (vm_compute; reflexivity).
  pose proof (Hunknown (CStr "Interested") Hcell eq_refl Hall) as (Hd & Hw & _).
  split; [exact Hd | exact Hw].
Defined.

(** * The name of a client *)

Section NameFacts.
Import Batch.

Lemma dropWhile_all (p : ascii -> bool) (l : list ascii) :
  forallb p l = true -> Js.dropWhile p l = [].
Proof. intros H. now destruct (takeWhile_all p l H). Qed.

Lemma dropWhile_snoc (p : ascii -> bool) (l : list ascii) (c : ascii) :
  p c = true ->
  Js.dropWhile p (l ++ [c]) = if forallb p l then [] else (Js.dropWhile p l ++ [c])%list.
Proof.
  intros Hc. induction l as [|a l IH]; simpl.
  - now rewrite Hc.
  - destruct (p a); simpl; [exact IH | reflexivity].
Qed.

(** A space added at the end is trimmed away. *)
Lemma trimL_snoc_space (l : list ascii) (c : ascii) :
  Js.isSpace c = true -> Js.trimL (l ++ [c]) = Js.trimL l.
Proof.
  intros Hc. unfold Js.trimL. rewrite (dropWhile_snoc _ _ _ Hc).
  destruct (forallb Js.isSpace l) eqn:Hall.
  - now rewrite (dropWhile_all _ _ Hall).
  - rewrite rev_app_distr. simpl. now rewrite Hc.
Qed.

Lemma trim_append_space (s : string) : Js.trim (s ++ " ") = Js.trim s.
Proof.
  unfold Js.trim. f_equal.
  replace (Js.chars (s ++ " ")) with (Js.chars s ++ [" "%char])%list.
  - now apply trimL_snoc_space.
  - induction s as [|a s IH]; simpl; [reflexivity | now rewrite IH].
Qed.

(** [[first, last].filter(Boolean).join(' ').trim()] is
    [(first + ' ' + last).trim()]. *)
Lemma firstLast_by_spec (o : doc) :
  firstLast o = Js.trim (prop o "firstName" ++ " " ++ prop o "lastName").
Proof.
  unfold firstLast. generalize (prop o "firstName"), (prop o "lastName").
  intros a b. simpl List.filter.
  destruct a as [|a0 a]; destruct b as [|b0 b]; try reflexivity.
  simpl Js.truthy. cbn [negb List.filter Js.join].
  change (String a0 a ++ " " ++ "") with (String a0 a ++ " ").
  symmetry. apply trim_append_space.
Qed.

Lemma orElse_empty (a : string) : Js.truthy a = false -> a = "".
Proof. destruct a; [reflexivity | discriminate]. Qed.

(** The derived name, and then the placeholder, is the chain of the
    specification. *)
Lemma derivedName_by_spec (o : doc) :
  (if Js.truthy (derivedName o) then derivedName o else "Unnamed Client")
  = Spec.nameBySpec (prop o "fullName") (prop o "company") (prop o "firstName")
      (prop o "lastName") (prop o "email") (prop o "phone").
Proof.
  unfold derivedName, Spec.nameBySpec. rewrite firstLast_by_spec.
  generalize (Js.trim (prop o "firstName" ++ " " ++ prop o "lastName")). intros fl.
  unfold Js.orElse. simpl Spec.firstNonEmpty.
  destruct (Js.truthy (prop o "fullName")) eqn:H1; [now rewrite H1|].
  destruct (Js.truthy (prop o "company")) eqn:H2; [now rewrite H2|].
  destruct (Js.truthy fl) eqn:H3; [now rewrite H3|].
  destruct (Js.truthy (prop o "email")) eqn:H4; [now rewrite H4|].
  destruct (Js.truthy (prop o "phone")) eqn:H5; [now rewrite H5|].
  reflexivity.
Qed.

Lemma prop_insert_eq (o : doc) (k v : string) : prop (<[ k := JStr v ]> o) k = v.
Proof. unfold prop. now rewrite lookup_insert_eq. Qed.

Lemma prop_insert_ne (o : doc) (k k' : string) (v : jsval) :
  k <> k' -> prop (<[ k := v ]> o) k' = prop o k'.
Proof. intros H. unfold prop. now rewrite lookup_insert_ne. Qed.

(** The name after [sanitizeRow]. *)
Lemma sanitizeRow_name (userId : string) (r : row) :
  prop (sanitizeRow userId r) "name"
  = if Js.truthy (prop (sanitized r) "name") then prop (sanitized r) "name"
    else Spec.nameBySpec (prop (sanitized r) "fullName") (prop (sanitized r) "company")
           (prop (sanitized r) "firstName") (prop (sanitized r) "lastName")
           (prop (sanitized r) "email") (prop (sanitized r) "phone").
Proof.
  rewrite <- derivedName_by_spec. unfold sanitizeRow.
  generalize (sanitized r). intros out.
  assert (Hname : forall o : doc,
             prop (if negb (Js.truthy (prop o "ownedBy")) && negb (Js.truthy (prop o "owner"))
                   then <[ "ownedBy" := JStr userId ]> o else o) "name" = prop o "name").
  { intros o. destruct (_ && _); [|reflexivity]. now apply prop_insert_ne. }
  rewrite Hname.
  destruct (Js.truthy (prop out "name")) eqn:Hn; simpl negb; cbv iota.
  - now rewrite Hn.
  - rewrite prop_insert_eq.
    destruct (Js.truthy (derivedName out)) eqn:Hd; simpl negb; cbv iota.
    + apply prop_insert_eq.
    + apply prop_insert_eq.
Qed.

Lemma nameBySpec_truthy (a b c d e f : string) :
  Js.truthy (Spec.nameBySpec a b c d e f) = true.
Proof.
  unfold Spec.nameBySpec. simpl.
  repeat match goal with |- context [if Js.truthy ?x then _ else _] =>
           let H := fresh in destruct (Js.truthy x) eqn:H; [exact H|] end.
  reflexivity.
Qed.

Lemma sanitizeRow_name_truthy (userId : string) (r : row) :
  Js.truthy (prop (sanitizeRow userId r) "name") = true.
Proof.
  rewrite sanitizeRow_name.
  destruct (Js.truthy (prop (sanitized r) "name")) eqn:H; [exact H|].
  apply nameBySpec_truthy.
Qed.

(** No row is skipped by the loop of the batch import. *)
Lemma rowOp_some (userId : string) (skipValidation : bool) (gen : string) (r : row) :
  exists op, rowOp userId skipValidation gen r = Some op.
Proof.
  unfold rowOp. rewrite sanitizeRow_name_truthy. cbn [negb andb].
  destruct (Js.truthy (prop (sanitizeRow userId r) "_id")); [eauto|].
  destruct (Js.truthy (prop (sanitizeRow userId r) "email")); eauto.
Qed.

Lemma literal_keys (r : row) : (literal r).*1 = literalKeys.
Proof. reflexivity. Qed.

Lemma literalKeys_NoDup : NoDup literalKeys.
Proof. refine (bool_decide_unpack (NoDup literalKeys) _). vm_compute. reflexivity. Qed.

(** A property of the literal is the value written next to its name. *)
Lemma sanitized_lookup (r : row) (k : string) (v : jsval) :
  (k, v) ∈ literal r -> sanitized r !! k = Some v.
Proof.
  intros H. unfold sanitized. apply elem_of_list_to_map_1; [|exact H].
  rewrite literal_keys. exact literalKeys_NoDup.
Qed.

Ltac literal_member :=
  unfold Batch.literal;
  repeat first [ apply list_elem_of_here | apply list_elem_of_further ].

(** The properties the name is derived from, as the row gives them. *)
Lemma sanitized_columns (r : row) :
  prop (sanitized r) "name" = column r ["name"; "clientname"; "customername"]
  /\ prop (sanitized r) "fullName" = column r ["fullName"; "full_name"; "fullname"]
  /\ prop (sanitized r) "company"
     = column r ["company"; "companyName"; "company_name"; "business";
                 "organization"; "org"; "companyname"]
  /\ prop (sanitized r) "firstName"
     = column r ["firstName"; "first_name"; "firstname"; "givenname"]
  /\ prop (sanitized r) "lastName"
     = column r ["lastName"; "last_name"; "lastname"; "surname"; "familyname"]
  /\ prop (sanitized r) "email" = Js.toLowerCase (column r ["email"; "e-mail"])
  /\ prop (sanitized r) "phone"
     = column r ["phone"; "telephone"; "mobile"; "phoneNumber"; "phone_number"].
Proof.
  unfold prop, column.
  repeat split;
    match goal with |- match sanitized r !! ?k with _ => _ end = ?v =>
      rewrite (sanitized_lookup r k (JStr v)); [reflexivity | literal_member]
    end.
Qed.

End NameFacts.

Lemma fallbackName_order (cd : Validator.clientData) (rowNumber : Z) :
  Validator.fallbackName cd rowNumber
  = Spec.firstNonEmpty
      [ Validator.trimmedIfAny (cd !! "fullName");
        Validator.trimmedIfAny (cd !! "email");
        Validator.trimmedIfAny (cd !! "externalId") ]
      ("Unnamed Client " ++ Num.intText rowNumber).
Proof. reflexivity. Qed.

Lemma acme_validates :
  Validator.validateClientData Sample.env
    (Csv.mrData (Csv.mapRow Sample.user Sample.acme)) (Csv.rowNumber Sample.acme)
  = inr Sample.acmeResult.
Proof. vm_compute. reflexivity. Qed.

Lemma nameless_validates :
  Validator.validateClientData Sample.env
    (Csv.mrData (Csv.mapRow Sample.user Sample.nameless)) (Csv.rowNumber Sample.nameless)
  = inr Sample.namelessResult.
Proof. vm_compute. reflexivity. Qed.

(** C2, as stated, fails on the CSV path: a line without a name, with a
    company and an e-mail address, is named after the e-mail address, not
    after the company. *)
Lemma csv_name_skips_company :
  ~ (forall env userId row r,
        Validator.validateClientData env (Csv.mrData (Csv.mapRow userId row))
          (Csv.rowNumber row) = inr r ->
        Csv.cellOf row "Name" = "" ->
        Validator.validated r !! "name"
        = Some (JStr (Spec.nameBySpec (Csv.cellOf row "Full Name")
                        (Csv.cellOf row "Company") (Csv.cellOf row "First Name")
                        (Csv.cellOf row "Last Name") (Csv.cellOf row "Email")
                        (Csv.cellOf row "Phone")))).
Proof.
  intros H. specialize (H _ _ _ _ acme_validates eq_refl).
  vm_compute in H. discriminate H.
Qed.

(** The placeholder of the CSV path carries the row number. *)
Lemma csv_placeholder_is_numbered :
  Validator.validated Sample.namelessResult !! "name" = Some (JStr "Unnamed Client 4").
Proof. vm_compute. reflexivity. Qed.

(** C2, amended.  In the JSON path a row whose name column is blank is named
    by the order fullName, company alias, firstName + " " + lastName trimmed,
    email, phone, and last "Unnamed Client"; the name is never empty and no
    row is skipped.  In the CSV path the validator names a row whose name is
    missing or shorter than two characters by the order fullName, email,
    externalId, and last "Unnamed Client " followed by the row number, cut to
    200 characters; the validated name is never empty, and every mapped row
    comes out of the batch validation as a valid row. *)
Theorem name_is_derived_and_never_empty :
  (forall userId r,
      (Batch.prop (Batch.sanitized r) "name" = "" ->
       Batch.prop (Batch.sanitizeRow userId r) "name"
       = Spec.nameBySpec (Batch.prop (Batch.sanitized r) "fullName")
           (Batch.prop (Batch.sanitized r) "company")
           (Batch.prop (Batch.sanitized r) "firstName")
           (Batch.prop (Batch.sanitized r) "lastName")
           (Batch.prop (Batch.sanitized r) "email")
           (Batch.prop (Batch.sanitized r) "phone"))
      /\ Batch.prop (Batch.sanitizeRow userId r) "name" <> ""
      /\ (forall skipValidation gen,
            exists op, Batch.rowOp userId skipValidation gen r = Some op))
  /\ (forall env cd rowNumber r,
      Validator.validateClientData env cd rowNumber = inr r ->
      Validator.validated r !! "name" = Some (JStr (Validator.validatedName cd rowNumber))
      /\ Validator.validatedName cd rowNumber <> ""
      /\ (Validator.nameMissing cd = true ->
          Validator.validatedName cd rowNumber
          = Js.sliceTo 200
              (Spec.firstNonEmpty
                 [ Validator.trimmedIfAny (cd !! "fullName");
                   Validator.trimmedIfAny (cd !! "email");
                   Validator.trimmedIfAny (cd !! "externalId") ]
                 ("Unnamed Client " ++ Num.intText rowNumber))))
  /\ (forall env userId rows,
      exists results,
        Csv.validateAll env 0 (List.map (Csv.mapRow userId) rows) = inr results
        /\ List.length results = List.length rows
        /\ List.filter Validator.isValid results = results).
Proof.
  split; [|split].
  - intros userId r. split; [|split].
    + intros Hblank. rewrite sanitizeRow_name, Hblank. reflexivity.
    + apply truthy_nonempty, sanitizeRow_name_truthy.
    + intros skipValidation gen. apply rowOp_some.
  - intros env cd rowNumber r H.
    destruct (validate_name env cd rowNumber r H) as [Hn Hne].
    split; [exact Hn|]. split; [exact Hne|].
    intros Hmiss. unfold Validator.validatedName. now rewrite Hmiss.
  - intros env userId rows.
    destruct (validateAll_total env userId rows 0) as (results & H1 & H2 & _ & H4).
    eauto.
Qed.

(** The amended statement on a JSON row with a first and a last name, and on
    the CSV line with a company and an e-mail address. *)
Lemma name_is_derived_and_never_empty_witness :
  Batch.prop (Batch.sanitizeRow Sample.user Sample.annLee) "name" = "Ann Lee"
  /\ Validator.validated Sample.acmeResult !! "name" = Some (JStr "a@b.co").
Proof.
  destruct name_is_derived_and_never_empty as (Hjson & Hcsv & _). split.
  - destruct (Hjson Sample.user Sample.annLee) as (Hchain & _).
    rewrite Hchain; vm_compute; reflexivity.
  - destruct (Hcsv _ _ _ _ acme_validates) as (Hn & _).
    rewrite Hn. vm_compute. reflexivity.
Defined.

(** * Identity resolution *)

Section IdentityFacts.
Import Store.







Lemma setPayload_kept (data : gmap string jsval) (k : string) :
  ~ In k Csv.EXCLUDE_KEYS -> Csv.setPayload data !! k = data !! k.
Proof.
  intros Hk. unfold Csv.setPayload.
  assert (Hin : Csv.inList k Csv.EXCLUDE_KEYS = false).
  { unfold Csv.inList. destruct (existsb _ _) eqn:He; [|reflexivity].
    apply existsb_exists in He as (x & Hx & Heq). apply String.eqb_eq in Heq.
    subst. contradiction. }
  destruct (data !! k) as [v|] eqn:Hd.
  - apply map_lookup_filter_Some_2; [exact Hd|]. cbn [fst]. now rewrite Hin.
  - apply map_lookup_filter_None_2. now left.
Qed.


End IdentityFacts.







(** * Timestamps *)

Section TimestampFacts.
Import Store.

(** A property that [$set] does not name keeps its value in a matched
    document. *)
Lemma applySet_keeps (u : update) (d : ClientDoc) (k : string) :
  set u !! k = None -> applySet u d !! k = fields d !! k.
Proof.
  intros H. unfold applySet, withoutId. apply lookup_union_r.
  apply lookup_delete_None. now right.
Qed.

(** The insert-only date is the hint when the row carries a date, and the
    clock when it carries none. *)
Lemma createdOnInsert_hint (env : Validator.Env) (data : gmap string jsval)
    (now t : Z) :
  data !! "createdAt" = Some (JDate t) -> Csv.createdOnInsert env data now = t.
Proof. intros H. unfold Csv.createdOnInsert. now rewrite H. Qed.

Lemma createdOnInsert_clock (env : Validator.Env) (data : gmap string jsval)
    (now : Z) :
  data !! "createdAt" = None -> Csv.createdOnInsert env data now = now.
Proof. intros H. unfold Csv.createdOnInsert. now rewrite H. Qed.


End TimestampFacts.


(** * Card data in the imported record *)

Section CardFacts.

(** Deriving the name and the owner leaves the other properties of the
    literal as they are. *)
Lemma sanitizeRow_other (userId : string) (r : Batch.row) (k : string) :
  k <> "name" -> k <> "ownedBy" ->
  Batch.prop (Batch.sanitizeRow userId r) k = Batch.prop (Batch.sanitized r) k.
Proof.
  intros Hname Howned. unfold Batch.sanitizeRow.
  generalize (Batch.sanitized r). intros out.
  repeat match goal with
         | |- context [if ?b then _ else _] => destruct b
         | |- Batch.prop (<[ _ := _ ]> _) k = _ =>
             rewrite prop_insert_ne by congruence
         end; reflexivity.
Qed.


End CardFacts.


(** * Payment methods of a client *)

Section PaymentMethodFacts.
Import Payment.

Lemma defaults_cons (e : Entry) (l : list Entry) :
  defaults (e :: l) = ((if isDefault e then 1 else 0) + defaults l)%nat.
Proof. unfold defaults. simpl. now destruct (isDefault e). Qed.

Lemma defaults_le_length (l : list Entry) : (defaults l <= List.length l)%nat.
Proof. unfold defaults. apply List.filter_length_le. Qed.

(** Where [findIndex] stops: at the first entry with the identifier. *)
Lemma indexOfId_Some (pid : string) (l : list Entry) (i : nat) :
  indexOfId pid l = Some i ->
  exists l1 e l2,
    l = (l1 ++ e :: l2)%list /\ List.length l1 = i /\ id e = pid
    /\ Forall (fun x => id x <> pid) l1.
Proof.
  revert i. induction l as [|x l IH]; intros i H; [discriminate|].
  simpl in H. destruct (String.eqb (id x) pid) eqn:Hx.
  - injection H as <-. apply String.eqb_eq in Hx.
    exists [], x, l. auto.
  - destruct (indexOfId pid l) as [k|]; [|discriminate]. injection H as <-.
    destruct (IH k eq_refl) as (l1 & e & l2 & -> & Hlen & He & Hall).
    exists (x :: l1), e, l2. simpl. repeat split; auto.
    constructor; [|exact Hall]. now apply String.eqb_neq.
Qed.


Lemma indexOfId_fresh_app (pid : string) (l1 : list Entry) (e : Entry) (l2 : list Entry) :
  Forall (fun x => id x <> pid) l1 -> id e = pid ->
  indexOfId pid (l1 ++ e :: l2) = Some (List.length l1).
Proof.
  intros Hall He. induction Hall as [|x l Hx Hall IH]; simpl.
  - apply String.eqb_eq in He. now rewrite He.
  - apply String.eqb_neq in Hx. now rewrite Hx, IH.
Qed.

Lemma splice1_middle (l1 : list Entry) (e : Entry) (l2 : list Entry) :
  splice1 (List.length l1) (l1 ++ e :: l2) = (l1 ++ l2)%list.
Proof.
  unfold splice1. induction l1 as [|x l1 IH]; simpl; [reflexivity|].
  simpl in IH. now rewrite IH.
Qed.

Lemma nth_error_middle (l1 : list Entry) (e : Entry) (l2 : list Entry) :
  nth_error (l1 ++ e :: l2) (List.length l1) = Some e.
Proof. induction l1 as [|x l1 IH]; [reflexivity | exact IH]. Qed.

(** What a removal that completes does to the list. *)
Lemma removePaymentMethod_effect (b : Block) (pid : string) (after : option Block) :
  removePaymentMethod (Some b) pid = inr after ->
  exists l1 e l2,
    paymentMethods b = (l1 ++ e :: l2)%list
    /\ id e = pid /\ Forall (fun x => id x <> pid) l1
    /\ after = Some {| stripeCustomerId := stripeCustomerId b;
                       paymentMethods :=
                         if isDefault e then promoteFirst (l1 ++ l2) else (l1 ++ l2)%list |}.
Proof.
  unfold removePaymentMethod.
  destruct (indexOfId pid (paymentMethods b)) as [i|] eqn:Hi; [|discriminate].
  destruct (indexOfId_Some _ _ _ Hi) as (l1 & e & l2 & Hl & Hlen & He & Hall).
  intros H. injection H as <-. exists l1, e, l2.
  split; [exact Hl|]. split; [exact He|]. split; [exact Hall|].
  rewrite Hl, <- Hlen, nth_error_middle, splice1_middle.
  destruct (isDefault e); [|reflexivity]. simpl.
  destruct (l1 ++ l2)%list; reflexivity.
Qed.

Lemma defaults_promoteFirst (l : list Entry) :
  defaults l = 0%nat -> l <> [] -> defaults (promoteFirst l) = 1%nat.
Proof.
  destruct l as [|x l]; [congruence|]. intros H _. simpl.
  rewrite defaults_cons in *. simpl. destruct (isDefault x); lia.
Qed.

Lemma defaults_onlyDefault (i : nat) (l : list Entry) :
  (i < List.length l)%nat -> defaults (onlyDefault i l) = 1%nat.
Proof.
  revert i. induction l as [|x l IH]; intros i Hi; simpl in Hi; [lia|].
  destruct i as [|k]; simpl; rewrite defaults_cons; simpl.
  - now rewrite defaults_cleared.
  - apply IH. lia.
Qed.


(** An attachment to a list in order leaves exactly one default. *)
Lemma addPaymentMethod_one_default (block : option Block) (data : PaymentMethodData)
    (now : Z) (after : Block) :
  oneDefault (methodsOf block) ->
  addPaymentMethod block data now = inr after ->
  defaults (paymentMethods after) = 1%nat.
Proof.
  intros Hinv H.
  rewrite (addPaymentMethod_inv _ _ _ _ H), defaults_app.
  destruct (Nat.eqb (List.length (methodsOf block)) 0) eqn:Hlen; simpl.
  - rewrite defaults_cleared. reflexivity.
  - destruct (pm_isDefault data); simpl.
    + rewrite defaults_cleared. reflexivity.
    + destruct Hinv as [Hnil | Hone]; [now rewrite Hnil in Hlen|].
      rewrite Hone. reflexivity.
Qed.

End PaymentMethodFacts.

(** X1.  The three operations on the payment methods of a client keep the
    list in order.  From a list that is empty or has exactly one default, an
    attachment that completes leaves exactly one default and a removal that
    completes leaves the list empty or with exactly one default; a completed
    choice of the default leaves exactly one default whatever the list
    was. *)
Theorem payment_methods_keep_one_default :
  (forall block data now after,
      Payment.oneDefault (Payment.methodsOf block) ->
      Payment.addPaymentMethod block data now = inr after ->
      Payment.defaults (Payment.paymentMethods after) = 1%nat)
  /\ (forall block paymentMethodId after,
      Payment.oneDefault (Payment.methodsOf block) ->
      Payment.removePaymentMethod block paymentMethodId = inr after ->
      Payment.oneDefault (Payment.methodsOf after))
  /\ (forall block paymentMethodId after,
      Payment.setDefaultPaymentMethod block paymentMethodId = inr after ->
      Payment.defaults (Payment.paymentMethods after) = 1%nat).
Proof.
  split; [|split].
  - exact addPaymentMethod_one_default.
  - intros [b|] pid after Hinv H.
    + destruct (removePaymentMethod_effect b pid after H)
        as (l1 & e & l2 & Hl & _ & _ & ->).
      simpl in Hinv. rewrite Hl in Hinv.
      destruct Hinv as [Hnil | Hone]; [now destruct l1|].
      rewrite defaults_app, defaults_cons in Hone. simpl.
      destruct (Payment.isDefault e).
      * destruct (l1 ++ l2)%list as [|x l] eqn:Hrest; [now left|]. right.
        apply defaults_promoteFirst; [|discriminate].
        rewrite <- Hrest, defaults_app. lia.
      * right. rewrite defaults_app. lia.
    + injection H as <-. now left.
  - intros [b|] pid after H; [|discriminate]. simpl in H.
    destruct (Payment.indexOfId pid (Payment.paymentMethods b)) as [i|] eqn:Hi;
      [|discriminate].
    injection H as <-. simpl. apply defaults_onlyDefault.
    destruct (indexOfId_Some _ _ _ Hi) as (l1 & e & l2 & -> & <- & _).
    rewrite length_app. simpl. lia.
Qed.

(** The three parts on a client with one card: a second card is attached
    without the default flag, the only card is removed, the only card is
    chosen as the default. *)
Lemma payment_methods_keep_one_default_witness :
  (exists after,
      Payment.addPaymentMethod Sample.oneCard (Sample.amex0005 false) 7 = inr after
      /\ Payment.defaults (Payment.paymentMethods after) = 1%nat)
  /\ Payment.oneDefault
       (Payment.methodsOf
          (Some {| Payment.stripeCustomerId := None; Payment.paymentMethods := [] |}))
  /\ Payment.defaults [Sample.visa4242] = 1%nat.
Proof.
  destruct payment_methods_keep_one_default as (Hadd & Hremove & Hset).
  assert (Hinv : Payment.oneDefault (Payment.methodsOf Sample.oneCard))
    by (right; reflexivity).
  split; [|split].
  - eexists. split; [reflexivity|].
    exact (Hadd Sample.oneCard (Sample.amex0005 false) 7 _ Hinv eq_refl).
  - exact (Hremove Sample.oneCard "pm_1" _ Hinv eq_refl).
  - exact (Hset Sample.oneCard "pm_1" _ eq_refl).
Defined.





(** X4.  Attaching a method and removing it again gives back the payment
    block, when the client already has a method, the new method does not ask
    to be the default and its identifier is not in use. *)
Theorem add_then_remove_restores :
  forall b data now after,
    Payment.paymentMethods b <> [] ->
    Payment.pm_isDefault data = false ->
    Forall (fun e => Payment.id e <> Payment.pm_id data) (Payment.paymentMethods b) ->
    Payment.addPaymentMethod (Some b) data now = inr after ->
    Payment.removePaymentMethod (Some after) (Payment.pm_id data) = inr (Some b).
Proof.
  intros b data now after Hne Hflag Hfresh H.
  unfold Payment.addPaymentMethod in H.
  destruct (_ || _); [discriminate|]. injection H as <-.
  rewrite Hflag.
  destruct (Payment.paymentMethods b) as [|x l] eqn:Hl; [congruence|].
  cbn [List.length Nat.eqb orb]. cbv iota.
  unfold Payment.removePaymentMethod. cbn [Payment.paymentMethods Payment.stripeCustomerId].
  rewrite indexOfId_fresh_app by (exact Hfresh || reflexivity).
  rewrite nth_error_middle, splice1_middle. cbn [Payment.isDefault orb andb].
  rewrite app_nil_r. destruct b as [customer methods]. simpl in *. now rewrite Hl.
Qed.

Lemma add_then_remove_restores_witness :
  exists after,
    Payment.addPaymentMethod Sample.oneCard (Sample.amex0005 false) 7 = inr after
    /\ Payment.removePaymentMethod (Some after) "pm_2" = inr Sample.oneCard.
Proof.
  eexists. split; [reflexivity|].
  apply (add_then_remove_restores
           {| Payment.stripeCustomerId := None;
              Payment.paymentMethods := [Sample.visa4242] |}
           (Sample.amex0005 false) 7).
  - discriminate.
  - reflexivity.
  - constructor; [discriminate | constructor].
  - reflexivity.
Defined.

Section DefaultMethod.
Import Payment.

Lemma find_cleared (l tail : list Entry) :
  List.find isDefault (List.map (setDefault false) l ++ tail) = List.find isDefault tail.
Proof. induction l as [|x l IH]; [reflexivity | exact IH]. Qed.

Lemma find_default (l : list Entry) :
  (0 < defaults l)%nat -> exists e, List.find isDefault l = Some e /\ isDefault e = true.
Proof.
  induction l as [|x l IH]; intros H; [inversion H|]. simpl.
  destruct (isDefault x) eqn:Hx; [eauto|].
  apply IH. rewrite defaults_cons, Hx in H. exact H.
Qed.

End DefaultMethod.

(** X5.  After an attachment that completes the client has a payment
    method.  When the method asked to be the default, or is the first one,
    the computed default is the entry just attached; and from a list that
    was in order the computed default is an entry flagged as default. *)
Theorem computed_default_after_add :
  forall block data now after,
    Payment.addPaymentMethod block data now = inr after ->
    Payment.hasPaymentMethod (Some after) = true
    /\ (Payment.pm_isDefault data = true \/ Payment.methodsOf block = [] ->
        Payment.computedDefaultPaymentMethod (Some after)
        = Some {| Payment.id := Payment.pm_id data;
                  Payment.brand := Payment.pm_brand data;
                  Payment.last4 := Payment.pm_last4 data;
                  Payment.expMonth := Payment.pm_expMonth data;
                  Payment.expYear := Payment.pm_expYear data;
                  Payment.nameOnCard := Payment.pm_nameOnCard data;
                  Payment.billingZip := Payment.pm_billingZip data;
                  Payment.isDefault := true;
                  Payment.createdAt := now |})
    /\ (Payment.oneDefault (Payment.methodsOf block) ->
        exists e, Payment.computedDefaultPaymentMethod (Some after) = Some e
                  /\ Payment.isDefault e = true).
Proof.
  intros block data now after H.
  pose proof (addPaymentMethod_inv _ _ _ _ H) as Hl. cbv zeta in Hl.
  split; [|split].
  - unfold Payment.hasPaymentMethod. rewrite Hl, length_app. simpl.
    now rewrite Nat.add_comm.
  - intros Hflag. unfold Payment.computedDefaultPaymentMethod. rewrite Hl.
    assert (Hflip : (Nat.eqb (List.length (Payment.methodsOf block)) 0
                     || Payment.pm_isDefault data)%bool = true).
    { destruct Hflag as [-> | ->]; [apply orb_true_r | reflexivity]. }
    rewrite Hflip, find_cleared. reflexivity.
  - intros Hinv. unfold Payment.computedDefaultPaymentMethod.
    pose proof (addPaymentMethod_one_default _ _ _ _ Hinv H) as Hone.
    destruct (find_default (Payment.paymentMethods after)) as (e & -> & He); [lia|].
    eauto.
Qed.

Lemma computed_default_after_add_witness :
  exists after e,
    Payment.addPaymentMethod Sample.oneCard (Sample.amex0005 true) 7 = inr after
    /\ Payment.computedDefaultPaymentMethod (Some after) = Some e
    /\ Payment.id e = "pm_2".
Proof.
  eexists. eexists. split; [reflexivity|].
  destruct (computed_default_after_add Sample.oneCard (Sample.amex0005 true) 7 _ eq_refl)
    as (_ & Hnew & _).
  split; [exact (Hnew (or_introl eq_refl)) | reflexivity].
Defined.

(** * The patterns of the validator and of the tokenizer *)

Section RegexFacts.
Import Re.

Lemma nullable_lang (r : regex) : nullable r = true <-> lang r [].
Proof.
  induction r as [| |p|a IHa b IHb|a IHa b IHb|a IHa]; simpl.
  - split; [discriminate | tauto].
  - tauto.
  - split; [discriminate|]. intros (c & H & _). discriminate.
  - rewrite andb_true_iff, IHa, IHb. split.
    + intros [Ha Hb]. exists [], []. auto.
    + intros (l1 & l2 & H & Ha & Hb). symmetry in H.
      apply app_eq_nil in H as [-> ->]. auto.
  - rewrite orb_true_iff, IHa, IHb. tauto.
  - split; [constructor | reflexivity].
Qed.

Lemma lang_seq (a b : regex) (l : list ascii) : lang (seq a b) l <-> lang (Seq a b) l.
Proof.
  assert (Hvoid_l : forall r, lang (Seq Void r) l <-> False).
  { intros r. simpl. split; [|tauto]. intros (? & ? & _ & [] & _). }
  assert (Hvoid_r : forall r, lang (Seq r Void) l <-> False).
  { intros r. simpl. split; [|tauto]. intros (? & ? & _ & _ & []). }
  assert (Heps_l : forall r, lang (Seq Eps r) l <-> lang r l).
  { intros r. simpl. split.
    - intros (l1 & l2 & -> & -> & H). exact H.
    - intros H. exists [], l. auto. }
  assert (Heps_r : forall r, lang (Seq r Eps) l <-> lang r l).
  { intros r. simpl. split.
    - intros (l1 & l2 & -> & H & ->). now rewrite app_nil_r.
    - intros H. exists l, []. rewrite app_nil_r. auto. }
  destruct a; destruct b; unfold seq;
    rewrite ?Hvoid_l, ?Hvoid_r, ?Heps_l, ?Heps_r; simpl; tauto.
Qed.

Lemma lang_alt (a b : regex) (l : list ascii) : lang (alt a b) l <-> lang a l \/ lang b l.
Proof. destruct a; destruct b; simpl; tauto. Qed.

(** A non-empty member of a starred language starts with a non-empty member
    of the language. *)
Lemma star_cons (P : list ascii -> Prop) (c : ascii) (l : list ascii) :
  star P (c :: l) ->
  exists l1 l2, l = (l1 ++ l2)%list /\ P (c :: l1) /\ star P l2.
Proof.
  intros H. remember (c :: l) as cl eqn:Hcl. revert c l Hcl.
  induction H as [|l1 l2 H1 H2 IH]; intros c l Hcl; [discriminate|].
  destruct l1 as [|x l1].
  - simpl in Hcl. exact (IH c l Hcl).
  - simpl in Hcl. injection Hcl as -> <-. exists l1, l2. auto.
Qed.

Lemma deriv_lang (r : regex) (c : ascii) (l : list ascii) :
  lang (deriv c r) l <-> lang r (c :: l).
Proof.
  revert l. induction r as [| |p|a IHa b IHb|a IHa b IHb|a IHa]; intros l; simpl.
  - tauto.
  - split; [tauto | discriminate].
  - destruct (p c) eqn:Hp; simpl.
    + split.
      * intros ->. eauto.
      * intros (x & H & _). now injection H.
    + split; [tauto|]. intros (x & H & Hx). injection H as <- _. congruence.
  - rewrite lang_alt, lang_seq. simpl. split.
    + intros [(l1 & l2 & -> & Ha & Hb) | H].
      * exists (c :: l1), l2. rewrite <- IHa. auto.
      * destruct (nullable a) eqn:Hn; [|destruct H].
        exists [], (c :: l). rewrite <- IHb, <- nullable_lang. auto.
    + intros (l1 & l2 & H & Ha & Hb). destruct l1 as [|x l1].
      * right. simpl in H. subst l2. apply nullable_lang in Ha. rewrite Ha.
        now apply IHb.
      * left. simpl in H. injection H as <- ->. exists l1, l2.
        rewrite IHa. auto.
  - rewrite lang_alt, IHa, IHb. tauto.
  - rewrite lang_seq. simpl. split.
    + intros (l1 & l2 & -> & Ha & Hs).
      apply (star_app (lang a) (c :: l1) l2); [now apply IHa | exact Hs].
    + intros H. apply star_cons in H as (l1 & l2 & -> & Ha & Hs).
      exists l1, l2. rewrite IHa. auto.
Qed.

(** The matcher decides membership in the language. *)
Lemma matchesL_lang (r : regex) (l : list ascii) : matchesL r l = true <-> lang r l.
Proof.
  unfold matchesL. revert r. induction l as [|c l IH]; intros r; simpl.
  - apply nullable_lang.
  - rewrite IH. apply deriv_lang.
Qed.

Lemma test_lang (r : regex) (str : string) : test r str = true <-> lang r (Js.chars str).
Proof. apply matchesL_lang. Qed.

(** The languages of the building blocks. *)
Lemma lang_lit (a : ascii) (l : list ascii) :
  lang (lit (String a EmptyString)) l <-> l = [a].
Proof.
  simpl. split.
  - intros (c & -> & H). apply Ascii.eqb_eq in H. now subst.
  - intros ->. exists a. split; [reflexivity | apply Ascii.eqb_refl].
Qed.

Lemma lang_opt (r : regex) (l : list ascii) : lang (opt r) l <-> l = [] \/ lang r l.
Proof. reflexivity. Qed.

Lemma lang_times (n : nat) (p : ascii -> bool) (l : list ascii) :
  lang (times n (Class p)) l <-> List.length l = n /\ forallb p l = true.
Proof.
  revert l. induction n as [|n IH]; intros l; simpl.
  - split; [intros ->; auto | intros [H _]; now destruct l].
  - split.
    + intros (l1 & l2 & -> & (c & -> & Hc) & H2). apply IH in H2 as [<- H2].
      simpl. now rewrite Hc, H2.
    + intros [Hlen Hall]. destruct l as [|c l]; [discriminate|].
      simpl in Hall. apply andb_true_iff in Hall as [Hc Hall].
      exists [c], l. split; [reflexivity|]. split; [eauto|].
      apply IH. simpl in Hlen. auto.
Qed.

Lemma lang_upto (n : nat) (p : ascii -> bool) (l : list ascii) :
  lang (upto n (Class p)) l <-> (List.length l <= n)%nat /\ forallb p l = true.
Proof.
  revert l. induction n as [|n IH]; intros l; simpl.
  - split; [intros ->; auto | intros [H _]; destruct l; [reflexivity | simpl in H; lia]].
  - split.
    + intros [-> | (l1 & l2 & -> & (c & -> & Hc) & H2)]; [simpl; split; [lia | reflexivity]|].
      apply IH in H2 as [Hlen H2]. simpl. rewrite Hc, H2. split; [lia | reflexivity].
    + intros [Hlen Hall]. destruct l as [|c l]; [now left|]. right.
      simpl in Hall. apply andb_true_iff in Hall as [Hc Hall].
      exists [c], l. split; [reflexivity|]. split; [eauto|].
      apply IH. simpl in Hlen. split; [lia | exact Hall].
Qed.

Lemma lang_rep (lo hi : nat) (p : ascii -> bool) (l : list ascii) :
  (lo <= hi)%nat ->
  lang (rep lo hi (Class p)) l
  <-> (lo <= List.length l <= hi)%nat /\ forallb p l = true.
Proof.
  intros Hle. unfold rep.
  change (lang (Seq ?a ?b) l)
    with (exists l1 l2, l = (l1 ++ l2)%list /\ lang a l1 /\ lang b l2).
  split.
  - intros (l1 & l2 & -> & H1 & H2).
    apply lang_times in H1 as [H1 A1]. apply lang_upto in H2 as [H2 A2].
    rewrite length_app, forallb_app, A1, A2. split; [lia | reflexivity].
  - intros [Hlen Hall]. exists (firstn lo l), (skipn lo l).
    rewrite firstn_skipn. split; [reflexivity|].
    rewrite <- (firstn_skipn lo l), forallb_app in Hall.
    apply andb_true_iff in Hall as [A1 A2].
    split; [apply lang_times | apply lang_upto].
    + rewrite firstn_length_le by lia. auto.
    + rewrite length_skipn. split; [lia | exact A2].
Qed.

Lemma lang_star_class (p : ascii -> bool) (l : list ascii) :
  lang (Star (Class p)) l <-> forallb p l = true.
Proof.
  simpl. split.
  - intros H. induction H as [|l1 l2 (c & -> & Hc) _ IH]; [reflexivity|].
    simpl. now rewrite Hc, IH.
  - induction l as [|c l IH]; intros H; [constructor|].
    simpl in H. apply andb_true_iff in H as [Hc H].
    apply (star_app _ [c] l); [exists c; auto | auto].
Qed.

Lemma lang_plus_class (p : ascii -> bool) (l : list ascii) :
  lang (plus (Class p)) l <-> l <> [] /\ forallb p l = true.
Proof.
  unfold plus.
  change (lang (Seq ?a ?b) l)
    with (exists l1 l2, l = (l1 ++ l2)%list /\ lang a l1 /\ lang b l2).
  split.
  - intros (l1 & l2 & -> & (c & -> & Hc) & H2). apply lang_star_class in H2.
    simpl. rewrite Hc, H2. split; [discriminate | reflexivity].
  - intros [Hne Hall]. destruct l as [|c l]; [congruence|].
    simpl in Hall. apply andb_true_iff in Hall as [Hc Hall].
    exists [c], l. split; [reflexivity|]. split; [exists c; auto|].
    now apply lang_star_class.
Qed.

End RegexFacts.

Section AddressFacts.
Import Re Validator.

Lemma word_addressChar (l : list ascii) :
  forallb Js.isWord l = true -> forallb addressChar l = true.
Proof.
  intros H. apply forallb_forall. intros c Hc.
  unfold addressChar. rewrite (proj1 (forallb_forall _ _) H c Hc). reflexivity.
Qed.

Lemma oneOf_dot_hyphen (c : ascii) :
  existsb (Ascii.eqb c) (Js.chars ".-") = true -> addressChar c = true.
Proof.
  simpl. rewrite orb_false_r. intros H. apply orb_prop in H as [H|H];
    apply Ascii.eqb_eq in H; subst; reflexivity.
Qed.

(** One group [[.-]?\w+] *)
Lemma lang_label (l : list ascii) :
  lang (Seq (opt (oneOf ".-")) (plus w)) l -> forallb addressChar l = true.
Proof.
  intros (l1 & l2 & -> & H1 & H2).
  apply lang_plus_class in H2 as [_ H2]. apply word_addressChar in H2.
  rewrite forallb_app, H2, andb_true_r.
  destruct H1 as [-> | (c & -> & Hc)]; [reflexivity|].
  simpl. now rewrite (oneOf_dot_hyphen c Hc).
Qed.

Lemma lang_labels (l : list ascii) :
  lang (Star (Seq (opt (oneOf ".-")) (plus w))) l -> forallb addressChar l = true.
Proof.
  intros H. change (star (lang (Seq (opt (oneOf ".-")) (plus w))) l) in H.
  induction H as [|l1 l2 H1 _ IH]; [reflexivity|].
  rewrite forallb_app, IH, andb_true_r. now apply lang_label.
Qed.

(** One group [\.\w{2,3}] *)
Lemma lang_suffix (l : list ascii) :
  lang (Seq (lit ".") (rep 2 3 w)) l ->
  exists tld, l = "."%char :: tld /\ forallb Js.isWord tld = true
              /\ (2 <= List.length tld <= 3)%nat.
Proof.
  intros (l1 & l2 & -> & H1 & H2). apply lang_lit in H1 as ->.
  apply lang_rep in H2 as [Hlen Hall]; [|lia]. exists l2. auto.
Qed.

(** The groups [(\.\w{2,3})+] end with a dot and two or three characters of
    a word. *)
Lemma lang_suffixes (tld rest : list ascii) :
  forallb Js.isWord tld = true -> (2 <= List.length tld <= 3)%nat ->
  star (lang (Seq (lit ".") (rep 2 3 w))) rest ->
  exists before last,
    ("."%char :: tld ++ rest)%list = (before ++ "."%char :: last)%list
    /\ forallb addressChar before = true
    /\ forallb Js.isWord last = true /\ (2 <= List.length last <= 3)%nat.
Proof.
  intros Hw Hlen H. revert tld Hw Hlen.
  induction H as [|l1 l2 H1 _ IH]; intros tld Hw Hlen.
  - exists [], tld. rewrite app_nil_r. auto.
  - apply lang_suffix in H1 as (t & -> & Ht & Htlen).
    destruct (IH t Ht Htlen) as (before & last & Heq & Hb & Hl & Hllen).
    exists ("."%char :: tld ++ before)%list, last.
    split; [|split; [|auto]].
    + simpl. f_equal. rewrite <- app_assoc. f_equal. exact Heq.
    + simpl. rewrite forallb_app, Hb, (word_addressChar _ Hw). reflexivity.
Qed.

Lemma phoneSeparator_not_digit (c : ascii) :
  phoneSeparator c = true -> Js.isDigit c = false.
Proof.
  intros H. destruct (Js.isDigit c) eqn:Hd; [|reflexivity].
  pose proof (digit_not_space c Hd) as Hs. apply digit_range in Hd.
  unfold phoneSeparator in H. rewrite Hs, orb_false_r in H.
  apply orb_prop in H as [H|H]; apply isChar_code in H; lia.
Qed.

End AddressFacts.

(** X6.  An e-mail address the validator accepts has exactly one at sign,
    with text before and after it; every other character is a letter, a
    digit, an underscore, a dot or a hyphen; and the address ends with a dot
    followed by two or three letters, digits or underscores. *)
Theorem valid_email_shape :
  forall email,
    Validator.isValidEmail email = true ->
    exists local domain last,
      Js.chars email = (local ++ "@"%char :: domain ++ "."%char :: last)%list
      /\ local <> [] /\ domain <> []
      /\ forallb Validator.addressChar local = true
      /\ forallb Validator.addressChar domain = true
      /\ forallb Js.isWord last = true
      /\ (2 <= List.length last <= 3)%nat.
Proof.
  intros email H. apply test_lang in H.
  destruct H as (a & r1 & -> & Ha & b & r2 & -> & Hb & at' & r3 & -> & Hat
                 & c & r4 & -> & Hc & d & r5 & -> & Hd & e & r6 & -> & He & ->).
  apply lang_lit in Hat as ->.
  apply lang_plus_class in Ha as [Hane Ha]. apply word_addressChar in Ha.
  apply lang_plus_class in Hc as [Hcne Hc]. apply word_addressChar in Hc.
  apply lang_labels in Hb. apply lang_labels in Hd.
  destruct He as (first & rest & -> & Hfirst & Hrest).
  apply lang_suffix in Hfirst as (tld & -> & Htld & Hlen).
  destruct (lang_suffixes tld rest Htld Hlen Hrest) as (before & last & Heq & Hbefore & Hlast & Hllen).
  exists (a ++ b)%list, (c ++ d ++ before)%list, last.
  split; [|split; [|split; [|split; [|split; [|split]]]]].
  - rewrite app_nil_r. simpl in Heq. rewrite <- !app_assoc. simpl.
    rewrite Heq. reflexivity.
  - destruct a; [congruence | discriminate].
  - destruct c; [congruence | discriminate].
  - now rewrite forallb_app, Ha, Hb.
  - now rewrite !forallb_app, Hc, Hd, Hbefore.
  - exact Hlast.
  - exact Hllen.
Qed.

Lemma valid_email_shape_witness :
  exists local domain last,
    Js.chars "ann.lee@example.com"
    = (local ++ "@"%char :: domain ++ "."%char :: last)%list
    /\ (2 <= List.length last <= 3)%nat.
Proof.
  destruct (valid_email_shape "ann.lee@example.com" eq_refl)
    as (local & domain & last & H & _ & _ & _ & _ & _ & Hlen).
  exists local, domain, last. split; assumption.
Defined.

Section PhoneFacts.
Import Re Validator.

Lemma filter_digits (l : list ascii) :
  forallb Js.isDigit l = true -> List.filter Js.isDigit l = l.
Proof.
  induction l as [|c l IH]; simpl; [reflexivity|]. intros H.
  apply andb_true_iff in H as [Hc H]. now rewrite Hc, IH.
Qed.

Lemma digits_phoneChar (l : list ascii) :
  forallb Js.isDigit l = true -> forallb phoneChar l = true.
Proof.
  intros H. apply forallb_forall. intros c Hc. unfold phoneChar.
  now rewrite (proj1 (forallb_forall _ _) H c Hc).
Qed.

Lemma phonePart_app (l1 l2 : list ascii) (d1 c1 d2 c2 : nat) :
  phonePart l1 d1 c1 -> phonePart l2 d2 c2 -> phonePart (l1 ++ l2) (d1 + d2) (c1 + c2).
Proof.
  intros (A1 & D1 & C1) (A2 & D2 & C2). unfold phonePart.
  rewrite forallb_app, List.filter_app, !length_app, A1, A2, D1, D2, C1, C2. auto.
Qed.

Lemma phonePart_sign (a : ascii) (l : list ascii) :
  phoneChar a = true -> Js.isDigit a = false ->
  lang (opt (lit (String a EmptyString))) l -> exists k, (k <= 1)%nat /\ phonePart l 0 k.
Proof.
  intros Ha Hd [-> | H].
  - exists 0%nat. repeat split. lia.
  - apply lang_lit in H as ->. exists 1%nat. unfold phonePart. simpl.
    rewrite Ha, Hd. auto.
Qed.

Lemma phonePart_separator (l : list ascii) :
  lang (opt (Class phoneSeparator)) l -> exists k, (k <= 1)%nat /\ phonePart l 0 k.
Proof.
  intros [-> | (c & -> & Hc)].
  - exists 0%nat. repeat split. lia.
  - exists 1%nat. unfold phonePart, phoneChar. simpl.
    rewrite (phoneSeparator_not_digit c Hc), Hc, !orb_true_r. auto.
Qed.

Lemma phonePart_digits (l : list ascii) :
  forallb Js.isDigit l = true -> phonePart l (List.length l) (List.length l).
Proof.
  intros H. unfold phonePart. now rewrite (filter_digits l H), (digits_phoneChar l H).
Qed.

End PhoneFacts.

(** X7.  A phone number the validator accepts is empty, or is made of
    digits, a plus sign, parentheses, hyphens, dots and white space only,
    with ten to twelve digits among at most seventeen characters. *)
Theorem valid_phone_shape :
  forall phone,
    Validator.isValidPhone phone = true ->
    phone = ""
    \/ (forallb Validator.phoneChar (Js.chars phone) = true
        /\ (10 <= List.length (List.filter Js.isDigit (Js.chars phone)) <= 12)%nat
        /\ (10 <= String.length phone <= 17)%nat).
Proof.
  intros phone H. unfold Validator.isValidPhone in H.
  destruct (Js.truthy phone) eqn:Ht; simpl in H.
  2:{ left. destruct phone; [reflexivity | discriminate]. }
  right. apply test_lang in H. rewrite <- length_chars.
  destruct H as (p1 & r1 & -> & H1 & p2 & r2 & -> & H2 & p3 & r3 & -> & H3
                 & p4 & r4 & -> & H4 & p5 & r5 & -> & H5 & p6 & r6 & -> & H6
                 & p7 & r7 & -> & H7 & p8 & r8 & -> & H8 & ->).
  apply (phonePart_sign "+") in H1 as (k1 & K1 & P1); [|reflexivity..].
  apply (phonePart_sign "(") in H2 as (k2 & K2 & P2); [|reflexivity..].
  apply lang_times in H3 as [L3 A3]. apply phonePart_digits in A3. rewrite L3 in A3.
  apply (phonePart_sign ")") in H4 as (k4 & K4 & P4); [|reflexivity..].
  apply phonePart_separator in H5 as (k5 & K5 & P5).
  apply lang_times in H6 as [L6 A6]. apply phonePart_digits in A6. rewrite L6 in A6.
  apply phonePart_separator in H7 as (k7 & K7 & P7).
  apply lang_rep in H8 as [L8 A8]; [|lia]. apply phonePart_digits in A8.
  rewrite app_nil_r.
  pose proof (phonePart_app _ _ _ _ _ _ P1
                (phonePart_app _ _ _ _ _ _ P2
                   (phonePart_app _ _ _ _ _ _ A3
                      (phonePart_app _ _ _ _ _ _ P4
                         (phonePart_app _ _ _ _ _ _ P5
                            (phonePart_app _ _ _ _ _ _ A6
                               (phonePart_app _ _ _ _ _ _ P7 A8)))))))
    as (Hall & Hdigits & Hchars).
  rewrite Hall, Hdigits, Hchars. split; [reflexivity|]. lia.
Qed.

Lemma valid_phone_shape_witness :
  (10 <= List.length (List.filter Js.isDigit (Js.chars "(555) 123-4567")) <= 12)%nat.
Proof.
  destruct (valid_phone_shape "(555) 123-4567" eq_refl) as [Hempty | (_ & Hd & _)];
    [discriminate | exact Hd].
Defined.

Section DateFacts.
Import Re Validator.

Lemma inRange_bounds (lo hi : N) (c : ascii) :
  Js.inRange lo hi c = true -> (lo <= Js.code c <= hi)%N.
Proof.
  unfold Js.inRange. intros H. apply andb_prop in H as [H1 H2].
  apply N.leb_le in H1. apply N.leb_le in H2. lia.
Qed.

Lemma bounds_inRange (lo hi : N) (c : ascii) :
  (lo <= Js.code c <= hi)%N -> Js.inRange lo hi c = true.
Proof.
  unfold Js.inRange. intros [H1 H2]. apply andb_true_intro.
  split; apply N.leb_le; assumption.
Qed.

Lemma code_inj (a b : ascii) : Js.code a = Js.code b -> a = b.
Proof.
  unfold Js.code. intros H. rewrite <- (ascii_N_embedding a), <- (ascii_N_embedding b).
  now rewrite H.
Qed.

Lemma lang_pair (p q : ascii -> bool) (l : list ascii) :
  lang (Seq (Class p) (Seq (Class q) Eps)) l
  <-> exists a b, l = [a; b] /\ p a = true /\ q b = true.
Proof.
  split.
  - intros (l1 & l2 & -> & (a & -> & Ha) & l3 & l4 & -> & (b & -> & Hb) & ->).
    exists a, b. auto.
  - intros (a & b & -> & Ha & Hb).
    exists [a], [b]. split; [reflexivity|]. split; [exists a; auto|].
    exists [b], []. split; [reflexivity|]. split; [exists b; auto | reflexivity].
Qed.

Lemma digitsVal_pair (a b : ascii) :
  Num.digitsVal [a; b] = Num.digitVal a * 10 + Num.digitVal b.
Proof. unfold Num.digitsVal. simpl. lia. Qed.

(** Two digits and the number they write. *)
Lemma two_digits (a b : ascii) :
  Js.isDigit a = true -> Js.isDigit b = true ->
  exists x y, (Js.code a = 48 + x)%N /\ (Js.code b = 48 + y)%N
              /\ (x <= 9)%N /\ (y <= 9)%N
              /\ Num.digitsVal [a; b] = Z.of_N x * 10 + Z.of_N y.
Proof.
  intros Ha Hb. apply digit_range in Ha. apply digit_range in Hb.
  exists (Js.code a - 48)%N, (Js.code b - 48)%N.
  rewrite digitsVal_pair. unfold Num.digitVal. repeat split; lia.
Qed.

Lemma char_of_code (c : ascii) (k : N) : Js.code c = k -> c = ascii_of_N k.
Proof. unfold Js.code. intros <-. symmetry. apply ascii_N_embedding. Qed.

Ltac literal_codes :=
  repeat match goal with
         | H : Ascii.eqb _ _ = true |- _ => apply Ascii.eqb_eq in H; subst
         | H : Js.inRange _ _ _ = true |- _ => apply inRange_bounds in H
         | H : existsb _ _ = true |- _ =>
             simpl in H; rewrite ?orb_false_r in H;
             repeat match type of H with
                    | (_ || _)%bool = true => apply orb_prop in H as [H|H]
                    end
         end.

Ltac two_chars :=
  do 2 eexists; split; [reflexivity|];
  split; [apply bounds_inRange; cbn in *; lia|];
  split; [apply bounds_inRange; cbn in *; lia|];
  rewrite digitsVal_pair; unfold Num.digitVal; cbn in *; lia.

(** The month field: two digits that write 1 to 12. *)
Lemma lang_month (l : list ascii) :
  lang monthRe l
  <-> exists a b, l = [a; b] /\ Js.isDigit a = true /\ Js.isDigit b = true
                  /\ 1 <= Num.digitsVal [a; b] <= 12.
Proof.
  unfold monthRe, alts, seqs, lit, range. split.
  - intros [H|H]; apply lang_pair in H as (a & b & -> & Ha & Hb); literal_codes;
      unfold Js.isDigit; two_chars.
  - intros (a & b & -> & Ha & Hb & Hm).
    destruct (two_digits a b Ha Hb) as (x & y & Hx & Hy & Bx & By & Hv).
    rewrite Hv in Hm.
    assert (Hc : x = 0%N \/ x = 1%N) by lia.
    destruct Hc as [-> | ->]; [left | right]; apply lang_pair; exists a, b;
      (split; [reflexivity|]); split;
      try (rewrite (char_of_code a _ Hx); reflexivity);
      apply bounds_inRange; cbn; lia.
Qed.

(** The day field: two digits that write 1 to 31. *)
Lemma lang_day (l : list ascii) :
  lang dayRe l
  <-> exists a b, l = [a; b] /\ Js.isDigit a = true /\ Js.isDigit b = true
                  /\ 1 <= Num.digitsVal [a; b] <= 31.
Proof.
  unfold dayRe, alts, seqs, lit, range, oneOf. split.
  - intros [H|[H|H]]; apply lang_pair in H as (a & b & -> & Ha & Hb); literal_codes;
      unfold Js.isDigit; two_chars.
  - intros (a & b & -> & Ha & Hb & Hm).
    destruct (two_digits a b Ha Hb) as (x & y & Hx & Hy & Bx & By & Hv).
    rewrite Hv in Hm.
    assert (Hc : x = 0%N \/ (x = 1%N \/ x = 2%N) \/ x = 3%N) by lia.
    destruct Hc as [-> | [Hc | ->]];
      [ left | right; left | right; right ];
      apply lang_pair; exists a, b; (split; [reflexivity|]); split;
      try (rewrite (char_of_code a _ Hx); reflexivity);
      try (apply bounds_inRange; cbn; lia).
    + destruct Hc as [-> | ->]; rewrite (char_of_code a _ Hx); reflexivity.
    + assert (Hd : y = 0%N \/ y = 1%N) by lia.
      destruct Hd as [-> | ->]; rewrite (char_of_code b _ Hy); reflexivity.
Qed.

Lemma digitsVal_bound (l : list ascii) (acc : Z) :
  forallb Js.isDigit l = true -> 0 <= acc ->
  acc * 10 ^ Z.of_nat (List.length l)
  <= fold_left (fun acc c => acc * 10 + Num.digitVal c) l acc
  < (acc + 1) * 10 ^ Z.of_nat (List.length l).
Proof.
  revert acc. induction l as [|c l IH]; intros acc H Hacc.
  - simpl. lia.
  - simpl in H. apply andb_true_iff in H as [Hc H]. apply digit_range in Hc.
    cbn [fold_left List.length]. rewrite Nat2Z.inj_succ, Z.pow_succ_r by lia.
    assert (Hv : 0 <= Num.digitVal c <= 9) by (unfold Num.digitVal; lia).
    specialize (IH (acc * 10 + Num.digitVal c) H ltac:(lia)).
    assert (Hp : 0 < 10 ^ Z.of_nat (List.length l)) by (apply Z.pow_pos_nonneg; lia).
    nia.
Qed.

(** The year field: four digits. *)
Lemma lang_year (l : list ascii) :
  lang (times 4 d) l -> List.length l = 4%nat /\ 0 <= Num.digitsVal l <= 9999.
Proof.
  intros H. apply lang_times in H as [Hlen H]. split; [exact Hlen|].
  pose proof (digitsVal_bound l 0 H ltac:(lia)) as Hb. rewrite Hlen in Hb.
  unfold Num.digitsVal. simpl in Hb. lia.
Qed.

(** The three fields of a string of one of the two slash formats. *)
Lemma slash_fields (first second : regex) (str : string) :
  test (seqs [first; lit "/"; second; lit "/"; times 4 d]) str = true
  <-> exists f s y,
        Js.chars str = (f ++ "/"%char :: s ++ "/"%char :: y)%list
        /\ lang first f /\ lang second s /\ lang (times 4 d) y.
Proof.
  rewrite test_lang. split.
  - intros (f & r1 & -> & Hf & s1 & r2 & -> & Hs1 & s & r3 & -> & Hs
            & s2 & r4 & -> & Hs2 & y & r5 & -> & Hy & ->).
    apply lang_lit in Hs1 as ->. apply lang_lit in Hs2 as ->.
    exists f, s, y. rewrite app_nil_r. split; [reflexivity|]. auto.
  - intros (f & s & y & -> & Hf & Hs & Hy).
    exists f, ("/"%char :: s ++ "/"%char :: y)%list. split; [reflexivity|].
    split; [exact Hf|].
    exists ["/"%char], (s ++ "/"%char :: y)%list. split; [reflexivity|].
    split; [now apply lang_lit|].
    exists s, ("/"%char :: y)%list. split; [reflexivity|]. split; [exact Hs|].
    exists ["/"%char], y. split; [reflexivity|]. split; [now apply lang_lit|].
    exists y, []. rewrite app_nil_r. split; [reflexivity|]. split; [exact Hy | reflexivity].
Qed.

Lemma parts_of (str : string) (a b c e : ascii) (ys : list ascii) :
  Js.chars str = ([a; b; "/"%char; c; e; "/"%char] ++ ys)%list ->
  List.length ys = 4%nat ->
  part 0 2 str = Num.digitsVal [a; b]
  /\ part 3 5 str = Num.digitsVal [c; e]
  /\ part 6 10 str = Num.digitsVal ys.
Proof.
  intros Hl Hlen. unfold part, Js.slice. rewrite Hl, !chars_text.
  cbn [firstn skipn Nat.sub app]. split; [reflexivity|]. split; [reflexivity|].
  now rewrite <- Hlen, firstn_all.
Qed.

(** A value that passes the check of dates is read as a date. *)
Lemma valid_date_parses (env : Env) (v : option cell) :
  isValidDate env v = true -> Coerce.truthyO v = true ->
  exists t, parseDate env v = Some t.
Proof.
  destruct v as [c|]; simpl; [|discriminate]. intros H Ht. rewrite Ht in *. simpl in *.
  destruct (dateOf env c) as [t|]; [eauto|].
  destruct (test usFormat (Coerce.toStr c)); [eauto|].
  destruct (test euFormat (Coerce.toStr c)); [eauto | discriminate].
Qed.

End DateFacts.

(** X8.  A value passes [isValidDate] exactly when it is empty or
    [parseDate] reads a date from it: the validator never lets through a
    date that the parser then answers with null. *)
Theorem isValidDate_agrees_with_parseDate :
  forall env v,
    Validator.isValidDate env v = true
    <-> Coerce.truthyO v = false \/ exists t, Validator.parseDate env v = Some t.
Proof.
  intros env [c|]; simpl; [|split; auto].
  destruct (Coerce.truthy c) eqn:Ht; simpl.
  2:{ split; auto. }
  destruct (Validator.dateOf env c) as [t|].
  { split; eauto. }
  destruct (Re.test Validator.usFormat (Coerce.toStr c)).
  { split; eauto. }
  destruct (Re.test Validator.euFormat (Coerce.toStr c)).
  { split; eauto. }
  split; [discriminate|]. intros [H | [t H]]; discriminate.
Qed.

(** X9.  The slash formats of [parseDate], for a text that the [Date]
    constructor does not read.  A text of the form MM/DD/YYYY is read month
    first, with a month from 1 to 12 and a day from 1 to 31; the form
    DD/MM/YYYY is reached only when the first field is 13 or more, so a text
    that fits both forms is read month first; any other text gives null. *)
Theorem slash_dates_are_read_month_first :
  forall env str,
    Js.truthy str = true ->
    Validator.dateParse env str = None ->
    (Re.test Validator.usFormat str = true ->
       exists month day year,
         Validator.parseDate env (Some (CStr str))
         = Some (Validator.dateLocal env year (month - 1) day)
         /\ 1 <= month <= 12 /\ 1 <= day <= 31 /\ 0 <= year <= 9999)
    /\ (Re.test Validator.usFormat str = false ->
        Re.test Validator.euFormat str = true ->
        exists day month year,
          Validator.parseDate env (Some (CStr str))
          = Some (Validator.dateLocal env year (month - 1) day)
          /\ 13 <= day <= 31 /\ 1 <= month <= 12 /\ 0 <= year <= 9999)
    /\ (Re.test Validator.usFormat str = false ->
        Re.test Validator.euFormat str = false ->
        Validator.parseDate env (Some (CStr str)) = None).
Proof.
  intros env str Ht Hd.
  assert (Hp : forall u e,
             Re.test Validator.usFormat str = u -> Re.test Validator.euFormat str = e ->
             Validator.parseDate env (Some (CStr str))
             = if u then Some (Validator.dateLocal env (Validator.part 6 10 str)
                                 (Validator.part 0 2 str - 1) (Validator.part 3 5 str))
               else if e then Some (Validator.dateLocal env (Validator.part 6 10 str)
                                      (Validator.part 3 5 str - 1) (Validator.part 0 2 str))
               else None).
  { intros u e Hu He. unfold Validator.parseDate.
    cbn [Coerce.truthy Coerce.toStr Validator.dateOf]. rewrite Ht, Hd, Hu, He. reflexivity. }
  split; [|split].
  - intros Hu. rewrite (Hp true _ Hu eq_refl).
    apply slash_fields in Hu as (f & s & y & Hl & Hf & Hs & Hy).
    apply lang_month in Hf as (a & b & -> & _ & _ & Hm).
    apply lang_day in Hs as (c & e & -> & _ & _ & Hday).
    apply lang_year in Hy as [Hlen Hy].
    destruct (parts_of str a b c e y Hl Hlen) as (-> & -> & ->).
    eexists _, _, _. split; [reflexivity|]. auto.
  - intros Hu He. rewrite (Hp false true Hu He).
    pose proof He as He'.
    apply slash_fields in He as (f & s & y & Hl & Hf & Hs & Hy).
    apply lang_day in Hf as (a & b & -> & Ha & Hb & Hday).
    apply lang_month in Hs as (c & e & -> & Hc & He & Hm).
    pose proof Hy as Hy'. apply lang_year in Hy as [Hlen Hy].
    destruct (parts_of str a b c e y Hl Hlen) as (-> & -> & ->).
    eexists _, _, _. split; [reflexivity|].
    split; [|auto]. split; [|lia].
    destruct (Z_lt_le_dec (Num.digitsVal [a; b]) 13) as [Hlow|]; [|lia].
    assert (Hus : Re.test Validator.usFormat str = true).
    { apply slash_fields. exists [a; b], [c; e], y.
      split; [exact Hl|]. split; [|split; [|exact Hy']].
      - apply lang_month. exists a, b. repeat split; auto; lia.
      - apply lang_day. exists c, e. repeat split; auto; lia. }
    congruence.
  - intros Hu He. exact (Hp false false Hu He).
Qed.

Lemma slash_dates_are_read_month_first_witness :
  exists day month year,
    Validator.parseDate Sample.env (Some (CStr "25/12/2020"))
    = Some (Validator.dateLocal Sample.env year (month - 1) day)
    /\ 13 <= day <= 31.
Proof.
  destruct (slash_dates_are_read_month_first Sample.env "25/12/2020" eq_refl eq_refl)
    as (_ & Heu & _).
  destruct (Heu eq_refl eq_refl) as (day & month & year & H & Hday & _).
  exists day, month, year. split; assumption.
Defined.

Section BrandFacts.
Import Re Tokenize.

Ltac break_lang :=
  repeat match goal with
         | H : lang (times _ (Class _)) _ |- _ =>
             apply lang_times in H; destruct H as [? ?]
         | H : lang (Seq _ _) _ |- _ => destruct H as (? & ? & ? & ? & ?); subst
         | H : lang (Alt _ _) _ |- _ => destruct H as [H|H]
         | H : lang (Class _) _ |- _ => destruct H as (? & ? & ?); subst
         | H : lang Eps _ |- _ => simpl in H; subst
         | H : lang Void _ |- _ => destruct H
         end.

Ltac measure H :=
  rewrite <- length_chars, H, ?length_app; cbn [List.length]; lia.

(** The numbers named mastercard have 16 digits that start with 5, or 15
    digits that start with 2. *)
Lemma mastercard_shape (pan : string) :
  test mastercardRe pan = true ->
  (String.length pan = 16%nat /\ exists rest, Js.chars pan = "5"%char :: rest)
  \/ (String.length pan = 15%nat /\ exists rest, Js.chars pan = "2"%char :: rest).
Proof.
  intros H. apply test_lang in H.
  unfold mastercardRe, seqs, alts, lit, range, oneOf, d in H.
  destruct H as (head & tail & Hpan & Hhead & Htail).
  destruct Hhead as [H5 | H2].
  - left. break_lang.
    match goal with H : Ascii.eqb _ _ = true |- _ => apply Ascii.eqb_eq in H; subst end.
    split; [measure Hpan | rewrite Hpan; simpl; eauto].
  - right. destruct H2 as (two & more & -> & Htwo & Hmore). destruct Htwo as (c & -> & Hc).
    apply Ascii.eqb_eq in Hc. subst c.
    break_lang; (split; [measure Hpan | rewrite Hpan; simpl; eauto]).
Qed.

Lemma amex_shape (pan : string) :
  test amexRe pan = true ->
  String.length pan = 15%nat
  /\ exists second rest, Js.chars pan = "3"%char :: second :: rest
                         /\ (second = "4"%char \/ second = "7"%char).
Proof.
  intros H. apply test_lang in H. unfold amexRe, seqs, lit, oneOf, d in H.
  destruct H as (l1 & r1 & Hpan & (c1 & -> & H1) & l2 & r2 & -> & (c2 & -> & H2)
                 & l3 & r3 & -> & H3 & ->).
  apply lang_times in H3 as [Hlen _]. apply Ascii.eqb_eq in H1. subst c1.
  split; [measure Hpan|]. exists c2, (l3 ++ [])%list. split; [exact Hpan|].
  simpl in H2. rewrite orb_false_r in H2.
  apply orb_prop in H2 as [H2|H2]; apply Ascii.eqb_eq in H2; auto.
Qed.

Lemma discover_shape (pan : string) :
  test discoverRe pan = true ->
  String.length pan = 16%nat /\ exists rest, Js.chars pan = "6"%char :: rest.
Proof.
  intros H. apply test_lang in H.
  unfold discoverRe, seqs, alts, lit, range, oneOf, d in H.
  destruct H as [H | [H | [H | H]]];
    destruct H as (six & more & Hpan & (c & -> & Hc) & Hmore);
    apply Ascii.eqb_eq in Hc; subst c;
    break_lang; (split; [measure Hpan | rewrite Hpan; simpl; eauto]).
Qed.

Lemma visa_shape (pan : string) :
  test visaRe pan = true
  <-> exists rest, Js.chars pan = "4"%char :: rest
                   /\ forallb Js.isDigit rest = true
                   /\ (12 <= List.length rest <= 18)%nat.
Proof.
  rewrite test_lang. unfold visaRe, seqs. split.
  - intros (l1 & r1 & Hpan & H1 & l2 & r2 & -> & H2 & ->).
    apply lang_lit in H1 as ->. apply lang_rep in H2 as [Hlen Hall]; [|lia].
    exists l2. rewrite Hpan, app_nil_r. auto.
  - intros (rest & -> & Hall & Hlen).
    exists ["4"%char], rest. split; [reflexivity|]. split; [now apply lang_lit|].
    exists rest, []. rewrite app_nil_r. split; [reflexivity|].
    split; [|reflexivity]. apply lang_rep; [lia | auto].
Qed.

End BrandFacts.

(** X10.  The brand of a card number.  A number is named visa exactly when
    it is a 4 followed by 12 to 18 digits.  A number named mastercard has 16
    digits that start with 5 or 15 digits that start with 2, so that no
    number of 16 digits that starts with 2 is named mastercard; a number
    named amex has 15 digits that start with 34 or 37; a number named
    discover has 16 digits that start with 6. *)
Theorem detectBrand_shapes :
  forall pan,
    (Tokenize.detectBrand pan = "visa"
     <-> exists rest, Js.chars pan = "4"%char :: rest
                      /\ forallb Js.isDigit rest = true
                      /\ (12 <= List.length rest <= 18)%nat)
    /\ (Tokenize.detectBrand pan = "mastercard" ->
        (String.length pan = 16%nat /\ exists rest, Js.chars pan = "5"%char :: rest)
        \/ (String.length pan = 15%nat /\ exists rest, Js.chars pan = "2"%char :: rest))
    /\ (Tokenize.detectBrand pan = "amex" ->
        String.length pan = 15%nat
        /\ exists second rest, Js.chars pan = "3"%char :: second :: rest
                               /\ (second = "4"%char \/ second = "7"%char))
    /\ (Tokenize.detectBrand pan = "discover" ->
        String.length pan = 16%nat /\ exists rest, Js.chars pan = "6"%char :: rest).
Proof.
  intros pan. unfold Tokenize.detectBrand.
  pose proof (visa_shape pan) as Hvisa.
  destruct (Re.test Tokenize.visaRe pan) eqn:Hv.
  { split; [|repeat split; discriminate]. split; [intros _; now apply Hvisa | reflexivity]. }
  split.
  { split.
    - destruct (Re.test Tokenize.mastercardRe pan); [discriminate|].
      destruct (Re.test Tokenize.amexRe pan); [discriminate|].
      destruct (Re.test Tokenize.discoverRe pan); discriminate.
    - intros H. apply Hvisa in H. discriminate. }
  destruct (Re.test Tokenize.mastercardRe pan) eqn:Hm.
  { split; [intros _; now apply mastercard_shape|]. split; discriminate. }
  split; [destruct (Re.test Tokenize.amexRe pan);
          [discriminate | destruct (Re.test Tokenize.discoverRe pan); discriminate]|].
  destruct (Re.test Tokenize.amexRe pan) eqn:Ha.
  { split; [intros _; now apply amex_shape | discriminate]. }
  split; [destruct (Re.test Tokenize.discoverRe pan); discriminate|].
  destruct (Re.test Tokenize.discoverRe pan) eqn:Hd; [|discriminate].
  intros _. now apply discover_shape.
Qed.

Lemma detectBrand_shapes_witness :
  Tokenize.detectBrand "2221000000000009" <> "mastercard"
  /\ exists rest, Js.chars "5555555555554444" = "5"%char :: rest.
Proof.
  split; [discriminate|].
  destruct (detectBrand_shapes "5555555555554444") as (_ & Hm & _).
  destruct (Hm eq_refl) as [[_ H] | [H _]]; [exact H | discriminate H].
Defined.

(** * The JSON batch import *)

Section ExpiryFacts.
Import Batch.

Lemma take_drop (p : ascii -> bool) (l : list ascii) :
  (Js.takeWhile p l ++ Js.dropWhile p l)%list = l.
Proof.
  induction l as [|c l IH]; simpl; [reflexivity|].
  destruct (p c); simpl; [now rewrite IH | reflexivity].
Qed.

Lemma takeWhile_forall (p : ascii -> bool) (l : list ascii) :
  forallb p (Js.takeWhile p l) = true.
Proof.
  induction l as [|c l IH]; simpl; [reflexivity|].
  destruct (p c) eqn:Hc; simpl; [now rewrite Hc | reflexivity].
Qed.

Lemma dropWhile_head (p : ascii -> bool) (l : list ascii) (c : ascii) (r : list ascii) :
  Js.dropWhile p l = c :: r -> p c = false.
Proof.
  induction l as [|x l IH]; simpl; [discriminate|].
  destruct (p x) eqn:Hx; [exact IH|]. intros H. injection H as -> _. exact Hx.
Qed.

Lemma dropWhile_fixed (p : ascii -> bool) (l : list ascii) :
  Js.dropWhile p (Js.dropWhile p l) = Js.dropWhile p l.
Proof.
  destruct (Js.dropWhile p l) as [|c r] eqn:H; [reflexivity|].
  simpl. now rewrite (dropWhile_head p l c r H).
Qed.

(** Trimming is idempotent. *)
Lemma trimL_fixed (l : list ascii) : Js.trimL (Js.trimL l) = Js.trimL l.
Proof.
  unfold Js.trimL. set (l1 := Js.dropWhile Js.isSpace l).
  assert (H1 : Js.dropWhile Js.isSpace l1 = l1) by apply dropWhile_fixed.
  set (t := rev (Js.dropWhile Js.isSpace (rev l1))).
  assert (Ht : Js.dropWhile Js.isSpace t = t).
  { pose proof (take_drop Js.isSpace (rev l1)) as Hsplit.
    apply (f_equal (@rev ascii)) in Hsplit.
    rewrite rev_app_distr, rev_involutive in Hsplit. fold t in Hsplit.
    destruct t as [|c t']; [reflexivity|].
    rewrite <- Hsplit in H1. simpl in H1. simpl.
    destruct (Js.isSpace c) eqn:Hc; [|reflexivity].
    exfalso.
    assert (Hlen : (List.length (Js.dropWhile Js.isSpace (t' ++ rev (Js.takeWhile Js.isSpace (rev l1))))
                    <= List.length (t' ++ rev (Js.takeWhile Js.isSpace (rev l1))))%nat).
    { generalize (t' ++ rev (Js.takeWhile Js.isSpace (rev l1)))%list. intros k.
      induction k as [|x k IH]; simpl; [lia|]. destruct (Js.isSpace x); simpl; lia. }
    rewrite H1 in Hlen. simpl in Hlen. lia. }
  rewrite Ht. unfold t. rewrite rev_involutive, dropWhile_fixed. reflexivity.
Qed.

Lemma trim_fixed (str : string) : Js.trim (Js.trim str) = Js.trim str.
Proof. unfold Js.trim. now rewrite chars_text, trimL_fixed. Qed.

Lemma s_fixed (val : option cell) : s (Some (CStr (s val))) = s val.
Proof.
  destruct val as [[| |str]|]; simpl; try reflexivity; apply trim_fixed.
Qed.

(** The digits of a text. *)
Lemma chars_digits (raw : string) :
  Js.chars (Js.removeAll Tokenize.notDigit raw) = List.filter Js.isDigit (Js.chars raw).
Proof.
  unfold Js.removeAll, Tokenize.notDigit. rewrite chars_text.
  apply List.filter_ext. intros c. apply negb_involutive.
Qed.

Lemma filter_forall (p : ascii -> bool) (l : list ascii) :
  forallb p (List.filter p l) = true.
Proof.
  induction l as [|c l IH]; simpl; [reflexivity|].
  destruct (p c) eqn:Hc; simpl; [now rewrite Hc | exact IH].
Qed.

Lemma test_times (k : nat) (str : string) :
  forallb Js.isDigit (Js.chars str) = true ->
  Re.test (Re.times k Re.d) str = (String.length str =? k)%nat.
Proof.
  intros Hall. rewrite <- length_chars.
  destruct (Nat.eqb_spec (List.length (Js.chars str)) k) as [Hk|Hk].
  - apply test_lang, lang_times. auto.
  - destruct (Re.test (Re.times k Re.d) str) eqn:Ht; [|reflexivity].
    apply test_lang, lang_times in Ht. tauto.
Qed.

(** The third pattern of [normalizeExpiry] matches only texts with three or
    four digits, which the first two patterns have taken already. *)
Lemma loose_expiry_digits (raw : string) (groups : string * string) :
  matchLooseExpiry raw = Some groups ->
  (3 <= List.length (List.filter Js.isDigit (Js.chars raw)) <= 4)%nat.
Proof.
  unfold matchLooseExpiry.
  pose proof (take_drop Js.isDigit (Js.chars raw)) as Hsplit.
  pose proof (takeWhile_forall Js.isDigit (Js.chars raw)) as Hrun.
  destruct (Js.dropWhile Js.isDigit (Js.chars raw)) as [|sep g2].
  - rewrite app_nil_r in Hsplit. rewrite Hsplit in *.
    rewrite (filter_digits _ Hrun).
    destruct (_ && _) eqn:Hk; [|discriminate]. intros _.
    apply andb_prop in Hk as [H3 H4].
    apply Nat.leb_le in H3. apply Nat.leb_le in H4. lia.
  - destruct (_ && _) eqn:Hk; [|discriminate]. intros _.
    repeat match type of Hk with
           | (_ && _)%bool = true => apply andb_prop in Hk as [Hk ?]
           end.
    rewrite <- Hsplit, List.filter_app, (filter_digits _ Hrun). simpl.
    rewrite (separator_not_digit sep) by assumption.
    rewrite (filter_digits g2) by assumption.
    rewrite length_app.
    repeat match goal with
           | H : (_ <=? _)%nat = true |- _ => apply Nat.leb_le in H
           | H : (_ =? _)%nat = true |- _ => apply Nat.eqb_eq in H
           end.
    lia.
Qed.

(** [normalizeExpiry] by the digits of the trimmed value. *)
Lemma normalizeExpiry_by_digits (val : option cell) :
  match List.filter Js.isDigit (Js.chars (s val)) with
  | [a; b; c] => normalizeExpiry val = Js.text ["0"; a; "/"; b; c]%char
  | [a; b; c; e] => normalizeExpiry val = Js.text [a; b; "/"; c; e]%char
  | _ => normalizeExpiry val = s val
  end.
Proof.
  unfold normalizeExpiry.
  destruct (Js.truthy (s val)) eqn:Ht; simpl negb; cbv iota.
  2:{ destruct (s val); [reflexivity | discriminate]. }
  pose proof (chars_digits (s val)) as Hd.
  pose proof (filter_forall Js.isDigit (Js.chars (s val))) as Hall.
  rewrite <- Hd in Hall |- *.
  unfold threeDigits, fourDigits. rewrite !(test_times _ _ Hall), <- length_chars.
  unfold Js.padStart2, Js.slice, Js.sliceFrom.
  assert (Hloose : forall groups,
             matchLooseExpiry (s val) = Some groups ->
             (3 <= List.length (Js.chars (Js.removeAll Tokenize.notDigit (s val))) <= 4)%nat).
  { intros groups Hg. rewrite chars_digits. exact (loose_expiry_digits _ _ Hg). }
  destruct (Js.chars (Js.removeAll Tokenize.notDigit (s val)))
    as [|a [|b [|c [|e [|f rest]]]]];
    cbn [List.length Nat.eqb] in *; cbv iota;
    try reflexivity;
    try (destruct (matchLooseExpiry (s val)) as [groups|];
         [specialize (Hloose groups eq_refl); cbn [List.length] in Hloose; lia
         | reflexivity]).
Qed.

End ExpiryFacts.

Section ExpiryIdempotence.
Import Batch.

Lemma trimL_keeps (l : list ascii) :
  Js.dropWhile Js.isSpace l = l -> Js.dropWhile Js.isSpace (rev l) = rev l ->
  Js.trimL l = l.
Proof. intros H1 H2. unfold Js.trimL. rewrite H1, H2. apply rev_involutive. Qed.

(** A text of digits around one slash is its own normal form. *)
Lemma normalizeExpiry_slashed (a b c e : ascii) :
  Js.isDigit a = true -> Js.isDigit b = true ->
  Js.isDigit c = true -> Js.isDigit e = true ->
  normalizeExpiry (Some (CStr (Js.text [a; b; "/"; c; e]%char)))
  = Js.text [a; b; "/"; c; e]%char.
Proof.
  intros Ha Hb Hc He.
  pose proof (normalizeExpiry_by_digits (Some (CStr (Js.text [a; b; "/"; c; e]%char)))) as H.
  assert (Hs : s (Some (CStr (Js.text [a; b; "/"; c; e]%char)))
               = Js.text [a; b; "/"; c; e]%char).
  { unfold s, Coerce.toStr, Js.trim. rewrite chars_text. f_equal.
    apply trimL_keeps; simpl.
    - now rewrite (digit_not_space a Ha).
    - now rewrite (digit_not_space e He). }
  rewrite Hs, chars_text in H. simpl in H. rewrite Ha, Hb, Hc, He in H. exact H.
Qed.

End ExpiryIdempotence.

(** X11.  The expiry text of the JSON path.  When the trimmed value has
    three digits the result is 0, the first digit, a slash and the other two;
    when it has four digits the result is the first two, a slash and the
    last two; in every other case the result is the trimmed value as it is.
    Normalizing a normalized text changes nothing. *)
Theorem normalizeExpiry_shape :
  forall val,
    match List.filter Js.isDigit (Js.chars (Batch.s val)) with
    | [a; b; c] => Batch.normalizeExpiry val = Js.text ["0"; a; "/"; b; c]%char
    | [a; b; c; e] => Batch.normalizeExpiry val = Js.text [a; b; "/"; c; e]%char
    | _ => Batch.normalizeExpiry val = Batch.s val
    end
    /\ Batch.normalizeExpiry (Some (CStr (Batch.normalizeExpiry val)))
       = Batch.normalizeExpiry val.
Proof.
  intros val. split; [apply normalizeExpiry_by_digits|].
  pose proof (normalizeExpiry_by_digits val) as H1.
  pose proof (filter_forall Js.isDigit (Js.chars (Batch.s val))) as Hall.
  destruct (List.filter Js.isDigit (Js.chars (Batch.s val)))
    as [|a [|b [|c [|e [|f rest]]]]] eqn:Hf.
  4:{ rewrite H1. simpl in Hall.
      repeat match type of Hall with
             | (_ && _)%bool = true => apply andb_prop in Hall as [? Hall]
             end.
      now apply normalizeExpiry_slashed. }
  4:{ rewrite H1. simpl in Hall.
      repeat match type of Hall with
             | (_ && _)%bool = true => apply andb_prop in Hall as [? Hall]
             end.
      now apply normalizeExpiry_slashed. }
  all: rewrite H1;
    pose proof (normalizeExpiry_by_digits (Some (CStr (Batch.s val)))) as H2;
    rewrite s_fixed, Hf in H2; exact H2.
Qed.

Section BatchFacts.
Import Store Batch.




End BatchFacts.

(** X12.  The chunk size of the JSON batch import is an integer from 500 to
    5000 whatever the request says.  It is 2000 when the request gives no
    batch size, a falsy one or one that does not start with a number, and
    otherwise the number read, raised to 500 or lowered to 5000. *)
Theorem chunk_size_is_clamped :
  forall batchSize,
    (exists z, Batch.chunkSize batchSize = Int z /\ 500 <= z <= 5000
               /\ Batch.chunkLength batchSize = Z.to_nat z)
    /\ (Coerce.truthyO batchSize = false -> Batch.chunkSize batchSize = Int 2000)
    /\ (Num.parseInt10 (Coerce.toStr (default CNull batchSize)) = NaN ->
        Batch.chunkSize batchSize = Int 2000)
    /\ (forall z,
          Coerce.truthyO batchSize = true ->
          Num.parseInt10 (Coerce.toStr (default CNull batchSize)) = Int z ->
          z <> 0 ->
          Batch.chunkSize batchSize = Int (Z.max 500 (Z.min z 5000))).
Proof.
  intros batchSize. split; [|split; [|split]].
  - destruct (chunkSize_clamped batchSize) as (z & Hz & Hb).
    exists z. unfold Batch.chunkLength. rewrite Hz. auto.
  - intros Hf. unfold Batch.chunkSize. rewrite Hf. reflexivity.
  - intros Hn. unfold Batch.chunkSize.
    destruct (Coerce.truthyO batchSize); [rewrite Hn|]; reflexivity.
  - intros z Ht Hz Hnz. unfold Batch.chunkSize. rewrite Ht, Hz.
    cbn [Coerce.truthy Int]. apply Z.eqb_neq in Hnz. rewrite Hnz. cbn [negb].
    fold (Int z). now rewrite min_Int, max_Int.
Qed.

Lemma chunk_size_is_clamped_witness :
  Batch.chunkSize (Some (CStr "100")) = Int 500
  /\ Batch.chunkSize (Some (CStr "fast")) = Int 2000
  /\ Batch.chunkSize None = Int 2000.
Proof.
  destruct (chunk_size_is_clamped (Some (CStr "100"))) as (_ & _ & _ & Hread).
  destruct (chunk_size_is_clamped (Some (CStr "fast"))) as (_ & _ & Hnan & _).
  destruct (chunk_size_is_clamped None) as (_ & Hnone & _).
  split; [exact (Hread 100 eq_refl eq_refl ltac:(discriminate))|].
  split; [exact (Hnan eq_refl) | exact (Hnone eq_refl)].
Defined.



Section SanitizeFacts.
Import Store Batch.

(** Deriving the name and the owner touches no other property. *)
Lemma sanitizeRow_lookup (userId : string) (r : row) (k : string) :
  k <> "name" -> k <> "ownedBy" ->
  sanitizeRow userId r !! k = sanitized r !! k.
Proof.
  intros Hname Howned. unfold sanitizeRow.
  generalize (sanitized r). intros out.
  repeat match goal with
         | |- context [if ?b then _ else _] => destruct b
         | |- (<[ _ := _ ]> _) !! k = _ => rewrite lookup_insert_ne by congruence
         end; reflexivity.
Qed.

Lemma sanitizeRow_ownedBy (userId : string) (r : row) :
  prop (sanitizeRow userId r) "ownedBy"
  = if negb (Js.truthy (prop (sanitized r) "ownedBy"))
       && negb (Js.truthy (prop (sanitized r) "owner"))
    then userId else prop (sanitized r) "ownedBy".
Proof.
  unfold sanitizeRow. generalize (sanitized r). intros out.
  assert (Hkeep : forall (o : gmap string jsval) (v : jsval) (k : string),
             k <> "name" -> prop (<[ "name" := v ]> o) k = prop o k).
  { intros o v k Hk. apply prop_insert_ne. congruence. }
  repeat match goal with
         | |- context [if negb (Js.truthy (prop ?o "name")) then _ else _] =>
             destruct (negb (Js.truthy (prop o "name")))
         end;
    rewrite ?Hkeep by discriminate;
    destruct (negb (Js.truthy (prop out "ownedBy")) && negb (Js.truthy (prop out "owner")));
    rewrite ?prop_insert_eq, ?Hkeep by discriminate; reflexivity.
Qed.

Lemma orZero_n_number (v : option cell) : Num.isNaN (orZero (n v)) = false.
Proof.
  unfold n, orZero. destruct (Num.isNaN (Coerce.toAmount v)) eqn:H; [reflexivity | exact H].
Qed.

Lemma lowerChar_fixed (c : ascii) : Js.lowerChar (Js.lowerChar c) = Js.lowerChar c.
Proof.
  destruct c as [[] [] [] [] [] [] [] []]; vm_compute; reflexivity.
Qed.

Lemma lowerChar_separator (c : ascii) :
  isSeparatorChar c = true -> Js.lowerChar c = c.
Proof.
  destruct c as [[] [] [] [] [] [] [] []]; vm_compute; intros H;
    first [reflexivity | discriminate H].
Qed.

Lemma chars_norm (k : string) :
  Js.chars (norm k)
  = List.filter (fun c => negb (isSeparatorChar c)) (List.map Js.lowerChar (Js.chars k)).
Proof. unfold norm, Js.removeAll, Js.toLowerCase. now rewrite !chars_text. Qed.

Lemma norm_text (l : list ascii) :
  norm (Js.text l)
  = Js.text (List.filter (fun c => negb (isSeparatorChar c)) (List.map Js.lowerChar l)).
Proof. rewrite <- (text_chars (norm (Js.text l))), chars_norm, chars_text. reflexivity. Qed.

Lemma filter_fixed (p : ascii -> bool) (l : list ascii) :
  List.filter p (List.filter p l) = List.filter p l.
Proof.
  induction l as [|c l IH]; simpl; [reflexivity|].
  destruct (p c) eqn:Hc; simpl; [now rewrite Hc, IH | exact IH].
Qed.

Lemma norm_fixed (k : string) : norm (norm k) = norm k.
Proof.
  rewrite <- (text_chars (norm k)) at 1. rewrite norm_text, chars_norm.
  rewrite <- (text_chars (norm k)), chars_norm. f_equal.
  induction (Js.chars k) as [|c l IH]; simpl; [reflexivity|].
  destruct (negb (isSeparatorChar (Js.lowerChar c))) eqn:Hc; simpl; [|exact IH].
  now rewrite lowerChar_fixed, Hc, IH.
Qed.

Lemma norm_separator (a b : list ascii) (c : ascii) :
  isSeparatorChar c = true -> norm (Js.text (a ++ c :: b)) = norm (Js.text (a ++ b)).
Proof.
  intros Hc. rewrite !norm_text, !List.map_app, !List.filter_app. simpl.
  now rewrite (lowerChar_separator c Hc), Hc.
Qed.

Lemma norm_case (k : string) : norm (Js.toLowerCase k) = norm k.
Proof.
  unfold Js.toLowerCase. rewrite norm_text, <- (text_chars (norm k)), chars_norm.
  f_equal. f_equal. rewrite List.map_map. apply List.map_ext. apply lowerChar_fixed.
Qed.

(** The row as the look-ups see it: the headers normalized. *)
Lemma keyMap_by_norm (r r' : row) :
  List.map (fun kv => (norm (fst kv), snd kv)) r
  = List.map (fun kv => (norm (fst kv), snd kv)) r' ->
  keyMap r = keyMap r'.
Proof.
  unfold keyMap. generalize (∅ : gmap string cell).
  revert r'. induction r as [|[k v] r IH]; intros [|[k' v'] r'] m H;
    try discriminate; [reflexivity|].
  simpl in H. injection H as Hk Hv Hr. simpl. rewrite Hk, Hv. now apply IH.
Qed.

End SanitizeFacts.

(** X14.  The owner of a row of the JSON batch import: [ownedBy] is the
    importing user when the row gives neither an owner nor an ownedBy
    column; otherwise it is the ownedBy column as given, which is empty when
    the row gives only an owner. *)
Theorem sanitizeRow_owner_default :
  forall userId r,
    Batch.prop (Batch.sanitizeRow userId r) "owner" = Batch.column r ["owner"]
    /\ Batch.prop (Batch.sanitizeRow userId r) "ownedBy"
       = if negb (Js.truthy (Batch.column r ["ownedBy"; "owned_by"]))
            && negb (Js.truthy (Batch.column r ["owner"]))
         then userId else Batch.column r ["ownedBy"; "owned_by"].
Proof.
  intros userId r.
  assert (Ho : Batch.prop (Batch.sanitized r) "owner" = Batch.column r ["owner"]).
  { unfold Batch.prop, Batch.column.
    rewrite (sanitized_lookup r "owner" (JStr (Batch.s (Batch.getRaw (Batch.keyMap r) ["owner"]))));
      [reflexivity|].
    unfold Batch.literal;
      repeat first [ apply list_elem_of_here | apply list_elem_of_further ]. }
  assert (Hb : Batch.prop (Batch.sanitized r) "ownedBy"
               = Batch.column r ["ownedBy"; "owned_by"]).
  { unfold Batch.prop, Batch.column.
    rewrite (sanitized_lookup r "ownedBy"
               (JStr (Batch.s (Batch.getRaw (Batch.keyMap r) ["ownedBy"; "owned_by"]))));
      [reflexivity|].
    unfold Batch.literal;
      repeat first [ apply list_elem_of_here | apply list_elem_of_further ]. }
  split.
  - rewrite sanitizeRow_other by discriminate. exact Ho.
  - rewrite sanitizeRow_ownedBy, Ho, Hb. reflexivity.
Qed.

(** X15.  The two numeric properties of a row of the JSON batch import are
    numbers, never NaN: a column that is absent or does not read as a number
    gives 0. *)
Theorem sanitizeRow_amounts_are_numbers :
  forall userId r,
    (exists x, Batch.sanitizeRow userId r !! "forecastedAmount" = Some (JNum x)
               /\ Num.isNaN x = false
               /\ (Num.isNaN (Coerce.toAmount
                                (Batch.getRaw (Batch.keyMap r)
                                   ["forecastedAmount"; "forecasted_amount";
                                    "forecast"; "amount"])) = true -> x = Int 0))
    /\ (exists y, Batch.sanitizeRow userId r !! "interactionCount" = Some (JNum y)
                  /\ Num.isNaN y = false
                  /\ (Num.isNaN (Coerce.toAmount
                                   (Batch.getRaw (Batch.keyMap r)
                                      ["interactionCount"; "interaction_count"])) = true ->
                      y = Int 0)).
Proof.
  intros userId r. split.
  - eexists. rewrite sanitizeRow_lookup by discriminate.
    split; [|split; [apply orZero_n_number|]].
    + apply sanitized_lookup. unfold Batch.literal;
        repeat first [ apply list_elem_of_here | apply list_elem_of_further ].
    + intros H. unfold Batch.n. now rewrite H.
  - eexists. rewrite sanitizeRow_lookup by discriminate.
    split; [|split; [apply orZero_n_number|]].
    + apply sanitized_lookup. unfold Batch.literal;
        repeat first [ apply list_elem_of_here | apply list_elem_of_further ].
    + intros H. unfold Batch.n. now rewrite H.
Qed.

Lemma sanitizeRow_amounts_are_numbers_witness :
  exists x, Batch.sanitizeRow Sample.user Sample.annLee !! "forecastedAmount" = Some (JNum x)
            /\ x = Int 0.
Proof.
  destruct (sanitizeRow_amounts_are_numbers Sample.user Sample.annLee)
    as ((x & Hx & _ & Hzero) & _).
  exists x. split; [exact Hx|]. apply Hzero. vm_compute. reflexivity.
Defined.

(** X16.  The JSON batch import reads the columns of a row by normalized
    header: two rows whose headers differ only in the case of letters and in
    white space, underscores and hyphens, and that carry the same values in
    the same order, give the same document.  Normalizing a header is
    idempotent, ignores the case of letters and ignores a separator put
    anywhere. *)
Theorem header_spelling_is_ignored :
  (forall k, Batch.norm (Batch.norm k) = Batch.norm k)
  /\ (forall k, Batch.norm (Js.toLowerCase k) = Batch.norm k)
  /\ (forall a b c,
        Batch.isSeparatorChar c = true ->
        Batch.norm (Js.text (a ++ c :: b)) = Batch.norm (Js.text (a ++ b)))
  /\ (forall userId r r',
        List.map (fun kv => (Batch.norm (fst kv), snd kv)) r
        = List.map (fun kv => (Batch.norm (fst kv), snd kv)) r' ->
        Batch.sanitizeRow userId r = Batch.sanitizeRow userId r').
Proof.
  split; [exact norm_fixed|]. split; [exact norm_case|]. split; [exact norm_separator|].
  intros userId r r' H. apply keyMap_by_norm in H.
  unfold Batch.sanitizeRow, Batch.sanitized, Batch.literal. rewrite H. reflexivity.
Qed.

Lemma header_spelling_is_ignored_witness :
  Batch.sanitizeRow Sample.user [ ("First Name", CStr "Ann"); ("last_name", CStr "Lee") ]
  = Batch.sanitizeRow Sample.user [ ("first-name", CStr "Ann"); ("LastName", CStr "Lee") ].
Proof.
  destruct header_spelling_is_ignored as (_ & _ & _ & H).
  apply H. reflexivity.
Defined.

(** * The validated record *)

Section ValidatedFields.
Import Validator.

Lemma run_cons (s : step) (ss : list step) : run (s :: ss) = andThen s (run ss).
Proof. reflexivity. Qed.

(** Steps that all spare a property leave it as it was. *)
Lemma run_spares (k : string) (ss : list step) :
  Forall (fun s => exists keys, frames keys s /\ ~ In k keys) ss ->
  forall st st', run ss st = inr st' -> data st' !! k = data st !! k.
Proof.
  induction 1 as [|s ss (keys & Hs & Hk) _ IH]; intros st st' H.
  - injection H as <-. reflexivity.
  - rewrite run_cons in H. unfold andThen in H.
    destruct (s st) as [e|mid] eqn:Hmid; [discriminate|].
    rewrite (IH _ _ H). now apply (Hs _ _ Hmid).
Qed.

Lemma run_split (ss1 : list step) (s : step) (ss2 : list step) (st st' : state) :
  run (ss1 ++ s :: ss2) st = inr st' ->
  exists a b, run ss1 st = inr a /\ s a = inr b /\ run ss2 b = inr st'.
Proof.
  revert st. induction ss1 as [|x ss1 IH]; intros st H.
  - cbn [app] in H. rewrite run_cons in H. unfold andThen in H.
    destruct (s st) as [e|b] eqn:Hb; [discriminate|]. exists st, b. auto.
  - cbn [app] in H. rewrite run_cons in H. unfold andThen in H.
    destruct (x st) as [e|mid] eqn:Hmid; [discriminate|].
    destruct (IH mid H) as (a & b & Ha & Hb & Hrest).
    exists a, b. rewrite run_cons. unfold andThen. rewrite Hmid. auto.
Qed.

(** The one step that writes a property decides what the run leaves in
    it. *)
Lemma single_writer (k : string) (ss1 : list step) (s : step) (ss2 : list step)
    (st st' : state) :
  Forall (fun s => exists keys, frames keys s /\ ~ In k keys) ss1 ->
  Forall (fun s => exists keys, frames keys s /\ ~ In k keys) ss2 ->
  run (ss1 ++ s :: ss2) st = inr st' ->
  exists a b, s a = inr b /\ data a !! k = data st !! k /\ data st' !! k = data b !! k.
Proof.
  intros H1 H2 H. destruct (run_split _ _ _ _ _ H) as (a & b & Ha & Hb & Hrest).
  exists a, b. split; [exact Hb|]. split.
  - exact (run_spares k ss1 H1 _ _ Ha).
  - exact (run_spares k ss2 H2 _ _ Hrest).
Qed.

Lemma validate_run (env : Env) (cd : clientData) (rowNumber : Z) (r : result) :
  validateClientData env cd rowNumber = inr r ->
  exists st, run (steps env cd rowNumber) {| data := ∅; errors := []; warnings := [] |}
             = inr st
             /\ validated r = data st.
Proof.
  unfold validateClientData.
  destruct (run _ _) as [e|st]; [discriminate|]. intros H. injection H as <-. eauto.
Qed.

Ltac spares_one :=
  eexists; split;
  [ first [ apply frames_checkStatus
          | apply quiet_frames;
            first [ apply quiet_checkName | apply quiet_checkEmail
                  | now apply quiet_checkText | apply quiet_checkForecast
                  | now apply quiet_checkDate | apply quiet_checkInteraction
                  | apply quiet_checkId | apply quiet_checkOwner
                  | apply quiet_copyFields | apply quiet_checkDuplicate ] ]
  | unfold optionalFields; simpl; intuition discriminate ].

Ltac spares_all := repeat (apply List.Forall_cons; [spares_one|]); apply List.Forall_nil.

(** What the validator leaves in a property, by the step that writes it. *)
Lemma validated_email (env : Env) (cd : clientData) (rowNumber : Z) (r : result) :
  validateClientData env cd rowNumber = inr r ->
  exists a b, checkEmail cd a = inr b /\ data a !! "email" = None
              /\ validated r !! "email" = data b !! "email".
Proof.
  intros H. destruct (validate_run env cd rowNumber r H) as (st & Hrun & ->).
  apply (single_writer "email" [checkName cd rowNumber] (checkEmail cd)) in Hrun;
    [exact Hrun | spares_all..].
Qed.

Lemma validated_forecast (env : Env) (cd : clientData) (rowNumber : Z) (r : result) :
  validateClientData env cd rowNumber = inr r ->
  exists a b, checkForecast cd a = inr b /\ data a !! "forecastedAmount" = None
              /\ validated r !! "forecastedAmount" = data b !! "forecastedAmount".
Proof.
  intros H. destruct (validate_run env cd rowNumber r H) as (st & Hrun & ->).
  apply (single_writer "forecastedAmount"
           [ checkName cd rowNumber; checkEmail cd; checkStatus cd;
             checkText cd "phone" isValidPhone "Invalid phone number format";
             checkText cd "website" (isValidURL env) "Invalid website URL format";
             checkText cd "facebookPage" (isValidURL env)
               "Invalid Facebook page URL format" ]
           (checkForecast cd)) in Hrun;
    [exact Hrun | spares_all..].
Qed.

Lemma validated_date (env : Env) (cd : clientData) (rowNumber : Z) (r : result) :
  validateClientData env cd rowNumber = inr r ->
  (exists a b, checkDate env cd "projectedCloseDate"
                 "Invalid projected close date format; value ignored" a = inr b
               /\ data a !! "projectedCloseDate" = None
               /\ validated r !! "projectedCloseDate" = data b !! "projectedCloseDate")
  /\ (exists a b, checkDate env cd "createdAt"
                    "Invalid createdAt date format; value ignored" a = inr b
                  /\ data a !! "createdAt" = None
                  /\ validated r !! "createdAt" = data b !! "createdAt").
Proof.
  intros H. destruct (validate_run env cd rowNumber r H) as (st & Hrun & ->). split.
  - apply (single_writer "projectedCloseDate"
             [ checkName cd rowNumber; checkEmail cd; checkStatus cd;
               checkText cd "phone" isValidPhone "Invalid phone number format";
               checkText cd "website" (isValidURL env) "Invalid website URL format";
               checkText cd "facebookPage" (isValidURL env)
                 "Invalid Facebook page URL format";
               checkForecast cd ]
             (checkDate env cd "projectedCloseDate"
                "Invalid projected close date format; value ignored")) in Hrun;
      [exact Hrun | spares_all..].
  - apply (single_writer "createdAt"
             [ checkName cd rowNumber; checkEmail cd; checkStatus cd;
               checkText cd "phone" isValidPhone "Invalid phone number format";
               checkText cd "website" (isValidURL env) "Invalid website URL format";
               checkText cd "facebookPage" (isValidURL env)
                 "Invalid Facebook page URL format";
               checkForecast cd;
               checkDate env cd "projectedCloseDate"
                 "Invalid projected close date format; value ignored" ]
             (checkDate env cd "createdAt"
                "Invalid createdAt date format; value ignored")) in Hrun;
      [exact Hrun | spares_all..].
Qed.

Lemma validated_interaction (env : Env) (cd : clientData) (rowNumber : Z) (r : result) :
  validateClientData env cd rowNumber = inr r ->
  exists a b, checkInteraction cd a = inr b /\ data a !! "interactionCount" = None
              /\ validated r !! "interactionCount" = data b !! "interactionCount".
Proof.
  intros H. destruct (validate_run env cd rowNumber r H) as (st & Hrun & ->).
  apply (single_writer "interactionCount"
           [ checkName cd rowNumber; checkEmail cd; checkStatus cd;
             checkText cd "phone" isValidPhone "Invalid phone number format";
             checkText cd "website" (isValidURL env) "Invalid website URL format";
             checkText cd "facebookPage" (isValidURL env)
               "Invalid Facebook page URL format";
             checkForecast cd;
             checkDate env cd "projectedCloseDate"
               "Invalid projected close date format; value ignored";
             checkDate env cd "createdAt"
               "Invalid createdAt date format; value ignored" ]
           (checkInteraction cd)) in Hrun;
    [exact Hrun | spares_all..].
Qed.

Lemma validated_id (env : Env) (cd : clientData) (rowNumber : Z) (r : result) :
  validateClientData env cd rowNumber = inr r ->
  exists a b, checkId cd a = inr b /\ data a !! "_id" = None
              /\ validated r !! "_id" = data b !! "_id".
Proof.
  intros H. destruct (validate_run env cd rowNumber r H) as (st & Hrun & ->).
  apply (single_writer "_id"
           [ checkName cd rowNumber; checkEmail cd; checkStatus cd;
             checkText cd "phone" isValidPhone "Invalid phone number format";
             checkText cd "website" (isValidURL env) "Invalid website URL format";
             checkText cd "facebookPage" (isValidURL env)
               "Invalid Facebook page URL format";
             checkForecast cd;
             checkDate env cd "projectedCloseDate"
               "Invalid projected close date format; value ignored";
             checkDate env cd "createdAt"
               "Invalid createdAt date format; value ignored";
             checkInteraction cd ]
           (checkId cd)) in Hrun;
    [exact Hrun | spares_all..].
Qed.

End ValidatedFields.

Section StatusFacts.
Import Validator.

Lemma findStatus_Some (original status : string) :
  findStatus original = Some status ->
  In status validStatuses /\ Js.toLowerCase status = Js.toLowerCase original.
Proof.
  unfold findStatus. intros H. apply List.find_some in H as [Hin Heq].
  split; [exact Hin | now apply String.eqb_eq].
Qed.

(** No two accepted statuses differ by the case of letters only. *)
Lemma validStatuses_distinct (s1 s2 : string) :
  In s1 validStatuses -> In s2 validStatuses ->
  Js.toLowerCase s1 = Js.toLowerCase s2 -> s1 = s2.
Proof.
  unfold validStatuses. simpl. intros H1 H2.
  repeat (destruct H1 as [<-|H1]; [|]); try contradiction;
    repeat (destruct H2 as [<-|H2]; [|]); try contradiction;
    intros H; first [reflexivity | vm_compute in H; discriminate H].
Qed.

End StatusFacts.

(** X17.  The contact status of a validated record is always one of the
    accepted statuses, in the spelling of the list; a status given in
    another case of letters is replaced by the listed spelling. *)
Theorem validated_status_is_canonical :
  forall env cd rowNumber r,
    Validator.validateClientData env cd rowNumber = inr r ->
    (exists status,
        In status Validator.validStatuses
        /\ Validator.validated r !! "contactStatus" = Some (JStr status))
    /\ (forall c status,
          cd !! "contactStatus" = Some c -> Coerce.truthy c = true ->
          In status Validator.validStatuses ->
          Js.toLowerCase status = Js.toLowerCase (Coerce.toStr c) ->
          Validator.validated r !! "contactStatus" = Some (JStr status)).
Proof.
  intros env cd rowNumber r H. pose proof (validate_status env cd rowNumber r H) as Hs.
  assert (Hdefault : In "Uncategorized" Validator.validStatuses)
    by (unfold Validator.validStatuses; simpl; auto).
  split.
  - destruct (cd !! "contactStatus") as [c|]; [|destruct Hs; eauto].
    destruct (Coerce.truthy c); [|destruct Hs; eauto].
    destruct (Validator.findStatus (Coerce.toStr c)) as [status|] eqn:Hf;
      [|destruct Hs; eauto].
    destruct Hs as [Hs _]. apply findStatus_Some in Hf as [Hin _]. eauto.
  - intros c status Hc Ht Hin Hlow. rewrite Hc, Ht in Hs.
    destruct (Validator.findStatus (Coerce.toStr c)) as [found|] eqn:Hf.
    + destruct Hs as [Hs _]. apply findStatus_Some in Hf as [Hin' Hlow'].
      rewrite Hs. do 2 f_equal.
      apply validStatuses_distinct; [exact Hin' | exact Hin | congruence].
    + exfalso. exact (proj1 (findStatus_none _) Hf status Hin Hlow).
Qed.

Lemma validated_status_is_canonical_witness :
  exists status,
    In status Validator.validStatuses
    /\ Validator.validated Sample.interestedResult !! "contactStatus" = Some (JStr status).
Proof.
  destruct (validated_status_is_canonical Sample.env _ 1 Sample.interestedResult
              interested_validates) as [H _].
  exact H.
Defined.

Ltac step_done Hs :=
  cbv [Validator.pure Validator.onString id] in Hs; injection Hs as <-;
  cbn [Validator.data Validator.put Validator.warn] in *.

(** X18.  The e-mail address of a validated record is the address of the
    row in lower case when that address is a non-empty text the validator
    accepts; in every other case the record has no e-mail address. *)
Theorem validated_email_is_valid :
  forall env cd rowNumber r,
    Validator.validateClientData env cd rowNumber = inr r ->
    Validator.validated r !! "email"
    = match cd !! "email" with
      | Some (CStr str) =>
          if Js.truthy str && Validator.isValidEmail str
          then Some (JStr (Js.toLowerCase str)) else None
      | _ => None
      end.
Proof.
  intros env cd rowNumber r H.
  destruct (validated_email env cd rowNumber r H) as (a & b & Hstep & Ha & ->).
  unfold Validator.checkEmail in Hstep.
  destruct (cd !! "email") as [email|]; [|step_done Hstep; exact Ha].
  destruct email as [|x|str].
  - step_done Hstep. exact Ha.
  - destruct (Coerce.truthy (CNum x)); [|step_done Hstep; exact Ha].
    destruct (Validator.isValidEmail (Coerce.toStr (CNum x))); cbn [negb] in Hstep;
      [discriminate Hstep | step_done Hstep; exact Ha].
  - cbn [Coerce.truthy Coerce.toStr] in Hstep.
    destruct (Js.truthy str); [|step_done Hstep; exact Ha].
    destruct (Validator.isValidEmail str); cbn [negb andb] in Hstep |- *;
      step_done Hstep.
    + apply lookup_insert_eq.
    + exact Ha.
Qed.

Lemma validated_email_is_valid_witness :
  Validator.validated Sample.acmeResult !! "email" = Some (JStr "a@b.co").
Proof.
  rewrite (validated_email_is_valid Sample.env _ _ Sample.acmeResult acme_validates).
  vm_compute. reflexivity.
Defined.

(** X19.  The numbers and dates of a validated record.  The interaction
    count, when present, is a non-negative integer; the forecasted amount,
    when present, is a number and not NaN; the projected close date and the
    creation date, when present, are dates and never null. *)
Theorem validated_numbers_and_dates :
  forall env cd rowNumber r,
    Validator.validateClientData env cd rowNumber = inr r ->
    (forall v, Validator.validated r !! "interactionCount" = Some v ->
               exists z, v = JNum (Int z) /\ 0 <= z)
    /\ (forall v, Validator.validated r !! "forecastedAmount" = Some v ->
                  exists x, v = JNum x /\ Num.isNaN x = false)
    /\ (forall v, Validator.validated r !! "projectedCloseDate" = Some v ->
                  exists t, v = JDate t)
    /\ (forall v, Validator.validated r !! "createdAt" = Some v ->
                  exists t, v = JDate t).
Proof.
  intros env cd rowNumber r H.
  assert (Hdate : forall key message a b v,
             Validator.checkDate env cd key message a = inr b ->
             Validator.data a !! key = None ->
             Validator.data b !! key = Some v -> exists t, v = JDate t).
  { intros key message a b v Hstep Ha Hv. unfold Validator.checkDate in Hstep.
    destruct (Coerce.truthyO (cd !! key)) eqn:Ht; [|step_done Hstep; congruence].
    destruct (Validator.isValidDate env (cd !! key)) eqn:Hvalid; simpl in Hstep;
      step_done Hstep; [|simpl in Hv; congruence].
    simpl in Hv. rewrite lookup_insert_eq in Hv. injection Hv as <-.
    destruct (valid_date_parses env (cd !! key) Hvalid Ht) as [t ->].
    exists t. reflexivity. }
  split; [|split; [|split]].
  - intros v Hv.
    destruct (validated_interaction env cd rowNumber r H) as (a & b & Hstep & Ha & Hr).
    rewrite Hr in Hv. unfold Validator.checkInteraction in Hstep.
    destruct (Validator.provided _); [|step_done Hstep; congruence].
    destruct (parseInt10_shape
                (Coerce.toStr (default CNull (cd !! "interactionCount"))))
      as [Hn | [z Hn]]; rewrite Hn in Hstep; simpl in Hstep.
    + step_done Hstep. simpl in Hv. congruence.
    + destruct (z <? 0) eqn:Hz; simpl in Hstep; step_done Hstep; simpl in Hv.
      * congruence.
      * rewrite lookup_insert_eq in Hv. injection Hv as <-.
        exists z. split; [reflexivity|]. apply Z.ltb_ge in Hz. exact Hz.
  - intros v Hv.
    destruct (validated_forecast env cd rowNumber r H) as (a & b & Hstep & Ha & Hr).
    rewrite Hr in Hv. unfold Validator.checkForecast in Hstep.
    destruct (Validator.provided _); [|step_done Hstep; congruence].
    destruct (Num.isNaN _) eqn:Hn; [step_done Hstep; simpl in Hv; congruence|].
    destruct (Num.ltZero _); step_done Hstep; simpl in Hv;
      rewrite lookup_insert_eq in Hv; injection Hv as <-; eauto.
  - intros v Hv.
    destruct (validated_date env cd rowNumber r H) as ((a & b & Hstep & Ha & Hr) & _).
    rewrite Hr in Hv. exact (Hdate _ _ a b v Hstep Ha Hv).
  - intros v Hv.
    destruct (validated_date env cd rowNumber r H) as (_ & (a & b & Hstep & Ha & Hr)).
    rewrite Hr in Hv. exact (Hdate _ _ a b v Hstep Ha Hv).
Qed.

Lemma validated_numbers_and_dates_witness :
  exists t, Validator.validated Sample.knownResult !! "createdAt" = Some (JDate t).
Proof.
  assert (Hrun : Validator.validateClientData Sample.env
                   (Csv.mrData (Csv.mapRow Sample.user Sample.known)) 5
                 = inr Sample.knownResult) by (vm_compute; reflexivity).
  destruct (validated_numbers_and_dates Sample.env _ 5 Sample.knownResult Hrun)
    as (_ & _ & _ & Hcreated).
  destruct (Hcreated (JDate 1577836800000)) as [t Ht]; [vm_compute; reflexivity|].
  exists t. vm_compute. injection Ht as <-. reflexivity.
Defined.

(** X20.  The identifier of a validated record, when present, is a text
    that is not empty and is trimmed: a blank Client_id never becomes the
    key of a write. *)
Theorem validated_id_is_not_blank :
  forall env cd rowNumber r,
    Validator.validateClientData env cd rowNumber = inr r ->
    (forall v, Validator.validated r !! "_id" = Some v ->
               exists c, cd !! "_id" = Some c
                         /\ v = JStr (Js.trim (Coerce.toStr c))
                         /\ Js.trim (Coerce.toStr c) <> "")
    /\ (Validator.truthyJ (Validator.validated r !! "_id") = true
        <-> exists v, Validator.validated r !! "_id" = Some v).
Proof.
  intros env cd rowNumber r H.
  destruct (validated_id env cd rowNumber r H) as (a & b & Hstep & Ha & Hr).
  assert (Hsome : forall v, Validator.validated r !! "_id" = Some v ->
                    exists c, cd !! "_id" = Some c
                              /\ v = JStr (Js.trim (Coerce.toStr c))
                              /\ Js.trim (Coerce.toStr c) <> "").
  { intros v Hv. rewrite Hr in Hv. unfold Validator.checkId in Hstep.
    destruct (cd !! "_id") as [c|]; [|step_done Hstep; congruence].
    destruct c as [|x|str]; [step_done Hstep; congruence| |];
      (destruct (String.length _ =? 0)%nat eqn:Hlen;
       [step_done Hstep; simpl in Hv; congruence|]);
      step_done Hstep; simpl in Hv; rewrite lookup_insert_eq in Hv;
      injection Hv as <-; eexists; (split; [reflexivity|]); (split; [reflexivity|]);
      intros Hempty; rewrite Hempty in Hlen; discriminate. }
  split; [exact Hsome|]. split.
  - destruct (Validator.validated r !! "_id") as [v|]; [eauto | discriminate].
  - intros [v Hv]. destruct (Hsome v Hv) as (c & _ & -> & Hne). rewrite Hv. simpl.
    now apply truthy_nonempty.
Qed.

Lemma validated_id_is_not_blank_witness :
  Validator.truthyJ (Validator.validated Sample.knownResult !! "_id") = true.
Proof.
  assert (Hrun : Validator.validateClientData Sample.env
                   (Csv.mrData (Csv.mapRow Sample.user Sample.known)) 5
                 = inr Sample.knownResult) by (vm_compute; reflexivity).
  destruct (validated_id_is_not_blank Sample.env _ 5 Sample.knownResult Hrun) as (_ & Hiff).
  apply Hiff. eexists. vm_compute. reflexivity.
Defined.

(** * The CSV import *)

Section CsvFacts.
Import Store Csv.

(** The record of a row, by the step that visits one column. *)
Lemma mapColumn_mapped (m1 m2 : mapping) (kv : string * string) :
  mapped m1 = mapped m2 -> mapped (mapColumn m1 kv) = mapped (mapColumn m2 kv).
Proof.
  intros H. unfold mapColumn. destruct kv as [key rawVal].
  destruct (isSensitive (Js.trim key)); [exact H|].
  generalize (normalizedMap !! normalizeHeader (Js.trim key)). intros looked.
  generalize (match looked with
              | Some t => Js.orElse t (Js.trim key)
              | None => Js.trim key
              end). intros target.
  generalize (if inList target plainTextTargets then Js.trim rawVal else rawVal).
  intros value.
  assert (H' : mapped (if String.eqb target "createdAt"
                       then setMapped "createdAtText" (CStr (Js.trim rawVal)) m1 else m1)
               = mapped (if String.eqb target "createdAt"
                         then setMapped "createdAtText" (CStr (Js.trim rawVal)) m2 else m2)).
  { destruct (String.eqb target "createdAt"); [|exact H].
    unfold setMapped. cbn [mapped]. now rewrite H. }
  revert H'.
  generalize (if String.eqb target "createdAt"
              then setMapped "createdAtText" (CStr (Js.trim rawVal)) m1 else m1).
  generalize (if String.eqb target "createdAt"
              then setMapped "createdAtText" (CStr (Js.trim rawVal)) m2 else m2).
  intros n2 n1 Hn.
  destruct (String.eqb (normalizeHeader (Js.trim key)) (normalizeHeader "Client_id")).
  - destruct (negb (String.eqb (Js.trim value) "")); [|exact Hn].
    unfold setMapped. cbn [mapped]. now rewrite Hn.
  - destruct (bool_decide (looked = Some "forecastedAmount"));
      unfold setMapped; cbn [mapped]; now rewrite Hn.
Qed.

Lemma mapColumn_sensitive (m : mapping) (key rawVal : string) :
  isSensitive (Js.trim key) = true -> mapped (mapColumn m (key, rawVal)) = mapped m.
Proof. intros H. unfold mapColumn. now rewrite H. Qed.

(** The columns under a sensitive header have no part in the record. *)
Lemma fold_mapColumn_plain (cs : csvRow) (m1 m2 : mapping) :
  mapped m1 = mapped m2 ->
  mapped (fold_left mapColumn cs m1)
  = mapped (fold_left mapColumn
              (List.filter (fun kv => negb (isSensitive (Js.trim (fst kv)))) cs) m2).
Proof.
  revert m1 m2. induction cs as [|[key rawVal] cs IH]; intros m1 m2 H; [exact H|].
  cbn [fold_left List.filter fst].
  destruct (isSensitive (Js.trim key)) eqn:Hs; cbn [negb].
  - apply IH. now rewrite mapColumn_sensitive.
  - cbn [fold_left]. apply IH. now apply mapColumn_mapped.
Qed.

Lemma tasksFrom_length (metas : list meta) (results : bulkResult) (idx : nat) :
  (List.length (tasksFrom idx metas results) <= List.length metas)%nat.
Proof.
  revert idx. induction metas as [|m metas IH]; intros idx; cbn [tasksFrom List.length].
  - lia.
  - destruct (taskFor m (results !! idx)); cbn [List.length]; specialize (IH (S idx)); lia.
Qed.

Lemma runTasks_count (now : Z) (emailMap : gmap string docId) (queue : list task)
    (c : collection) :
  (snd (runTasks now emailMap c queue) <= List.length queue)%nat.
Proof.
  unfold runTasks.
  assert (H : forall acc : collection * nat,
             (snd (fold_left
                     (fun acc t =>
                        let '(c1, added) := runTask now emailMap (fst acc) t in
                        (c1, if added then S (snd acc) else snd acc)) queue acc)
              <= snd acc + List.length queue)%nat).
  { induction queue as [|t queue IH]; intros acc; cbn [fold_left List.length]; [lia|].
    etransitivity; [apply IH|].
    destruct (runTask now emailMap (fst acc) t) as [c1 [|]]; cbn [snd]; lia. }
  exact (H (c, 0%nat)).
Qed.

End CsvFacts.

(** X21.  The summary of a completed CSV import counts every parsed line as
    processed, reports no failed and no skipped line, gives successful as the
    sum of created and updated, and adds at most as many payment methods as
    it attempted, which are at most the lines.  The import never answers
    that the data is invalid. *)
Theorem csv_import_summary :
  forall env userId now skipInvalid parsedData c,
    (forall c' invalid,
        Csv.importClients env userId now skipInvalid parsedData c
        <> (c', Csv.InvalidData invalid))
    /\ (forall c' sm skippedRows rowsWithWarnings,
          Csv.importClients env userId now skipInvalid parsedData c
          = (c', Csv.Completed sm skippedRows rowsWithWarnings) ->
          Csv.totalProcessed sm = List.length parsedData
          /\ Csv.failed sm = 0%nat /\ Csv.skipped sm = 0%nat /\ skippedRows = []
          /\ Csv.successful sm = (Csv.created sm + Csv.updated sm)%nat
          /\ (Csv.paymentAdded sm <= Csv.paymentAttempted sm)%nat
          /\ (Csv.paymentAttempted sm <= List.length parsedData)%nat).
Proof.
  intros env userId now skipInvalid parsedData c.
  unfold Csv.importClients.
  destruct (validateAll_total (Csv.withClients env c) userId parsedData 0)
    as (results & -> & Hlen & Hinv & Hvalid).
  cbv zeta. rewrite Hinv, Hvalid. cbn [List.length Nat.ltb Nat.leb].
  rewrite andb_false_r.
  destruct (Store.bulkWrite Store.execOp c _) as [c1 bulkRes].
  destruct (Store.hasWriteErrors bulkRes).
  { split; [intros c' invalid H; discriminate H | intros c' sm s w H; discriminate H]. }
  match goal with |- context [Csv.runTasks ?n ?e ?c ?q] =>
    pose proof (runTasks_count n e q c) as Hadded;
    pose proof (tasksFrom_length
                  (List.map snd (List.map (Csv.rowOp env (List.map (Csv.mapRow userId) parsedData) now) results))
                  bulkRes 0) as Hqueue;
    destruct (Csv.runTasks n e c q) as [c2 added]
  end.
  split; [intros c' invalid H; discriminate H|].
  intros c' sm s w H. injection H as _ <- <- _.
  cbn [Csv.totalProcessed Csv.failed Csv.skipped Csv.successful Csv.created
       Csv.updated Csv.paymentAttempted Csv.paymentAdded].
  cbn [snd] in Hadded. rewrite !length_map in Hqueue.
  repeat split; try (destruct skipInvalid; reflexivity); try lia.
Qed.

Lemma csv_import_summary_witness :
  exists c' sm skippedRows rowsWithWarnings,
    Csv.importClients Sample.env Sample.user 5000 true [Sample.known] Sample.oldStore
    = (c', Csv.Completed sm skippedRows rowsWithWarnings)
    /\ Csv.totalProcessed sm = List.length [Sample.known]
    /\ Csv.failed sm = 0%nat.
Proof.
  destruct (csv_import_summary Sample.env Sample.user 5000 true [Sample.known]
              Sample.oldStore) as (_ & H).
  destruct (Csv.importClients Sample.env Sample.user 5000 true [Sample.known]
              Sample.oldStore) as [c' [invalid | sm s w |]] eqn:Hrun.
  - vm_compute in Hrun. discriminate Hrun.
  - exists c', sm, s, w. split; [reflexivity|].
    destruct (H c' sm s w eq_refl) as (Htotal & Hfailed & _). auto.
  - vm_compute in Hrun. discriminate Hrun.
Defined.

(** X22.  The card columns under the spaced headers never reach the record
    of a CSV line.  A column whose header is sensitive leaves the mapped
    record as it was; the five headers are sensitive in any case of letters
    and with underscores or extra white space; and two lines that agree
    outside the sensitive columns are mapped to the same record. *)
Theorem sensitive_columns_bypass_the_record :
  (forall m key rawVal,
      Csv.isSensitive (Js.trim key) = true ->
      Csv.mapped (Csv.mapColumn m (key, rawVal)) = Csv.mapped m)
  /\ (forall header,
        In (Csv.normalizeHeader header) Csv.sensitiveNormalized ->
        Csv.isSensitive header = true)
  /\ (forall userId r r',
        List.filter (fun kv => negb (Csv.isSensitive (Js.trim (fst kv)))) (Csv.cells r)
        = List.filter (fun kv => negb (Csv.isSensitive (Js.trim (fst kv)))) (Csv.cells r') ->
        Csv.mrData (Csv.mapRow userId r) = Csv.mrData (Csv.mapRow userId r')).
Proof.
  split; [exact mapColumn_sensitive|]. split.
  - intros header H. unfold Csv.isSensitive.
    assert (Hin : Csv.inList (Csv.normalizeHeader header) Csv.sensitiveNormalized = true).
    { unfold Csv.inList. apply existsb_exists. exists (Csv.normalizeHeader header).
      split; [exact H | apply String.eqb_refl]. }
    rewrite Hin. now rewrite orb_true_r.
  - intros userId r r' H. unfold Csv.mapRow. cbn [Csv.mrData].
    rewrite (fold_mapColumn_plain (Csv.cells r) _ _ eq_refl).
    rewrite (fold_mapColumn_plain (Csv.cells r') _ _ eq_refl).
    now rewrite H.
Qed.

Lemma sensitive_columns_bypass_the_record_witness :
  Csv.isSensitive "cc_number" = true
  /\ Csv.mrData (Csv.mapRow Sample.user Sample.csvSpacedCard)
     = Csv.mrData
         (Csv.mapRow Sample.user
            {| Csv.rowNumber := 7;
               Csv.cells := [ ("Name", "Ann Lee"); ("Email", "ann@example.com") ] |}).
Proof.
  destruct sensitive_columns_bypass_the_record as (_ & Hheader & Hrows).
  split.
  - apply Hheader. vm_compute. auto.
  - apply Hrows. vm_compute. reflexivity.
Defined.

(** * The utilities of the CSV parser *)

Section ParserFacts.
Import Parser.

Lemma insertByCount_In (x y : ascii * nat) (l : list (ascii * nat)) :
  In y (insertByCount x l) <-> y = x \/ In y l.
Proof.
  induction l as [|z l IH]; simpl; [intuition|].
  destruct (snd z <=? snd x)%nat; simpl; [intuition|]. rewrite IH. intuition.
Qed.

Lemma sortByCount_In (y : ascii * nat) (l : list (ascii * nat)) :
  In y (sortByCount l) <-> In y l.
Proof.
  induction l as [|x l IH]; simpl; [tauto|].
  rewrite insertByCount_In, IH. intuition.
Qed.

(** The head of the sorted list has the greatest count. *)
Lemma sortByCount_head (l : list (ascii * nat)) (best : ascii * nat)
    (rest : list (ascii * nat)) :
  sortByCount l = best :: rest ->
  In best l /\ forall y, In y l -> (snd y <= snd best)%nat.
Proof.
  revert best rest. induction l as [|x l IH]; intros best rest H; [discriminate|].
  simpl in H. destruct (sortByCount l) as [|b tail] eqn:Hs.
  - simpl in H. injection H as <- <-.
    assert (Hl : l = []).
    { destruct l as [|z l']; [reflexivity|].
      assert (Hz : In z (sortByCount (z :: l'))) by (apply sortByCount_In; now left).
      rewrite Hs in Hz. destruct Hz. }
    subst l. split; [now left|]. intros y [<-|[]]. lia.
  - destruct (IH b tail eq_refl) as [Hin Hmax]. simpl in H.
    destruct (Nat.leb_spec (snd b) (snd x)) as [Hle|Hgt]; injection H as <- <-.
    + split; [now left|]. intros y [<-|Hy]; [lia|]. specialize (Hmax y Hy). lia.
    + split; [now right|]. intros y [<-|Hy]; [lia | now apply Hmax].
Qed.

Lemma counts_In (lines : list (list ascii)) (y : ascii * nat) :
  In y (counts lines)
  <-> exists d, In d delimiters /\ y = (d, list_sum (List.map (countIn d) lines)).
Proof.
  unfold counts. rewrite in_map_iff. split; intros (d & H1 & H2); exists d; auto.
Qed.

(** The delimiter detected is the comma, or a candidate that occurs in the
    first five lines. *)
Lemma detectDelimiter_comma_or_best (csvString : string) :
  detectDelimiter csvString = ","%char
  \/ (In (detectDelimiter csvString) delimiters
      /\ (0 < list_sum (List.map (countIn (detectDelimiter csvString))
                          (firstn 5 (splitLines [] (Js.chars csvString)))))%nat).
Proof.
  unfold detectDelimiter.
  destruct (sortByCount (counts (firstn 5 (splitLines [] (Js.chars csvString)))))
    as [|best rest] eqn:Hs; [now left|].
  destruct (sortByCount_head _ _ _ Hs) as [Hin _].
  apply counts_In in Hin as (b & Hb & ->). cbn [fst snd].
  destruct (Nat.ltb_spec 0 (list_sum (List.map (countIn b)
                                        (firstn 5 (splitLines [] (Js.chars csvString))))));
    [right; auto | now left].
Qed.

End ParserFacts.

(** X23.  The delimiter detected in a CSV text is one of the comma, the
    semicolon, the tab and the bar; over the first five lines no other
    candidate occurs more often than it; and it is the comma when none of
    them occurs there. *)
Theorem detectDelimiter_is_most_frequent :
  forall csvString,
    let lines := firstn 5 (Parser.splitLines [] (Js.chars csvString)) in
    let occurrences := fun d => list_sum (List.map (Parser.countIn d) lines) in
    In (Parser.detectDelimiter csvString) Parser.delimiters
    /\ (forall d, In d Parser.delimiters ->
                  (occurrences d <= occurrences (Parser.detectDelimiter csvString))%nat)
    /\ ((forall d, In d Parser.delimiters -> occurrences d = 0%nat) ->
        Parser.detectDelimiter csvString = ","%char).
Proof.
  intros csvString lines occurrences. unfold Parser.detectDelimiter. fold lines.
  assert (Hcomma : In ","%char Parser.delimiters) by (now left).
  destruct (Parser.sortByCount (Parser.counts lines)) as [|best rest] eqn:Hs;
    [exfalso|].
  { assert (H : In (","%char, occurrences ","%char) (Parser.sortByCount (Parser.counts lines))).
    { apply sortByCount_In, counts_In. eauto. }
    rewrite Hs in H. destruct H. }
  destruct (sortByCount_head _ _ _ Hs) as [Hin Hmax].
  apply counts_In in Hin as (b & Hb & ->). cbn [fst snd].
  assert (Hall : forall d, In d Parser.delimiters -> (occurrences d <= occurrences b)%nat).
  { intros d Hd. apply (Hmax (d, occurrences d)). apply counts_In. eauto. }
  fold (occurrences b).
  destruct (Nat.ltb_spec 0 (occurrences b)) as [Hpos|Hzero].
  - split; [exact Hb|]. split; [exact Hall|].
    intros Hnone. specialize (Hnone b Hb). lia.
  - split; [exact Hcomma|]. split; [|reflexivity].
    intros d Hd. specialize (Hall d Hd). lia.
Qed.

Lemma detectDelimiter_is_most_frequent_witness :
  Parser.detectDelimiter "Name Email Phone" = ","%char.
Proof.
  destruct (detectDelimiter_is_most_frequent "Name Email Phone") as (_ & _ & H).
  apply H. intros d Hd. simpl in Hd.
  repeat (destruct Hd as [<-|Hd]; [reflexivity|]). destruct Hd.
Defined.

Section HeaderFacts.
Import Parser.

Lemma chars_app (a b : string) : Js.chars (a ++ b) = (Js.chars a ++ Js.chars b)%list.
Proof. induction a as [|c a IH]; simpl; [reflexivity | now rewrite IH]. Qed.

Lemma chars_join (hs : list string) : Js.chars (Js.join "," hs) = Parser.joined hs.
Proof.
  induction hs as [|h [|h2 rest] IH]; [reflexivity | reflexivity |].
  change (Js.join "," (h :: h2 :: rest)) with (h ++ "," ++ Js.join "," (h2 :: rest)).
  rewrite !chars_app, IH. reflexivity.
Qed.

Lemma special_parts (c : ascii) :
  special c = false ->
  Ascii.eqb c ","%char = false /\ Ascii.eqb c QUOTE = false
  /\ Ascii.eqb c CR = false /\ Ascii.eqb c LF = false
  /\ forall d, In d delimiters -> Ascii.eqb d c = false.
Proof.
  unfold special, delimiters. cbn [existsb]. intros H.
  repeat match goal with
         | H : (_ || _)%bool = false |- _ => apply orb_false_elim in H as [? ?]
         end.
  repeat split; try assumption.
  intros d Hd. rewrite Ascii.eqb_sym. cbn [In] in Hd.
  repeat (destruct Hd as [<-|Hd]; [assumption|]). destruct Hd.
Qed.

Lemma plain_forall (l : list ascii) (c : ascii) :
  forallb (fun c => negb (special c)) l = true -> In c l -> special c = false.
Proof.
  intros H Hc. apply negb_true_iff.
  exact (proj1 (forallb_forall _ _) H c Hc).
Qed.

(** A text without line feed is one line. *)
Lemma splitLines_single (l current : list ascii) :
  forallb (fun c => negb (Ascii.eqb c LF)) l = true ->
  splitLines current l = [(rev current ++ l)%list].
Proof.
  revert current. induction l as [|c l IH]; intros current H; simpl.
  - now rewrite app_nil_r.
  - simpl in H. apply andb_true_iff in H as [Hc H]. apply negb_true_iff in Hc.
    rewrite Hc, (IH _ H). simpl. now rewrite <- app_assoc.
Qed.

Lemma stripQuotes_plain (l : list ascii) :
  forallb (fun c => negb (special c)) l = true -> stripQuotes l = l.
Proof.
  intros H. unfold stripQuotes. destruct l as [|c l]; [reflexivity|].
  destruct (special_parts c (plain_forall _ c H ltac:(now left))) as (_ & Hq & _).
  rewrite Hq. destruct (rev (c :: l)) as [|x before] eqn:Hr.
  - apply (f_equal (@List.length ascii)) in Hr. rewrite length_rev in Hr. discriminate.
  - assert (Hx : In x (c :: l)).
    { apply in_rev. rewrite Hr. now left. }
    destruct (special_parts x (plain_forall _ x H Hx)) as (_ & Hxq & _).
    now rewrite Hxq.
Qed.

Lemma dropCR_plain (l : list ascii) :
  forallb (fun c => negb (special c)) l = true -> dropCR l = l.
Proof.
  intros H. unfold dropCR. destruct (rev l) as [|x before] eqn:Hr.
  - apply (f_equal (@rev ascii)) in Hr. rewrite rev_involutive in Hr. now subst.
  - assert (Hx : In x l) by (apply in_rev; rewrite Hr; now left).
    destruct (special_parts x (plain_forall _ x H Hx)) as (_ & _ & Hcr & _).
    now rewrite Hcr.
Qed.

(** A header that is trimmed and has no special character is pushed as it
    is. *)
Lemma header_plain (h : string) :
  forallb (fun c => negb (special c)) (Js.chars h) = true -> Js.trim h = h ->
  Js.text (stripQuotes (Js.trimL (Js.chars h))) = h.
Proof.
  intros Hp Ht. unfold Js.trim in Ht.
  apply (f_equal Js.chars) in Ht. rewrite chars_text in Ht.
  rewrite Ht, (stripQuotes_plain _ Hp). apply text_chars.
Qed.

Lemma scan_plain (l rest : list ascii) (done : list string) (cur : list ascii) :
  forallb (fun c => negb (special c)) l = true ->
  fold_left (scanChar ",") (l ++ rest)
    {| headers := done; current := cur; inQuotes := false |}
  = fold_left (scanChar ",") rest
      {| headers := done; current := (cur ++ l)%list; inQuotes := false |}.
Proof.
  revert cur. induction l as [|c l IH]; intros cur H.
  - now rewrite app_nil_r.
  - simpl in H. apply andb_true_iff in H as [Hc H]. apply negb_true_iff in Hc.
    destruct (special_parts c Hc) as (Hcomma & Hq & _).
    cbn [app fold_left]. unfold scanChar at 2.
    cbn [headers current inQuotes]. rewrite Hq, Hcomma. cbn [andb].
    rewrite IH by exact H. now rewrite <- app_assoc.
Qed.

Lemma scan_joined (h : string) (rest : list string) (done : list string) :
  Forall (fun h => forallb (fun c => negb (special c)) (Js.chars h) = true
                   /\ Js.trim h = h) (h :: rest) ->
  fold_left (scanChar ",") (Parser.joined (h :: rest))
    {| headers := done; current := []; inQuotes := false |}
  = {| headers := (done ++ removelast (h :: rest))%list;
       current := Js.chars (List.last (h :: rest) "");
       inQuotes := false |}.
Proof.
  revert h done. induction rest as [|h2 rest IH]; intros h done H.
  - inversion H as [|? ? [Hp _] _]; subst. cbn [Parser.joined removelast List.last].
    rewrite <- (app_nil_r (Js.chars h)) at 1. rewrite (scan_plain _ [] _ _ Hp).
    cbn [fold_left app]. now rewrite app_nil_r.
  - inversion H as [|? ? [Hp Ht] Hrest]; subst.
    change (Parser.joined (h :: h2 :: rest))
      with (Js.chars h ++ ","%char :: Parser.joined (h2 :: rest))%list.
    rewrite (scan_plain _ _ _ _ Hp). cbn [fold_left app]. unfold scanChar at 2.
    cbn [headers current inQuotes andb negb].
    replace (Ascii.eqb ","%char QUOTE) with false by reflexivity.
    rewrite Ascii.eqb_refl. cbn [andb].
    rewrite (header_plain h Hp Ht), (IH h2 _ Hrest).
    change (removelast (h :: h2 :: rest)) with (h :: removelast (h2 :: rest)).
    change (List.last (h :: h2 :: rest) "") with (List.last (h2 :: rest) "").
    now rewrite <- app_assoc.
Qed.

Lemma countIn_plain (d : ascii) (l : list ascii) :
  In d delimiters -> forallb (fun c => negb (special c)) l = true -> countIn d l = 0%nat.
Proof.
  intros Hd H. unfold countIn. induction l as [|c l IH]; [reflexivity|].
  simpl in H. apply andb_true_iff in H as [Hc H]. apply negb_true_iff in Hc.
  destruct (special_parts c Hc) as (_ & _ & _ & _ & Hds).
  simpl. rewrite (Hds d Hd). now apply IH.
Qed.

Lemma countIn_app (d : ascii) (a b : list ascii) :
  countIn d (a ++ b) = (countIn d a + countIn d b)%nat.
Proof. unfold countIn. now rewrite List.filter_app, length_app. Qed.

(** In a line of plain headers only the comma occurs. *)
Lemma countIn_joined (d : ascii) (hs : list string) :
  In d delimiters -> d <> ","%char ->
  Forall (fun h => forallb (fun c => negb (special c)) (Js.chars h) = true
                   /\ Js.trim h = h) hs ->
  countIn d (Parser.joined hs) = 0%nat.
Proof.
  intros Hd Hne H. induction H as [|h rest [Hp _] Hrest IH]; [reflexivity|].
  destruct rest as [|h2 rest]; [exact (countIn_plain d _ Hd Hp)|].
  change (Parser.joined (h :: h2 :: rest))
    with (Js.chars h ++ [","%char] ++ Parser.joined (h2 :: rest))%list.
  rewrite !countIn_app, (countIn_plain d _ Hd Hp), IH.
  unfold countIn. simpl. destruct (Ascii.eqb_spec d ","%char); [contradiction | reflexivity].
Qed.

Lemma joined_no_LF (hs : list string) :
  Forall (fun h => forallb (fun c => negb (special c)) (Js.chars h) = true
                   /\ Js.trim h = h) hs ->
  forallb (fun c => negb (Ascii.eqb c LF)) (Parser.joined hs) = true.
Proof.
  assert (Hplain : forall l, forallb (fun c => negb (special c)) l = true ->
                             forallb (fun c => negb (Ascii.eqb c LF)) l = true).
  { intros l H. apply forallb_forall. intros c Hc.
    destruct (special_parts c (plain_forall _ c H Hc)) as (_ & _ & _ & Hlf & _).
    now rewrite Hlf. }
  intros H. induction H as [|h rest [Hp _] Hrest IH]; [reflexivity|].
  destruct rest as [|h2 rest]; [exact (Hplain _ Hp)|].
  change (Parser.joined (h :: h2 :: rest))
    with (Js.chars h ++ ","%char :: Parser.joined (h2 :: rest))%list.
  rewrite forallb_app, (Hplain _ Hp). simpl. exact IH.
Qed.

End HeaderFacts.

(** X24.  A line of headers is read back.  Headers that are trimmed and hold
    no delimiter candidate, double quote or line end, the last of them not
    empty, are the headers that [extractHeaders] finds in their join by
    commas. *)
Theorem headers_are_read_back :
  forall hs,
    hs <> [] ->
    Forall (fun h => forallb (fun c => negb (Parser.special c)) (Js.chars h) = true
                     /\ Js.trim h = h) hs ->
    List.last hs "" <> "" ->
    Parser.extractHeaders (Js.join "," hs) = hs.
Proof.
  intros hs Hne Hclean Hlast. destruct hs as [|h rest]; [congruence|].
  unfold Parser.extractHeaders.
  assert (Hdelim : Parser.detectDelimiter (Js.join "," (h :: rest)) = ","%char).
  { destruct (detectDelimiter_comma_or_best (Js.join "," (h :: rest))) as [H|H];
      [exact H|].
    destruct H as (Hin & Hpos).
    destruct (Ascii.eqb_spec (Parser.detectDelimiter (Js.join "," (h :: rest))) ","%char)
      as [Heq|Hneq]; [exact Heq|]. exfalso.
    rewrite chars_join, (splitLines_single _ [] (joined_no_LF _ Hclean)) in Hpos.
    cbn [rev app firstn List.map list_sum] in Hpos.
    rewrite (countIn_joined _ _ Hin Hneq Hclean) in Hpos. simpl in Hpos. lia. }
  rewrite Hdelim, chars_join, (splitLines_single _ [] (joined_no_LF _ Hclean)).
  cbn [rev app List.hd]. rewrite (scan_joined h rest [] Hclean).
  cbn [Parser.headers Parser.current app].
  assert (Hp : forallb (fun c => negb (Parser.special c))
                 (Js.chars (List.last (h :: rest) "")) = true
               /\ Js.trim (List.last (h :: rest) "") = List.last (h :: rest) "").
  { apply (proj1 (List.Forall_forall _ _) Hclean).
    destruct (@exists_last _ (h :: rest)) as (front & x & Hx); [discriminate|].
    rewrite Hx, last_last. apply in_or_app. right. now left. }
  destruct Hp as [Hp Ht].
  rewrite length_chars.
  destruct (Nat.ltb_spec 0 (String.length (List.last (h :: rest) ""))) as [_|Hzero].
  - rewrite (dropCR_plain _ Hp), (header_plain _ Hp Ht).
    symmetry. apply app_removelast_last. discriminate.
  - exfalso. apply Hlast. destruct (List.last (h :: rest) ""); [reflexivity|].
    simpl in Hzero. lia.
Qed.

Lemma headers_are_read_back_witness :
  Parser.extractHeaders "Name,Contact Status,Email" = ["Name"; "Contact Status"; "Email"].
Proof.
  apply (headers_are_read_back ["Name"; "Contact Status"; "Email"]).
  - discriminate.
  - repeat constructor.
  - discriminate.
Defined.

(** * Suggested column mappings *)

Section SuggestFacts.
Import Suggest.

Lemma suggest_Some (header target : string) :
  suggest header = Some target ->
  exists variations variation,
    In (target, variations) commonMappings /\ In variation variations
    /\ includes (Js.trim (Js.toLowerCase header)) variation = true.
Proof.
  unfold suggest. destruct (List.find _ commonMappings) as [[f vs]|] eqn:Hf; [|discriminate].
  intros H. injection H as <-. apply List.find_some in Hf as [Hin Hex].
  apply existsb_exists in Hex as (v & Hv & Hinc). exists vs, v. auto.
Qed.

Lemma suggested_field_is_available (target : string) (variations : list string) :
  In (target, variations) commonMappings ->
  In target (List.map field getAvailableClientFields).
Proof.
  unfold commonMappings. cbn [In]. intros H.
  repeat (destruct H as [H|H]; [injection H as <- _; vm_compute; tauto|]).
  destruct H.
Qed.

Lemma detect_lookup (headers : list string) (acc : gmap string string)
    (header target : string) :
  fold_left (fun mappings header =>
               match suggest header with
               | Some field => <[ header := field ]> mappings
               | None => mappings
               end) headers acc !! header = Some target ->
  (In header headers /\ suggest header = Some target) \/ acc !! header = Some target.
Proof.
  revert acc. induction headers as [|h headers IH]; intros acc H; [now right|].
  cbn [fold_left] in H. apply IH in H as [[Hin Hs] | Hacc]; [left; split; [now right | exact Hs]|].
  destruct (suggest h) as [f|] eqn:Hh; [|now right].
  destruct (decide (h = header)) as [->|Hne].
  - rewrite lookup_insert_eq in Hacc. injection Hacc as ->. left. split; [now left | exact Hh].
  - rewrite lookup_insert_ne in Hacc by exact Hne. now right.
Qed.

End SuggestFacts.

(** X25.  The suggested column mappings.  Every header that is given a
    suggestion is one of the headers passed in, and its target is a field
    that [getAvailableClientFields] offers, reached through a variation that
    occurs in the header, lower-cased and trimmed.  The table is searched in
    order, so a header in which [name] or [company] occurs is always
    suggested as the name, whatever else it contains. *)
Theorem suggested_mappings_are_available_fields
    (headers : list string) (header target : string)
    (Hsuggested : Suggest.detectColumnMappings headers !! header = Some target) :
  In header headers
  /\ In target (List.map Suggest.field Suggest.getAvailableClientFields)
  /\ (exists variations variation,
        In (target, variations) Suggest.commonMappings
        /\ In variation variations
        /\ Suggest.includes (Js.trim (Js.toLowerCase header)) variation = true)
  /\ (Suggest.includes (Js.trim (Js.toLowerCase header)) "name"
      || Suggest.includes (Js.trim (Js.toLowerCase header)) "company" = true ->
      target = "name").
Proof.
  apply detect_lookup in Hsuggested as [[Hin Hs] | Hempty];
    [|rewrite lookup_empty in Hempty; discriminate].
  split; [exact Hin|].
  destruct (suggest_Some header target Hs) as (vs & v & Hvs & Hv & Hinc).
  split; [exact (suggested_field_is_available target vs Hvs)|].
  split; [exists vs, v; auto|].
  intros Hname. revert Hs. unfold Suggest.suggest, Suggest.commonMappings.
  cbn [List.find snd existsb].
  destruct (Suggest.includes _ "name"); [intros H; injection H as <-; reflexivity|].
  cbn [orb] in Hname |- *. rewrite Hname.
  intros H; injection H as <-; reflexivity.
Qed.

Lemma suggested_mappings_are_available_fields_witness :
  Suggest.detectColumnMappings ["Owner Email"; "Notes"; "Company Name"] !! "Owner Email"
  = Some "email"
  /\ In "email" (List.map Suggest.field Suggest.getAvailableClientFields).
Proof.
  assert (H : Suggest.detectColumnMappings ["Owner Email"; "Notes"; "Company Name"]
              !! "Owner Email" = Some "email") by (vm_compute; reflexivity).
  split; [exact H|].
  exact (proj1 (proj2 (suggested_mappings_are_available_fields _ _ _ H))).
Defined.
